(** * ai-stamp-batch: sticker post-processing and batch protocol

    Shallow embedding of the server side of the sticker generator:
    - [makeInteriorOpaquePngBase64] (hole fill and edge-preserving opacity
      clamp over the flat RGBA buffer of a decoded PNG),
    - [resizeContainBilinear] (contain-resize into the output canvas),
    - the batch protocol helpers ([tryGetBatchResultImageBase64], the
      bounded poll loop of [GET /api/generate]) and the request handlers
      [GET /api/batch] and [POST /api/batch-csv].

    The pixel code mutates typed arrays in place; it is modelled by explicit
    state passing over lists, writing with stdpp's list [insert], which does
    nothing out of range, as a typed-array store does. *)

From Stdlib Require Import ZArith Lia QArith Qround Lqa String Ascii DecimalString.
From Stdlib Require Import Floats.SpecFloat.
From Stdlib Require DecimalPos DecimalFacts.
From stdpp Require Import base list.

Open Scope nat_scope.

(* ------------------------------------------------------------------ *)
(** ** Decoded PNG images *)

(** The object returned by [PNG.sync.read]: width, height and the flat
    RGBA8 buffer [data], pixel [p] at bytes [p*4 .. p*4+3]. *)
Record png := mkPng { width : nat; height : nat; data : list Z }.

(** [const alphaAt = (p) => data[p * 4 + 3]]; [None] is JavaScript's
    [undefined] (read out of range). *)
Definition alphaAt (d : list Z) (p : nat) : option Z := d !! (p * 4 + 3).

(** [v === 0] on a value read from a typed array. *)
Definition is_zero (o : option Z) : bool :=
  match o with Some z => Z.eqb z 0 | None => false end.

(** Images that [PNG.sync.read] can return: the buffer holds four bytes
    per pixel, each a byte, and it fits a Node [Buffer]
    ([buffer.constants.MAX_LENGTH] is 2^32 bytes, so at most 2^30
    pixels). *)
Definition decodable (img : png) : Prop :=
  length (data img) = 4 * (width img * height img) /\
  Forall (fun b => (0 <= b <= 255)%Z) (data img) /\
  (Z.of_nat (width img * height img) <= 2 ^ 30)%Z.

(* ------------------------------------------------------------------ *)
(** ** Phase 1: fill transparent holes that do not reach the border *)

Section Phase1.
Variables (width height : nat) (data : list Z).

(** The local state of the hole-fill block: the [bg] mark array
    ([Uint8Array], 1 = background-connected) and the pending part
    [q2[h2 .. t2)] of the FIFO queue. *)
Record fill_state := mkFill { bg : list bool; q2 : list nat }.

Definition bg_at (s : fill_state) (p : nat) : bool := default false (bg s !! p).

(** [pushIfTransparent(x, y)] *)
Definition pushIfTransparent (x y : nat) (s : fill_state) : fill_state :=
  let p := y * width + x in
  if negb (is_zero (alphaAt data p)) then s
  else if bg_at s p then s
  else mkFill (<[p := true]> (bg s)) (q2 s ++ [p]).

(** Seeding from the border pixels: the two loops over [x] and [y].
    ([height - 1] and [width - 1] are only reached with an empty buffer
    when the dimension is 0, where every read is [undefined] in both
    JavaScript and the model.) *)
Definition seed_border (s : fill_state) : fill_state :=
  let s := fold_left (fun s x => pushIfTransparent x (height - 1)
                                   (pushIfTransparent x 0 s)) (seq 0 width) s in
  fold_left (fun s y => pushIfTransparent (width - 1) y
                          (pushIfTransparent 0 y s)) (seq 0 height) s.

(** One iteration of [while (h2 < t2)], after [p = q2[h2++]]. *)
Definition flood_step (p : nat) (s : fill_state) : fill_state :=
  let x := p mod width in
  let y := p / width in
  let s := if 0 <? x then pushIfTransparent (x - 1) y s else s in
  let s := if x + 1 <? width then pushIfTransparent (x + 1) y s else s in
  let s := if 0 <? y then pushIfTransparent x (y - 1) s else s in
  if y + 1 <? height then pushIfTransparent x (y + 1) s else s.

Fixpoint flood (fuel : nat) (s : fill_state) : fill_state :=
  match fuel with
  | O => s
  | S f =>
      match q2 s with
      | [] => s
      | p :: rest => flood f (flood_step p (mkFill (bg s) rest))
      end
  end.

(** Body of the final loop over [p]: an alpha 0 pixel not marked [bg]
    gets the four bytes 255. *)
Definition fill_hole (bgv : list bool) (d : list Z) (p : nat) : list Z :=
  if negb (is_zero (alphaAt d p)) then d
  else if default false (bgv !! p) then d
  else <[p * 4 + 3 := 255%Z]> (<[p * 4 + 2 := 255%Z]>
         (<[p * 4 + 1 := 255%Z]> (<[p * 4 := 255%Z]> d))).

Definition npix : nat := width * height.

(** Each loop iteration either empties one queue slot or marks one pixel,
    so this many iterations run the flood to completion (proved below). *)
Definition flood_result : fill_state :=
  let s := seed_border (mkFill (replicate npix false) []) in
  flood (length (q2 s) + 2 * npix) s.

Definition phase1 : list Z :=
  fold_left (fill_hole (bg flood_result)) (seq 0 npix) data.

End Phase1.

(** A small raster: 3x3, transparent centre enclosed by opaque pixels. *)
Definition px (r g b a : Z) : list Z := [r; g; b; a].
Definition ring3 : list Z :=
  px 9 9 9 200 ++ px 9 9 9 200 ++ px 9 9 9 200 ++
  px 9 9 9 200 ++ px 1 2 3 0 ++ px 9 9 9 200 ++
  px 9 9 9 200 ++ px 9 9 9 200 ++ px 4 5 6 0.

(* ------------------------------------------------------------------ *)
(** ** Phase 2: edge-preserving opacity clamp *)

(** Store into an [Int16Array] (ToInt16). *)
Definition to_int16 (v : Z) : Z := ((v + 32768) mod 65536 - 32768)%Z.

Definition KEEP_EDGE_PX : Z := 2.

Section Phase2.
Variables (width height : nat) (data : list Z).

(** [nx < 0 || ny < 0 || nx >= width || ny >= height] *)
Definition out_of_bounds (nx ny : Z) : bool :=
  (nx <? 0)%Z || (ny <? 0)%Z || (nx >=? Z.of_nat width)%Z || (ny >=? Z.of_nat height)%Z.

(** The offsets [(dx, dy)] in the order of the two nested loops
    ([dy] outer, [dx] inner), skipping [(0, 0)]. *)
Definition offsets8 : list (Z * Z) :=
  [(-1, -1); (0, -1); (1, -1); (-1, 0); (1, 0); (-1, 1); (0, 1); (1, 1)]%Z.

(** [isEdge]: the loops stop at the first neighbour that is outside the
    canvas or has alpha 0, so the flag is the disjunction over them. *)
Definition isEdge (x y : nat) : bool :=
  existsb (fun o =>
    let nx := (Z.of_nat x + fst o)%Z in
    let ny := (Z.of_nat y + snd o)%Z in
    out_of_bounds nx ny || is_zero (alphaAt data (Z.to_nat (ny * Z.of_nat width + nx))))
    offsets8.

(** The [dist] array ([Int16Array], -1 = not reached) and the pending
    part [q[head .. tail)] of the queue. *)
Record dist_state := mkDist { dist : list Z; q : list nat }.

(** Body of the edge-detection loops at [(x, y)]. *)
Definition edge_visit (s : dist_state) (y x : nat) : dist_state :=
  let p := y * width + x in
  if is_zero (alphaAt data p) then s
  else if isEdge x y then mkDist (<[p := 0%Z]> (dist s)) (q s ++ [p])
  else s.

Definition seed_edges (s : dist_state) : dist_state :=
  fold_left (fun s y => fold_left (fun s x => edge_visit s y x) (seq 0 width) s)
    (seq 0 height) s.

(** One neighbour [[nx, ny]] of the BFS loop, [d] being [dist[p]]. *)
Definition bfs_visit (d : Z) (s : dist_state) (nb : Z * Z) : dist_state :=
  let nx := fst nb in
  let ny := snd nb in
  if out_of_bounds nx ny then s
  else
    let np := Z.to_nat (ny * Z.of_nat width + nx) in
    if is_zero (alphaAt data np) then s
    else match dist s !! np with
         | Some v => if Z.eqb v (-1)
                     then mkDist (<[np := to_int16 (d + 1)]> (dist s)) (q s ++ [np])
                     else s
         | None => s
         end.

(** One iteration of [while (head < tail)] after [p = q[head++]];
    [p] is always a pixel index, so [dist[p]] is defined. *)
Definition bfs_step (p : nat) (s : dist_state) : dist_state :=
  let x := Z.of_nat (p mod width) in
  let y := Z.of_nat (p / width) in
  let d := default (-1)%Z (dist s !! p) in
  fold_left (bfs_visit d) [((x - 1)%Z, y); ((x + 1)%Z, y); (x, (y - 1)%Z); (x, (y + 1)%Z)] s.

Fixpoint bfs (fuel : nat) (s : dist_state) : dist_state :=
  match fuel with
  | O => s
  | S f =>
      match q s with
      | [] => s
      | p :: rest => bfs f (bfs_step p (mkDist (dist s) rest))
      end
  end.

Definition dist_result : dist_state :=
  let s := seed_edges (mkDist (replicate (width * height) (-1)%Z) []) in
  bfs (length (q s) + 2 * (width * height)) s.

(** Body of the clamp loop. *)
Definition clamp_px (dv : list Z) (d : list Z) (p : nat) : list Z :=
  if is_zero (alphaAt d p) then d
  else if (KEEP_EDGE_PX <? default (-1)%Z (dv !! p))%Z then <[p * 4 + 3 := 255%Z]> d
  else d.

Definition phase2 : list Z :=
  fold_left (clamp_px (dist dist_result)) (seq 0 (width * height)) data.

End Phase2.

(** [makeInteriorOpaquePngBase64] on the decoded image (the base64 and
    PNG codecs around it are library calls). *)
Definition makeInteriorOpaque (img : png) : png :=
  let d1 := phase1 (width img) (height img) (data img) in
  mkPng (width img) (height img) (phase2 (width img) (height img) d1).

Definition solid (n : nat) (a : Z) : list Z := concat (repeat (px 7 7 7 a) n).

(* ------------------------------------------------------------------ *)
(** ** Reference notions for the pixel claims *)

(** The four bytes of pixel [p]. *)
Definition pixel (d : list Z) (p : nat) : list (option Z) :=
  map (fun c => d !! (p * 4 + c)) [0; 1; 2; 3].

(** 4-adjacency of grid coordinates. *)
Definition adj4 (x y x' y' : nat) : Prop :=
  (x' + 1 = x /\ y' = y) \/ (x' = x + 1 /\ y' = y) \/
  (x' = x /\ y' + 1 = y) \/ (x' = x /\ y' = y + 1).

Section Reach.
Variables (width height : nat) (data : list Z).

Definition transparent_at (x y : nat) : Prop :=
  x < width /\ y < height /\ alphaAt data (y * width + x) = Some 0%Z.

(** An alpha 0 pixel joined to the canvas border by a 4-connected path of
    alpha 0 pixels. *)
Inductive border_reach : nat -> nat -> Prop :=
| br_border x y :
    transparent_at x y -> (x = 0 \/ y = 0 \/ x + 1 = width \/ y + 1 = height) ->
    border_reach x y
| br_step x y x' y' :
    border_reach x y -> adj4 x y x' y' -> transparent_at x' y' -> border_reach x' y'.

(** Invariant of the flood: the marks are sound, queued pixels are marked,
    and a marked pixel that left the queue has all its alpha 0
    neighbours marked. *)
Definition closed_at (s : fill_state) (p : nat) : Prop :=
  forall x' y', adj4 (p mod width) (p / width) x' y' -> transparent_at x' y' ->
    bg_at s (y' * width + x') = true.

Record flood_ok (s : fill_state) : Prop := {
  fi_len : length (bg s) = width * height;
  fi_sound : forall p, bg_at s p = true ->
    p < width * height /\ alphaAt data p = Some 0%Z /\
    border_reach (p mod width) (p / width);
  fi_queue : forall p, In p (q2 s) -> bg_at s p = true
}.

Definition flood_inv (s : fill_state) : Prop :=
  flood_ok s /\ forall p, bg_at s p = true -> ~ In p (q2 s) -> closed_at s p.

Definition fill_measure (s : fill_state) : nat :=
  length (q2 s) + 2 * length (List.filter negb (bg s)).

End Reach.

(** How the flood state grows: marks and queue only grow, every new mark
    is queued, the length of [bg] is kept and the measure does not grow. *)
Definition fs_ext (s s' : fill_state) : Prop :=
  (forall i, bg_at s i = true -> bg_at s' i = true) /\
  (forall i, In i (q2 s) -> In i (q2 s')) /\
  (forall i, bg_at s' i = true -> bg_at s i = true \/ In i (q2 s')) /\
  length (bg s') = length (bg s) /\ fill_measure s' <= fill_measure s.

(** [fill_hole]'s test: an alpha 0 pixel not marked as background. *)
Definition hole (bgv : list bool) (d : list Z) (p : nat) : bool :=
  is_zero (alphaAt d p) && negb (default false (bgv !! p)).

(** ** Distances of phase 2, stated on the grid *)

Section Reach2.
Variables (width height : nat) (data : list Z).

(** An alpha > 0 pixel of the canvas. *)
Definition opaque_at (x y : nat) : Prop :=
  x < width /\ y < height /\
  exists a, alphaAt data (y * width + x) = Some a /\ (0 < a)%Z.

(** 8-adjacency: a different pixel at Chebyshev distance 1. *)
Definition adj8 (x y x' y' : nat) : Prop :=
  x' <= x + 1 /\ x <= x' + 1 /\ y' <= y + 1 /\ y <= y' + 1 /\ ~ (x' = x /\ y' = y).

(** An edge pixel: alpha > 0, and on the canvas border or next (among its
    8 neighbours) to an alpha 0 pixel. *)
Definition edge_at (x y : nat) : Prop :=
  opaque_at x y /\
  (x = 0 \/ y = 0 \/ x + 1 = width \/ y + 1 = height \/
   exists x' y', adj8 x y x' y' /\ x' < width /\ y' < height /\
     alphaAt data (y' * width + x') = Some 0%Z).

(** [dle n x y]: the 4-connected distance through alpha > 0 pixels from
    [(x, y)] to the nearest edge pixel is at most [n]. *)
Inductive dle : nat -> nat -> nat -> Prop :=
| dle_edge n x y : edge_at x y -> dle n x y
| dle_step n x y x' y' :
    dle n x y -> adj4 x y x' y' -> opaque_at x' y' -> dle (S n) x' y'.

(** [dist[p]] as the BFS reads it. *)
Definition val (s : dist_state) (p : nat) : Z := default (-1)%Z (dist s !! p).

(** Invariant of the BFS loop. The pending queue is [Q1 ++ Q2], where
    the entries of [Q1] hold [L] and those of [Q2] hold [L + 1]; assigned
    entries are sound upper bounds of the distance; a dequeued pixel has
    all its alpha > 0 neighbours assigned within one more step; and every
    pixel at distance at most [L] is already assigned its distance. *)
Record bfs_inv (L : Z) (Q1 Q2 : list nat) (s : dist_state) : Prop := {
  bi_len : length (dist s) = width * height;
  bi_q : q s = Q1 ++ Q2;
  bi_L : (0 <= L)%Z;
  bi_Q1 : forall p, In p Q1 -> val s p = L;
  bi_Q2 : forall p, In p Q2 -> val s p = (L + 1)%Z;
  bi_range : forall p v, dist s !! p = Some v -> v = (-1)%Z \/
    ((0 <= v <= L + 1)%Z /\ opaque_at (p mod width) (p / width) /\
     dle (Z.to_nat v) (p mod width) (p / width));
  bi_proc : forall p, (0 <= val s p)%Z -> ~ In p (q s) ->
    forall x' y', adj4 (p mod width) (p / width) x' y' -> opaque_at x' y' ->
    (0 <= val s (y' * width + x') <= val s p + 1)%Z;
  bi_comp : forall j x y, dle j x y -> (Z.of_nat j <= L)%Z ->
    (0 <= val s (y * width + x) <= Z.of_nat j)%Z
}.

End Reach2.

(** Each BFS iteration dequeues one pixel, and each enqueue assigns one
    [-1] entry of [dist]. *)
Definition bfs_measure (s : dist_state) : nat :=
  length (q s) + 2 * length (List.filter (Z.eqb (-1)) (dist s)).

(** The clamp's test on pixel [p]. *)
Definition clamp_cond (dv d : list Z) (p : nat) : bool :=
  negb (is_zero (alphaAt d p)) && (KEEP_EDGE_PX <? default (-1)%Z (dv !! p))%Z.

(** The effect of the four [bfs_visit]s of one BFS iteration, which
    dequeued [p] (holding [L]) and left the state [s0]: entries that were
    assigned stay, newly assigned entries hold [L + 1], belong to alpha > 0
    neighbours of [p] and are enqueued. *)
Record visit_ok (width height : nat) (data : list Z) (L : Z) (p : nat)
    (s0 s : dist_state) : Prop := {
  vo_len : length (dist s) = width * height;
  vo_keep : forall i v, dist s0 !! i = Some v -> v <> (-1)%Z -> dist s !! i = Some v;
  vo_new : forall i v, dist s !! i = Some v -> v = (-1)%Z \/ dist s0 !! i = Some v \/
    (v = (L + 1)%Z /\ dist s0 !! i = Some (-1)%Z /\
     opaque_at width height data (i mod width) (i / width) /\
     adj4 (p mod width) (p / width) (i mod width) (i / width) /\ In i (q s));
  vo_q : exists new, q s = q s0 ++ new /\
    forall i, In i new -> dist s !! i = Some (L + 1)%Z /\ dist s0 !! i = Some (-1)%Z;
  vo_measure : bfs_measure s <= bfs_measure s0
}.

(* ------------------------------------------------------------------ *)
(** ** [resizeContainBilinear]

    The arithmetic of the resize is done on JavaScript numbers, IEEE 754
    binary64 values rounded to nearest even: they are modelled by the
    Standard Library's [spec_float] with its operations [SFadd], [SFsub],
    [SFmul] and [SFdiv] at precision 53 and maximal exponent 1024. The
    loop counters and the destination index stay far below 2^53, where
    numbers are exact integers, and are kept as [nat]. *)

Definition double := spec_float.
Definition f64_prec : Z := 53.
Definition f64_emax : Z := 1024.

(** The number [z] (exact for [|z| <= 2^53]). *)
Definition dZ (z : Z) : double := binary_normalize f64_prec f64_emax z 0 false.
Definition dadd (a b : double) : double := SFadd f64_prec f64_emax a b.
Definition dsub (a b : double) : double := SFsub f64_prec f64_emax a b.
Definition dmul (a b : double) : double := SFmul f64_prec f64_emax a b.
Definition ddiv (a b : double) : double := SFdiv f64_prec f64_emax a b.
(** [a < b]; false when either is [NaN]. *)
Definition dlt (a b : double) : bool := SFltb a b.

Definition is_neg_zero (a : double) : bool :=
  match a with S754_zero true => true | _ => false end.
Definition is_pos_zero (a : double) : bool :=
  match a with S754_zero false => true | _ => false end.

(** [Math.min(a, b)]: [NaN] if either is, [-0] below [+0]. *)
Definition js_min (a b : double) : double :=
  match a, b with
  | S754_nan, _ | _, S754_nan => S754_nan
  | _, _ => if dlt b a then b else if dlt a b then a
            else if is_pos_zero a && is_neg_zero b then b else a
  end.

(** [Math.max(a, b)]. *)
Definition js_max (a b : double) : double :=
  match a, b with
  | S754_nan, _ | _, S754_nan => S754_nan
  | _, _ => if dlt a b then b else if dlt b a then a
            else if is_neg_zero a && is_pos_zero b then b else a
  end.

(** [Math.floor(x)]: a finite [x] with a negative exponent is rounded
    down to an integer, which is exact; the other values are kept. *)
Definition js_floor (x : double) : double :=
  match x with
  | S754_finite s m e =>
      if (0 <=? e)%Z then x else dZ (Z.div (cond_Zopp s (Zpos m)) (2 ^ (- e)))
  | _ => x
  end.

(** The integer part of a number, truncated toward zero ([0] for [NaN],
    the infinities and the zeros). *)
Definition js_trunc (x : double) : Z :=
  match x with
  | S754_finite s m e => cond_Zopp s (Z.shiftl (Zpos m) e)
  | _ => 0%Z
  end.

(** [v | 0]: ToInt32. *)
Definition to_int32 (z : Z) : Z := ((z + 2 ^ 31) mod 2 ^ 32 - 2 ^ 31)%Z.

(** A store into a [Uint8Array] (the [Buffer] [dst.data]): ToUint8. *)
Definition to_uint8 (z : Z) : Z := (z mod 256)%Z.

(** The value of a finite number or zero as a rational, in lowest terms. *)
Definition d_value (x : double) : option Q :=
  match x with
  | S754_zero _ => Some 0%Q
  | S754_finite s m e =>
      if (0 <=? e)%Z then Some (inject_Z (cond_Zopp s (Zpos m * 2 ^ e)))
      else Some (Qred (cond_Zopp s (Zpos m) # Z.to_pos (2 ^ (- e))))
  | _ => None
  end.

(** The element index a number denotes when it reads a typed array:
    [ToString] of [-0] is ["0"]; a number that is negative or not an
    integer names no element. *)
Definition d_index (x : double) : option nat :=
  match x with
  | S754_zero _ => Some 0
  | S754_finite false m e =>
      if (0 <=? e)%Z then Some (Z.to_nat (Z.shiftl (Zpos m) e))
      else if (Z.land (Zpos m) (2 ^ (- e) - 1) =? 0)%Z
           then Some (Z.to_nat (Z.shiftr (Zpos m) (- e))) else None
  | _ => None
  end.

(** [const clamp = (v, lo, hi) => Math.max(lo, Math.min(hi, v))]. *)
Definition clampD (v lo hi : double) : double := js_max lo (js_min hi v).

Section Resize.
Variable srcPng : png.
Variables dstW dstH : nat.

Local Abbreviation srcW := (dZ (Z.of_nat (width srcPng))).
Local Abbreviation srcH := (dZ (Z.of_nat (height srcPng))).

Definition scale : double :=
  js_min (ddiv (dZ (Z.of_nat dstW)) srcW) (ddiv (dZ (Z.of_nat dstH)) srcH).
Definition drawW : double := dmul srcW scale.
Definition drawH : double := dmul srcH scale.
Definition offX : double := ddiv (dsub (dZ (Z.of_nat dstW)) drawW) (dZ 2).
Definition offY : double := ddiv (dsub (dZ (Z.of_nat dstH)) drawH) (dZ 2).

(** The inverse map [sx = (x - offX) / scale], [sy = (y - offY) / scale]. *)
Definition inv_x (x : nat) : double := ddiv (dsub (dZ (Z.of_nat x)) offX) scale.
Definition inv_y (y : nat) : double := ddiv (dsub (dZ (Z.of_nat y)) offY) scale.

(** The [continue] test [sx < 0 || sy < 0 || sx > srcW - 1 || sy > srcH - 1]. *)
Definition outside (sx sy : double) : bool :=
  dlt sx (dZ 0) || dlt sy (dZ 0) || dlt (dsub srcW (dZ 1)) sx || dlt (dsub srcH (dZ 1)) sy.

(** [srcData[i]]: [undefined], which arithmetic turns into [NaN], when [i]
    names no element. *)
Definition srcAt (i : double) : double :=
  match d_index i with
  | Some k => match data srcPng !! k with Some b => dZ b | None => S754_nan end
  | None => S754_nan
  end.

(** [v0 = v00 * (1 - tx) + v10 * tx; v1 = ...; v = v0 * (1 - ty) + v1 * ty]. *)
Definition bilerp (v00 v10 v01 v11 tx ty : double) : double :=
  let v0 := dadd (dmul v00 (dsub (dZ 1) tx)) (dmul v10 tx) in
  let v1 := dadd (dmul v01 (dsub (dZ 1) tx)) (dmul v11 tx) in
  dadd (dmul v0 (dsub (dZ 1) ty)) (dmul v1 ty).

(** The value [v] of channel [c] at the source point [(sx, sy)]. *)
Definition interp (c : nat) (sx sy : double) : double :=
  let x0 := js_floor sx in
  let y0 := js_floor sy in
  let x1 := clampD (dadd x0 (dZ 1)) (dZ 0) (dsub srcW (dZ 1)) in
  let y1 := clampD (dadd y0 (dZ 1)) (dZ 0) (dsub srcH (dZ 1)) in
  let tx := dsub sx x0 in
  let ty := dsub sy y0 in
  let p00 := dmul (dadd (dmul y0 srcW) x0) (dZ 4) in
  let p10 := dmul (dadd (dmul y0 srcW) x1) (dZ 4) in
  let p01 := dmul (dadd (dmul y1 srcW) x0) (dZ 4) in
  let p11 := dmul (dadd (dmul y1 srcW) x1) (dZ 4) in
  let cc := dZ (Z.of_nat c) in
  bilerp (srcAt (dadd p00 cc)) (srcAt (dadd p10 cc)) (srcAt (dadd p01 cc)) (srcAt (dadd p11 cc))
    tx ty.

(** [v | 0]. *)
Definition sample (c : nat) (sx sy : double) : Z := to_int32 (js_trunc (interp c sx sy)).

(** The body of the [x] loop: [dstData[di + c] = v | 0] for [c < 4]. *)
Definition write_px (d : list Z) (x y : nat) : list Z :=
  let sx := inv_x x in
  let sy := inv_y y in
  if outside sx sy then d
  else
    fold_left (fun d c => <[(y * dstW + x) * 4 + c := to_uint8 (sample c sx sy)]> d)
      (seq 0 4) d.

(** [new PNG({width: dstW, height: dstH})], [dst.data.fill(0)], then the
    two loops. The result is the image that [PNG.sync.write(dst)] encodes. *)
Definition resizeContainBilinear : png :=
  mkPng dstW dstH
    (fold_left (fun d y => fold_left (fun d x => write_px d x y) (seq 0 dstW) d)
       (seq 0 dstH) (replicate (4 * (dstW * dstH)) 0%Z)).

End Resize.

(** The source of the 4x4 to 8x2 scenario: fully opaque white. *)
Definition white4x4 : png := mkPng 4 4 (replicate 64 255%Z).

(* ------------------------------------------------------------------ *)
(** ** JavaScript values and strings of the request handlers

    A string is modelled as the UTF-8 bytes of its text (a Stdlib
    [string]); [trim] and [slice] work on its code points and UTF-16 code
    units as JavaScript does, and the scans of the code only compare
    characters with ASCII ones, which a byte of a longer sequence never
    equals. Numbers read from JSON are
    modelled as integers: the code only prints them and tests their
    truthiness. *)

#[warnings="-register-all"]
Inductive jsval :=
| JUndef
| JNull
| JBool (b : bool)
| JNum (n : Z)
| JStr (s : string)
| JArr (l : list jsval)
| JObj (kv : list (string * jsval)).

(** [String(n)] for an integer. *)
Definition z_to_dec (z : Z) : string := DecimalString.NilZero.string_of_int (Z.to_int z).

(** A byte [10xxxxxx], which continues a UTF-8 sequence. *)
Definition is_cont (b : ascii) : bool :=
  let n := nat_of_ascii b in (128 <=? n) && (n <? 192).

(** The code points of a text, each as the bytes encoding it: a byte that
    does not continue a sequence starts a new code point. *)
Fixpoint chunks (l : list ascii) : list (list ascii) :=
  match l with
  | [] => []
  | b :: l' =>
      match chunks l' with
      | ch :: cs =>
          match ch with
          | c :: _ => if is_cont c then (b :: ch) :: cs else [b] :: ch :: cs
          | [] => [b] :: cs
          end
      | [] => [[b]]
      end
  end.

(** The UTF-16 code units of a code point: two for the four-byte
    sequences (the code points above U+FFFF), one for the others. *)
Definition units (c : list ascii) : nat :=
  match c with
  | b :: _ => if 240 <=? nat_of_ascii b then 2 else 1
  | [] => 0
  end.

(** [s.length]. *)
Definition utf16_length (s : string) : nat :=
  fold_right (fun c n => units c + n) 0 (chunks (list_ascii_of_string s)).

Definition byte_of (z : Z) : ascii := ascii_of_nat (Z.to_nat z).
Definition byte_val (b : ascii) : Z := Z.of_nat (nat_of_ascii b).

(** The high surrogate of a code point above U+FFFF given by its four
    UTF-8 bytes, as the three bytes of its generalized UTF-8 form: a
    string cut between the two halves of a pair keeps this lone half. *)
Definition high_surrogate (c : list ascii) : list ascii :=
  match c with
  | [b0; b1; b2; b3] =>
      let cp := Z.lor (Z.lor (Z.shiftl (Z.land (byte_val b0) 7) 18)
                             (Z.shiftl (Z.land (byte_val b1) 63) 12))
                      (Z.lor (Z.shiftl (Z.land (byte_val b2) 63) 6) (Z.land (byte_val b3) 63)) in
      let h := (55296 + Z.shiftr (cp - 65536) 10)%Z in
      [byte_of (Z.lor 224 (Z.shiftr h 12)); byte_of (Z.lor 128 (Z.land (Z.shiftr h 6) 63));
       byte_of (Z.lor 128 (Z.land h 63))]
  | _ => []
  end.

(** The first [n] UTF-16 code units of a list of code points. *)
Fixpoint take_units (n : nat) (cs : list (list ascii)) : list ascii :=
  match cs with
  | [] => []
  | c :: cs' =>
      if units c <=? n then c ++ take_units (n - units c) cs'
      else if Nat.eqb n 1 then high_surrogate c else []
  end.

(** [s.slice(0, n)]: the first [n] UTF-16 code units of [s]. *)
Definition slice0 (n : nat) (s : string) : string :=
  string_of_list_ascii (take_units n (chunks (list_ascii_of_string s))).

(** [arr.join(sep)]. *)
Fixpoint join (sep : string) (l : list string) : string :=
  match l with
  | [] => EmptyString
  | [s] => s
  | s :: l' => (s ++ sep ++ join sep l')%string
  end.

(** Property lookup on an object built by [JSON.parse]: the last binding of
    a duplicated key wins. *)
Definition assoc_last (k : string) (kv : list (string * jsval)) : jsval :=
  fold_left (fun acc '(k', v) => if String.eqb k k' then v else acc) kv JUndef.

(** [v.k]: a [TypeError] ([None]) on [null] and [undefined]. The keys the
    handlers read ([status], [custom_id], [items], [message], ...) are not
    properties of the built-in prototypes; an array or a string has the
    index ["0"]. *)
Definition prop (v : jsval) (k : string) : option jsval :=
  match v with
  | JUndef | JNull => None
  | JObj kv => Some (assoc_last k kv)
  | JArr l => Some (if String.eqb k "0" then hd JUndef l else JUndef)
  | JStr s =>
      Some (if String.eqb k "0" then
              match s with EmptyString => JUndef | String c _ => JStr (String c EmptyString) end
            else JUndef)
  | _ => Some JUndef
  end.

(** [v?.k]. *)
Definition ochain (v : jsval) (k : string) : jsval :=
  match prop v k with Some w => w | None => JUndef end.

(** [Boolean(v)]. *)
Definition truthy (v : jsval) : bool :=
  match v with
  | JUndef | JNull => false
  | JBool b => b
  | JNum n => negb (Z.eqb n 0)
  | JStr s => negb (String.eqb s EmptyString)
  | JArr _ | JObj _ => true
  end.

(** [v === s] for a string [s]. *)
Definition is_str (v : jsval) (s : string) : bool :=
  match v with JStr t => String.eqb t s | _ => false end.

(** [String(v)] / [v.toString()]; an array joins its elements with
    commas, [null] and [undefined] elements printing as empty. *)
Fixpoint js_to_string (v : jsval) : string :=
  match v with
  | JUndef => "undefined"
  | JNull => "null"
  | JBool true => "true"
  | JBool false => "false"
  | JNum n => z_to_dec n
  | JStr s => s
  | JArr l => join "," (map (fun e => match e with
                                     | JUndef | JNull => EmptyString
                                     | _ => js_to_string e end) l)
  | JObj _ => "[object Object]"
  end.

(** The code points [String.prototype.trim] removes: WhiteSpace (TAB, VT,
    FF, ZWNBSP U+FEFF and the space separators SP, NBSP U+00A0, U+1680,
    U+2000 to U+200A, U+202F, U+205F, U+3000) and LineTerminator (LF, CR,
    LS U+2028, PS U+2029). *)
Definition js_ws_code_points : list Z :=
  [9; 10; 11; 12; 13; 32; 160; 5760; 8192; 8193; 8194; 8195; 8196; 8197; 8198; 8199;
   8200; 8201; 8202; 8232; 8233; 8239; 8287; 12288; 65279]%Z.

(** The UTF-8 bytes of a code point below U+10000. *)
Definition utf8_bmp (cp : Z) : list ascii :=
  if (cp <? 128)%Z then [byte_of cp]
  else if (cp <? 2048)%Z then
    [byte_of (Z.lor 192 (Z.shiftr cp 6)); byte_of (Z.lor 128 (Z.land cp 63))]
  else [byte_of (Z.lor 224 (Z.shiftr cp 12)); byte_of (Z.lor 128 (Z.land (Z.shiftr cp 6) 63));
        byte_of (Z.lor 128 (Z.land cp 63))].

Definition is_ws (c : list ascii) : bool :=
  existsb (fun cp => String.eqb (string_of_list_ascii (utf8_bmp cp)) (string_of_list_ascii c))
    js_ws_code_points.

Fixpoint drop_ws (cs : list (list ascii)) : list (list ascii) :=
  match cs with
  | c :: cs' => if is_ws c then drop_ws cs' else cs
  | [] => []
  end.

(** [s.trim()]: the leading and trailing white-space code points removed. *)
Definition trim (s : string) : string :=
  string_of_list_ascii
    (concat (rev (drop_ws (rev (drop_ws (chunks (list_ascii_of_string s))))))).


(** The shape of the code points [chunks] cuts: a byte followed by
    continuation bytes, and every one but the first starting with a byte
    that does not continue a sequence. *)
Definition chunk_ok (c : list ascii) : Prop :=
  match c with b :: t => forallb is_cont t = true | [] => False end.
Definition starts_new (c : list ascii) : Prop :=
  match c with b :: _ => is_cont b = false | [] => False end.
Definition wf_chunks (cs : list (list ascii)) : Prop :=
  Forall chunk_ok cs /\ Forall starts_new (tail cs).

(** [s.padStart(n, "0")]. *)
Definition padStart0 (n : nat) (s : string) : string :=
  (string_of_list_ascii (repeat "0"%char (n - String.length s)) ++ s)%string.

Definition cons_char (c : ascii) (l : list string) : list string :=
  match l with
  | s :: l' => String c s :: l'
  | [] => [String c EmptyString]
  end.

(** [s.split(/\r?\n/)]. *)
Fixpoint split_crlf (s : string) : list string :=
  match s with
  | EmptyString => [EmptyString]
  | String c s' =>
      if Ascii.eqb c "010"%char then EmptyString :: split_crlf s'
      else if Ascii.eqb c "013"%char then
        match s' with
        | String c2 s'' =>
            if Ascii.eqb c2 "010"%char then EmptyString :: split_crlf s''
            else cons_char c (split_crlf s')
        | EmptyString => cons_char c (split_crlf s')
        end
      else cons_char c (split_crlf s')
  end.

(** [text.split(/\r?\n/).filter(Boolean)]. *)
Definition split_lines (text : string) : list string :=
  List.filter (fun l => negb (String.eqb l EmptyString)) (split_crlf text).

(* ------------------------------------------------------------------ *)
(** ** Requests to the upstream API and the handlers' monad

    [openaiFetch(path, init)] is a request [Req method path body] whose
    response the environment [respond] gives; the monad [M] logs the
    requests in order and carries exceptions (a thrown [Error] with its
    [message]). *)

Inductive request := Req (method path body : string).

Record http_response := { r_ok : bool; r_status : Z; r_text : string }.

Inductive res (A : Type) := Ok (a : A) | Exn (msg : string).
Arguments Ok {A} a.
Arguments Exn {A} msg.

Definition M (A : Type) : Type := list request -> list request * res A.

#[global] Instance M_ret : MRet M := fun A a log => (log, Ok a).
#[global] Instance M_bind : MBind M := fun A B f m log =>
  match m log with
  | (log', Ok a) => f a log'
  | (log', Exn e) => (log', Exn e)
  end.

Definition throw {A} (msg : string) : M A := fun log => (log, Exn msg).

(** [try { m } catch (e) { h(e.message) }]. *)
Definition try_catch {A} (m : M A) (h : string -> M A) : M A := fun log =>
  match m log with
  | (log', Ok a) => (log', Ok a)
  | (log', Exn e) => h e log'
  end.

Definition of_option {A} (msg : string) (o : option A) : M A :=
  match o with Some a => mret a | None => throw msg end.

(** What a handler returns: [NextResponse.json(body, {status})] or
    [new NextResponse(buf, {status})] with a PNG buffer. *)
Inductive reply :=
| JsonReply (status : Z) (body : jsval)
| PngReply (status : Z) (buf : list Z).

Definition error_reply (status : Z) (msg : string) : reply :=
  JsonReply status (JObj [("error"%string, JStr msg)]).

(** The upstream diagnostic of a failed response, as the code formats it. *)
Definition upstream_error (what : string) (r : http_response) : string :=
  (what ++ " (" ++ z_to_dec (r_status r) ++ "): " ++ slice0 200 (r_text r))%string.

(** The result of [tryGetBatchResultImageBase64]:
    [{done: false, status}] or [{done: true, b64}]. *)
Inductive batch_result := NotDone (status : jsval) | Done (b64 : string).

Definition missing_output_msg : string := "Batch completed but output_file_id is missing.".
Definition no_result_msg : string := "Batch completed but no matching image result was found.".

Section Protocol.
(** [JSON.parse] ([None]: it throws a [SyntaxError]). *)
Variable json_parse : string -> option jsval.
(** The upstream API. *)
Variable respond : request -> http_response.

Definition openaiFetch (rq : request) : M http_response :=
  fun log => (log ++ [rq], Ok (respond rq)).

(** [await r.json()]. *)
Definition res_json (r : http_response) : M jsval :=
  of_option "Unexpected token in JSON" (json_parse (r_text r)).

(** [v.k], throwing on [null] and [undefined]. *)
Definition get (v : jsval) (k : string) : M jsval :=
  of_option ("Cannot read properties of " ++ js_to_string v ++ " (reading '" ++ k ++ "')")%string
    (prop v k).

(** [const b64 = obj?.response?.body?.data?.[0]?.b64_json;]
    [if (typeof b64 === "string" && b64.length > 0)]. *)
Definition b64_payload (obj : jsval) : option string :=
  match ochain (ochain (ochain (ochain (ochain obj "response") "body") "data") "0") "b64_json" with
  | JStr b => if (0 <? String.length b)%nat then Some b else None
  | _ => None
  end.

(** One iteration of the [for (const line of lines)] loop: [Some b64]
    returns, [None] goes on to the next line (a parse error or a
    [TypeError] is caught and ignored, [continue] on another id, or no
    payload). *)
Definition record_payload (customId line : string) : option string :=
  match json_parse line with
  | None => None
  | Some obj =>
      match prop obj "custom_id" with
      | None => None
      | Some cid => if is_str cid customId then b64_payload obj else None
      end
  end.

Fixpoint scan_lines (customId : string) (lines : list string) : option string :=
  match lines with
  | [] => None
  | line :: rest =>
      match record_payload customId line with
      | Some b64 => Some b64
      | None => scan_lines customId rest
      end
  end.

Definition tryGetBatchResultImageBase64 (batchId customId : string) : M batch_result :=
  stRes ← openaiFetch (Req "GET" ("/v1/batches/" ++ batchId) "");
  if negb (r_ok stRes) then throw (upstream_error "OpenAI batch status failed" stRes)
  else
    st ← res_json stRes;
    stv ← get st "status";
    if negb (is_str stv "completed") then mret (NotDone stv)
    else
      outId ← get st "output_file_id";
      if negb (truthy outId) then throw missing_output_msg
      else
        outRes ← openaiFetch (Req "GET" ("/v1/files/" ++ js_to_string outId ++ "/content") "");
        if negb (r_ok outRes) then throw (upstream_error "OpenAI batch output fetch failed" outRes)
        else
          match scan_lines customId (split_lines (r_text outRes)) with
          | Some b64 => mret (Done b64)
          | None => throw no_result_msg
          end.

(** Modelled from the spec: the record the result fetch is described to
    return, the payload of the first record whose correlation id matches
    ([None] when that record has no payload or no record matches). *)
Fixpoint spec_first_match (customId : string) (lines : list string) : option string :=
  match lines with
  | [] => None
  | line :: rest =>
      match json_parse line with
      | Some obj =>
          match prop obj "custom_id" with
          | Some cid => if is_str cid customId then b64_payload obj
                        else spec_first_match customId rest
          | None => spec_first_match customId rest
          end
      | None => spec_first_match customId rest
      end
  end.

End Protocol.

(* ------------------------------------------------------------------ *)
(** ** The request handlers *)

Definition OUTPUT_WIDTH : nat := 370.
Definition OUTPUT_HEIGHT : nat := 320.

(** [setTimeout(res, ms)] waits [ms] milliseconds when [1 <= ms <= 2^31-1]
    and 1 millisecond otherwise (Node's timers). *)
Definition timer_delay (ms : Z) : Z :=
  if (1 <=? ms)%Z && (ms <=? 2147483647)%Z then ms else 1%Z.

Definition nl : string := String "010"%char EmptyString.

(** [NextResponse.json({ status: "pending", batch_id, custom_id }, { status: 202 })]. *)
Definition pending_reply (batch_id : jsval) (custom_id : string) : reply :=
  JsonReply 202 (JObj [("status"%string, JStr "pending"); ("batch_id"%string, batch_id);
                       ("custom_id"%string, JStr custom_id)]).

(** A task of [POST /api/batch-csv] after normalisation. *)
Record item := mkItem { message : string; keyword : string }.

(** [(v ?? "").toString()]. *)
Definition nullish_to_string (v : jsval) : string :=
  match v with JUndef | JNull => EmptyString | _ => js_to_string v end.

(** [({ message: (x?.message ?? "").toString().trim(), keyword: ... })]. *)
Definition to_item (x : jsval) : item :=
  mkItem (trim (nullish_to_string (ochain x "message")))
         (trim (nullish_to_string (ochain x "keyword"))).

(** [csv-${ts}-${String(i + 1).padStart(4, "0")}]. *)
Definition csv_custom_id (ts : Z) (i : nat) : string :=
  ("csv-" ++ z_to_dec ts ++ "-" ++ padStart0 4 (z_to_dec (Z.of_nat (i + 1))))%string.

(** The bounded poll loop of [GET /api/generate]:
    [while (Date.now() - started < T) { r = await tryGet...; if (r.done)
    { b64 = r.b64; break; } await sleep(I); }]. [poll k] is the [k]-th
    call of [tryGetBatchResultImageBase64]; the status queries take no
    time and a sleep takes [timer_delay I], so [elapsed] is
    [Date.now() - started]. The loop is run with a fuel; [None] is the
    fuel running out. The result is [b64] (if set), the number of
    status queries and the final elapsed time. *)
Section Poll.
Variables T I : Z.
Variable poll : nat -> M batch_result.

Fixpoint poll_loop (fuel k : nat) (elapsed : Z) : M (option (option string * nat * Z)) :=
  match fuel with
  | O => mret None
  | S f =>
      if (elapsed <? T)%Z then
        r ← poll k;
        match r with
        | Done b64 => mret (Some (Some b64, S k, elapsed))
        | NotDone _ => poll_loop f (S k) (elapsed + timer_delay I)
        end
      else mret (Some (None, k, elapsed))
  end.

End Poll.

Section Handlers.
Variable json_parse : string -> option jsval.
Variable json_stringify : jsval -> string.
Variable respond : request -> http_response.
(** [Buffer.from(s, "base64")], [buf.toString("base64")], [PNG.sync.read]
    ([None]: it throws on a buffer that is not a PNG) and [PNG.sync.write]. *)
Variable buffer_from_b64 : string -> list Z.
Variable buffer_to_b64 : list Z -> string.
Variable png_read : list Z -> option png.
Variable png_write : png -> list Z.
(** The environment's [OPENAI_IMAGE_MODEL] and [OPENAI_IMAGE_QUALITY], and
    [buildPrompt] of [POST /api/batch-csv], whose text is not modelled. *)
Variables IMAGE_MODEL IMAGE_QUALITY : string.
Variable buildPrompt : string -> string -> string.

Definition makeInteriorOpaquePngBase64 (b64 : string) : option string :=
  match png_read (buffer_from_b64 b64) with
  | Some img => Some (buffer_to_b64 (png_write (makeInteriorOpaque img)))
  | None => None
  end.

(** The two post-processing stages shared by [GET /api/batch] and
    [GET /api/generate]: each [try] falls back to its input. *)
Definition postProcess (b64 : string) : list Z :=
  let b64Fixed := match makeInteriorOpaquePngBase64 b64 with
                  | Some s => s | None => b64 end in
  let pngBuf := buffer_from_b64 b64Fixed in
  match png_read pngBuf with
  | Some srcPng => png_write (resizeContainBilinear srcPng OUTPUT_WIDTH OUTPUT_HEIGHT)
  | None => pngBuf
  end.

(** [GET /api/batch]; a missing query parameter is [""]. *)
Definition batch_GET (OPENAI_API_KEY batchId customId : string) : M reply :=
  try_catch
    (if String.eqb OPENAI_API_KEY "" then
       mret (error_reply 500 "OPENAI_API_KEY is not set on the server.")
     else if String.eqb batchId "" || String.eqb customId "" then
       mret (error_reply 400 "batch_id and custom_id are required.")
     else
       r ← tryGetBatchResultImageBase64 json_parse respond batchId customId;
       match r with
       | NotDone _ => mret (pending_reply (JStr batchId) customId)
       | Done b64 => mret (PngReply 200 (postProcess b64))
       end)
    (fun _ => mret (error_reply 500 "Unexpected server error in /api/batch")).

Definition createSingleImageBatch (body : jsval) (customId : string) : M (jsval * string) :=
  let jsonlLine :=
    (json_stringify (JObj [("custom_id"%string, JStr customId); ("method"%string, JStr "POST");
                           ("url"%string, JStr "/v1/images/generations"); ("body"%string, body)])
     ++ nl)%string in
  upRes ← openaiFetch respond (Req "POST" "/v1/files" jsonlLine);
  if negb (r_ok upRes) then throw (upstream_error "OpenAI file upload failed" upRes)
  else
    up ← res_json json_parse upRes;
    upId ← get up "id";
    batchRes ← openaiFetch respond
      (Req "POST" "/v1/batches"
         (json_stringify (JObj [("input_file_id"%string, upId);
                                ("endpoint"%string, JStr "/v1/images/generations");
                                ("completion_window"%string, JStr "24h")])));
    if negb (r_ok batchRes) then throw (upstream_error "OpenAI batch create failed" batchRes)
    else
      batch ← res_json json_parse batchRes;
      batchId ← get batch "id";
      mret (batchId, customId).

(** [GET /api/generate] in batch mode ([OPENAI_USE_BATCH], on by default),
    from the request body it builds; [customId] is the [gen-...] id,
    [T] and [I] are [BATCH_POLL_TIMEOUT_MS] and [BATCH_POLL_INTERVAL_MS]. *)
Definition generate_GET (OPENAI_API_KEY : string) (requestBody : jsval) (customId : string)
    (T I : Z) (poll : nat -> M batch_result) : M reply :=
  try_catch
    (if String.eqb OPENAI_API_KEY "" then
       mret (error_reply 500 "OPENAI_API_KEY is not set on the server.")
     else
       '(batch_id, custom_id) ← createSingleImageBatch requestBody customId;
       o ← poll_loop T I poll (S (Z.to_nat T)) 0 0;
       let b64 := match o with Some (Some b, _, _) => b | _ => EmptyString end in
       if String.eqb b64 "" then mret (pending_reply batch_id custom_id)
       else mret (PngReply 200 (postProcess b64)))
    (fun _ => mret (error_reply 500 "Unexpected server error in /api/generate")).

(** The JSONL request line of [POST /api/batch-csv] for one task. *)
Definition request_line (custom_id : string) (it : item) : jsval :=
  JObj [("custom_id"%string, JStr custom_id); ("method"%string, JStr "POST");
        ("url"%string, JStr "/v1/images/generations");
        ("body"%string, JObj [("model"%string, JStr IMAGE_MODEL);
                              ("prompt"%string, JStr (buildPrompt (message it) (keyword it)));
                              ("size"%string, JStr "1024x1024"); ("n"%string, JNum 1);
                              ("background"%string, JStr "transparent");
                              ("output_format"%string, JStr "png");
                              ("quality"%string, JStr IMAGE_QUALITY)])].

Definition out_item (custom_id : string) (it : item) : jsval :=
  JObj [("custom_id"%string, JStr custom_id); ("message"%string, JStr (message it));
        ("keyword"%string, JStr (keyword it))].

(** [for (let i = 0; i < items.length; i++) { ...; lines.push(...);
    outItems.push(...); }]. *)
Definition build_lines (ts : Z) (items : list item) : list string * list jsval :=
  fold_left (fun '(lines, outItems) i =>
               let it := nth i items (mkItem "" "") in
               let custom_id := csv_custom_id ts i in
               (lines ++ [json_stringify (request_line custom_id it)],
                outItems ++ [out_item custom_id it]))
    (seq 0 (length items)) ([], []).

(** [POST /api/batch-csv]: [payloadFile] is the text of the form field
    [payload] when it is a [File], [ts] is [Date.now()]. *)
Definition batch_csv_POST (OPENAI_API_KEY : string) (payloadFile : option string) (ts : Z) :
    M reply :=
  try_catch
    (if String.eqb OPENAI_API_KEY "" then
       mret (error_reply 500 "OPENAI_API_KEY is not set on the server.")
     else
       match payloadFile with
       | None => mret (error_reply 400 "Missing payload (multipart form field 'payload').")
       | Some payloadText =>
           payload ← of_option "Unexpected token in JSON" (json_parse payloadText);
           payloadItems ← get payload "items";
           let itemsIn := match payloadItems with JArr l => l | _ => [] end in
           let items := List.filter (fun x => (0 <? String.length (message x))%nat)
                          (map to_item itemsIn) in
           if Nat.eqb (length items) 0 then mret (error_reply 400 "No valid items in payload.")
           else
             let '(lines, outItems) := build_lines ts items in
             let jsonl := (join nl lines ++ nl)%string in
             upRes ← openaiFetch respond (Req "POST" "/v1/files" jsonl);
             if negb (r_ok upRes) then
               mret (error_reply 502 (upstream_error "OpenAI file upload failed" upRes))
             else
               up ← res_json json_parse upRes;
               upId ← get up "id";
               batchRes ← openaiFetch respond
                 (Req "POST" "/v1/batches"
                    (json_stringify (JObj [("input_file_id"%string, upId);
                                           ("endpoint"%string, JStr "/v1/images/generations");
                                           ("completion_window"%string, JStr "24h")])));
               if negb (r_ok batchRes) then
                 mret (error_reply 502 (upstream_error "OpenAI batch create failed" batchRes))
               else
                 batch ← res_json json_parse batchRes;
                 batchId ← get batch "id";
                 mret (JsonReply 200 (JObj [("batch_id"%string, batchId);
                                            ("items"%string, JArr outItems)]))
       end)
    (fun msg => mret (error_reply 500 (if String.eqb msg "" then "Unknown error" else msg))).

End Handlers.

(** [GET /api/generate] with [OPENAI_USE_BATCH=0]: one direct call of
    [/v1/images/generations]. *)
Section Direct.
Variable json_parse : string -> option jsval.
Variable json_stringify : jsval -> string.
Variable respond : request -> http_response.
Variable buffer_from_b64 : string -> list Z.
Variable buffer_to_b64 : list Z -> string.
Variable png_read : list Z -> option png.
Variable png_write : png -> list Z.
(** [Buffer.from(v, "base64")] for a [v] that is not a string (an array
    gives its bytes); [None]: it throws. *)
Variable buffer_from_value : jsval -> option (list Z).

(** The two post-processing stages run on a truthy [b64_json] that is not
    a string: the first [try] falls back to [v], and the [Buffer.from] that
    follows is outside any inner [try] ([None]: it throws). *)
Definition postProcess_value (v : jsval) : option (list Z) :=
  let b64Fixed :=
    match buffer_from_value v with
    | Some buf =>
        match png_read buf with
        | Some img => Some (buffer_to_b64 (png_write (makeInteriorOpaque img)))
        | None => None
        end
    | None => None
    end in
  let pngBuf := match b64Fixed with
                | Some s => Some (buffer_from_b64 s)
                | None => buffer_from_value v
                end in
  match pngBuf with
  | Some pb =>
      Some (match png_read pb with
            | Some srcPng => png_write (resizeContainBilinear srcPng OUTPUT_WIDTH OUTPUT_HEIGHT)
            | None => pb
            end)
  | None => None
  end.

Definition generate_direct (OPENAI_API_KEY : string) (requestBody : jsval) : M reply :=
  try_catch
    (if String.eqb OPENAI_API_KEY "" then
       mret (error_reply 500 "OPENAI_API_KEY is not set on the server.")
     else
       apiRes ← openaiFetch respond
         (Req "POST" "/v1/images/generations" (json_stringify requestBody));
       if negb (r_ok apiRes) then
         mret (error_reply 500 ("OpenAI error (status " ++ z_to_dec (r_status apiRes) ++ "): " ++
                                slice0 160 (r_text apiRes)))
       else
         data ← res_json json_parse apiRes;
         d ← get data "data";
         let b64 := ochain (ochain d "0") "b64_json" in
         if negb (truthy b64) then mret (error_reply 500 "No image data returned from API")
         else
           match b64 with
           | JStr s => mret (PngReply 200 (postProcess buffer_from_b64 buffer_to_b64
                                             png_read png_write s))
           | v => match postProcess_value v with
                  | Some buf => mret (PngReply 200 buf)
                  | None => throw "The first argument must be of type string"
                  end
           end)
    (fun _ => mret (error_reply 500 "Unexpected server error in /api/generate")).

End Direct.

(* ------------------------------------------------------------------ *)
(** ** The page's CSV reader and upload ([parseCsv], [handleCsvUpload]) *)

Definition dq : ascii := "034"%char.

(** [pushRow()]: a row made of one blank field is dropped. *)
Definition pushRow (rows : list (list string)) (cur : list string) : list (list string) :=
  match cur with
  | [f] => if String.eqb (trim f) "" then rows else rows ++ [cur]
  | _ => rows ++ [cur]
  end.

(** The [for] loop over the characters of [text] in [parseCsv], from the
    state [rows], [cur], [field], [inQuotes]; a doubled quote inside quotes
    reads one quote and skips the next character ([i++]). *)
Fixpoint csv_scan (text : string) (rows : list (list string)) (cur : list string)
    (field : string) (inQuotes : bool) : list (list string) * list string * string :=
  match text with
  | EmptyString => (rows, cur, field)
  | String ch rest =>
      if inQuotes then
        if Ascii.eqb ch dq then
          match rest with
          | String next rest' =>
              if Ascii.eqb next dq then csv_scan rest' rows cur (field ++ String dq EmptyString) true
              else csv_scan rest rows cur field false
          | EmptyString => csv_scan rest rows cur field false
          end
        else csv_scan rest rows cur (field ++ String ch EmptyString) true
      else if Ascii.eqb ch dq then csv_scan rest rows cur field true
      else if Ascii.eqb ch "," then csv_scan rest rows (cur ++ [field]) EmptyString false
      else if Ascii.eqb ch "010" then csv_scan rest (pushRow rows (cur ++ [field])) [] EmptyString false
      else if Ascii.eqb ch "013" then csv_scan rest rows cur field false
      else csv_scan rest rows cur (field ++ String ch EmptyString) false
  end.

(** The rows of [parseCsv]: the loop, then [pushField(); if (cur.length) pushRow();]. *)
Definition csv_rows (text : string) : list (list string) :=
  let '(rows, cur, field) := csv_scan text [] [] EmptyString false in
  let cur := cur ++ [field] in
  if Nat.eqb (length cur) 0 then rows else pushRow rows cur.

(** ASCII letters folded to lower case, other bytes kept. *)
Definition fold_ascii_char (c : ascii) : ascii :=
  let n := nat_of_ascii c in
  if (65 <=? n) && (n <=? 90) then ascii_of_nat (n + 32) else c.

Fixpoint fold_ascii (s : string) : string :=
  match s with
  | EmptyString => EmptyString
  | String c s' => String (fold_ascii_char c) (fold_ascii s')
  end.

(** [s.toLowerCase()] applies Unicode's full lower-case mapping (where,
    for instance, the Kelvin sign U+212A becomes [k]); the reader is
    modelled for any function [toLowerCase], so what is proved of it holds
    for that mapping in particular. *)
Section CsvReader.
Variable toLowerCase : string -> string.

(** [const norm = (s) => s.trim().toLowerCase();]. *)
Definition norm (s : string) : string := toLowerCase (trim s).

(** [["message", "text", "msg"].includes(norm(c))]. *)
Definition is_msg_col (c : string) : bool :=
  existsb (fun n => String.eqb n (norm c)) ["message"; "text"; "msg"]%string.

(** [["keyword", "theme", "k"].includes(norm(c))]. *)
Definition is_key_col (c : string) : bool :=
  existsb (fun n => String.eqb n (norm c)) ["keyword"; "theme"; "k"]%string.

(** [arr.findIndex(p)] ([-1] when no element satisfies [p]). *)
Fixpoint findIndex_from {A} (p : A -> bool) (l : list A) (i : Z) : Z :=
  match l with
  | [] => (-1)%Z
  | x :: l' => if p x then i else findIndex_from p l' (i + 1)
  end.

Definition findIndex {A} (p : A -> bool) (l : list A) : Z := findIndex_from p l 0.

(** [parseCsv(text)]: the header is [rows[0] || []]; a missing cell
    ([row[i] ?? ""]) is empty. *)
Definition parseCsv (text : string) : list item :=
  let rows := csv_rows text in
  let header := match rows with h :: _ => h | [] => [] end in
  let hasHeader := existsb is_msg_col header in
  let '(msgIdx, keyIdx, start) :=
    if hasHeader then
      let msgIdx := findIndex is_msg_col header in
      let keyIdx := findIndex is_key_col header in
      ((if (msgIdx <? 0)%Z then 0%Z else msgIdx), (if (keyIdx <? 0)%Z then 1%Z else keyIdx), 1)
    else (0%Z, 1%Z, 0) in
  fold_left (fun out row =>
               let m := trim (nth (Z.to_nat msgIdx) row EmptyString) in
               let k := trim (nth (Z.to_nat keyIdx) row EmptyString) in
               if String.eqb m "" then out else out ++ [mkItem m k])
    (skipn start rows) [].

(** [rows.map((r) => ({ message: r.message,
    keyword: (r.keyword || keyword || "").trim() }))], [pageKeyword] being
    the page's keyword field. *)
Definition upload_items (pageKeyword : string) (rows : list item) : list item :=
  map (fun r => mkItem (message r)
                  (trim (if negb (String.eqb (keyword r) "") then keyword r
                         else if negb (String.eqb pageKeyword "") then pageKeyword
                         else ""))) rows.

(** [{ message, keyword }] as a JSON value. *)
Definition item_json (it : item) : jsval :=
  JObj [("message"%string, JStr (message it)); ("keyword"%string, JStr (keyword it))].

(** The [payload] value [handleCsvUpload] serialises and posts to
    [/api/batch-csv]; [None] when [parseCsv] finds no row, in which case
    nothing is sent. *)
Definition handleCsvUpload_payload (pageKeyword csvText : string) : option jsval :=
  let rows := parseCsv csvText in
  if Nat.eqb (length rows) 0 then None
  else Some (JObj [("items"%string, JArr (map item_json (upload_items pageKeyword rows)))]).

End CsvReader.

(** A CSV writer: every field quoted, quotes doubled, rows ended by LF. *)
Fixpoint csv_escape (f : string) : string :=
  match f with
  | EmptyString => EmptyString
  | String c f' =>
      if Ascii.eqb c dq then String dq (String dq (csv_escape f'))
      else String c (csv_escape f')
  end.

Definition csv_quote (f : string) : string := String dq (csv_escape f ++ String dq EmptyString).

Definition csv_line (row : list string) : string := (join "," (map csv_quote row) ++ nl)%string.

Definition csv_text (rows : list (list string)) : string :=
  fold_right (fun r acc => csv_line r ++ acc)%string EmptyString rows.

(** A two-column row [message,keyword]. *)
Definition item_row (it : item) : list string := [message it; keyword it].

(** One iteration of the item loop of [parseCsv] for the column indices
    [mi] and [ki]. *)
Definition row_item (mi ki : nat) (row : list string) : list item :=
  let m := trim (nth mi row EmptyString) in
  let k := trim (nth ki row EmptyString) in
  if String.eqb m "" then [] else [mkItem m k].

(** Items with their fields trimmed, those with a blank message left out. *)
Definition trim_items (items : list item) : list item :=
  map (fun it => mkItem (trim (message it)) (trim (keyword it)))
    (List.filter (fun it => negb (String.eqb (trim (message it)) "")) items).

(** A text with each LF turned into CRLF. *)
Fixpoint crlf (s : string) : string :=
  match s with
  | EmptyString => EmptyString
  | String c s' => if Ascii.eqb c "010" then String "013" (String "010" (crlf s'))
                   else String c (crlf s')
  end.

(* ------------------------------------------------------------------ *)
(** ** The page's status line after a failed generation and its batch download

    [generate_failure_status] is the status [handleGenerate] shows for a
    reply of [/api/generate] that is neither [202] nor ok, from its status
    and text. *)

Definition generate_failure_status (json_parse : string -> option jsval) (status : Z)
    (raw : string) : string :=
  let msg := ("生成に失敗しました (status " ++ z_to_dec status ++ ")")%string in
  if String.eqb raw "" then msg
  else
    match json_parse raw with
    | Some body =>
        match (if truthy body then ochain body "error" else JUndef) with
        | JStr e => ("エラー: " ++ e)%string
        | _ => (msg ++ ": " ++ slice0 80 raw)%string
        end
    | None => (msg ++ ": " ++ slice0 80 raw)%string
    end.

(** [`${String(idx + 1).padStart(3, "0")}.png`]. *)
Definition download_name (idx : nat) : string :=
  (padStart0 3 (z_to_dec (Z.of_nat (idx + 1))) ++ ".png")%string.

Definition DL_POLL_INTERVAL_MS : Z := 2000.
Definition DL_POLL_TIMEOUT_MS : Z := 30 * 60 * 1000.

(** The loop of [handleBatchDownloadAll] over [batchInfo.items], whose
    correlation ids are [ids]. [fetch_batch k batch_id custom_id] is the
    [k]-th request [/api/batch?batch_id=...&custom_id=...] of the loop
    ([None]: the fetch, or [rr.blob()] of an ok reply, rejects, which the
    [catch] turns into the generic error); the body of an ok reply is the
    downloaded blob. Requests take no time and a sleep takes
    [POLL_INTERVAL_MS], so [elapsed] is [Date.now() - start]. The loop is
    run with a fuel ([None]: it ran out); it ends with the final
    [batchStatus] and the downloads made, (file name, content) in order. *)
Section DownloadAll.
Variable fetch_batch : nat -> string -> string -> option http_response.
Variable batch_id : string.
Variable ids : list string.

Fixpoint download_loop (fuel k idx : nat) (elapsed : Z) (dl : list (string * string)) :
    option (string * list (string * string)) :=
  match fuel with
  | O => None
  | S f =>
      if (idx <? length ids)%nat then
        if (DL_POLL_TIMEOUT_MS <? elapsed)%Z then
          Some ("タイムアウト: Batch が完了していない可能性があります"%string, dl)
        else
          match fetch_batch k batch_id (nth idx ids EmptyString) with
          | None => Some ("エラーが発生しました"%string, dl)
          | Some rr =>
              if Z.eqb (r_status rr) 202 then
                download_loop f (S k) idx (elapsed + DL_POLL_INTERVAL_MS) dl
              else if negb (r_ok rr) then
                Some (("エラー: 取得に失敗しました（" ++ z_to_dec (Z.of_nat (idx + 1)) ++
                       "件目 / status " ++ z_to_dec (r_status rr) ++ "）")%string, dl)
              else download_loop f (S k) (S idx) elapsed (dl ++ [(download_name idx, r_text rr)])
          end
      else Some ("全部ダウンロード完了"%string, dl)
  end.

Definition handleBatchDownloadAll (fuel : nat) : option (string * list (string * string)) :=
  download_loop fuel 0 0 0 [].

End DownloadAll.

Definition GEN_POLL_INTERVAL_MS : Z := 2000.
Definition GEN_POLL_TIMEOUT_MS : Z := 5 * 60 * 1000.

(** [handleGenerate]: [fetch_generate] is the answer of
    [/api/generate?message=...&keyword=...] and [fetch_poll k batch_id
    custom_id] the [k]-th request [/api/batch?batch_id=...&custom_id=...]
    ([None]: the fetch, or the read of an ok body, rejects, which the
    [catch] turns into the generic error). Requests take no time and a
    sleep takes [POLL_INTERVAL_MS]. The result is the final status line and
    the image shown (the body of the ok answer), or [None] when the fuel of
    the poll loop runs out. *)
Section PageGenerate.
Variable json_parse : string -> option jsval.
Variable fetch_generate : option http_response.
Variable fetch_poll : nat -> string -> string -> option http_response.

Fixpoint page_poll_loop (fuel k : nat) (elapsed : Z) (batch_id custom_id : string) :
    option (string * option string) :=
  match fuel with
  | O => None
  | S f =>
      if (elapsed <? GEN_POLL_TIMEOUT_MS)%Z then
        match fetch_poll k batch_id custom_id with
        | None => Some ("エラーが発生しました"%string, None)
        | Some rr =>
            if Z.eqb (r_status rr) 202 then
              page_poll_loop f (S k) (elapsed + GEN_POLL_INTERVAL_MS) batch_id custom_id
            else if negb (r_ok rr) then
              Some (("エラー: Batch 取得に失敗しました (status " ++ z_to_dec (r_status rr) ++ ")")%string,
                    None)
            else Some ("生成完了"%string, Some (r_text rr))
        end
      else Some ("Batch が混雑中です。しばらく待ってから再度お試しください"%string, None)
  end.

Definition handleGenerate (fuel : nat) : option (string * option string) :=
  match fetch_generate with
  | None => Some ("エラーが発生しました"%string, None)
  | Some res =>
      if Z.eqb (r_status res) 202 then
        let body := match json_parse (r_text res) with Some v => v | None => JNull end in
        let batch_id := ochain body "batch_id" in
        let custom_id := ochain body "custom_id" in
        if negb (truthy batch_id) || negb (truthy custom_id) then
          Some ("エラー: Batch 受付に失敗しました"%string, None)
        else page_poll_loop fuel 0 0 (js_to_string batch_id) (js_to_string custom_id)
      else if negb (r_ok res) then
        Some (generate_failure_status json_parse (r_status res) (r_text res), None)
      else Some ("生成完了"%string, Some (r_text res))
  end.

End PageGenerate.

(** Monadic runs that end in a reply satisfying [P] or in an exception,
    and runs that always end in such a reply. *)
Definition ok_or_exn (P : reply -> Prop) (m : M reply) : Prop :=
  forall log, match snd (m log) with Ok r => P r | Exn _ => True end.

Definition replies_ok (P : reply -> Prop) (m : M reply) : Prop :=
  forall log, exists log' r, m log = (log', Ok r) /\ P r.

(** The replies of [GET /api/generate]: the pending [202], a PNG [200] or a
    [500] error. *)
Definition generate_reply_form (rep : reply) : Prop :=
  (exists b c, rep = pending_reply b c) \/ (exists buf, rep = PngReply 200 buf) \/
  (exists msg, rep = error_reply 500 msg).

(* ------------------------------------------------------------------ *)
(** ** Concrete upstream answers used to exercise the handlers *)

Definition quote (s : string) : string := String "034"%char (s ++ String "034"%char EmptyString).

(** Compact JSON text of a value, as [JSON.stringify] prints values whose
    strings need no escaping. *)
Fixpoint to_json (v : jsval) : string :=
  match v with
  | JUndef => "null"
  | JNull => "null"
  | JBool true => "true"
  | JBool false => "false"
  | JNum n => z_to_dec n
  | JStr s => quote s
  | JArr l => ("[" ++ join "," (map to_json l) ++ "]")%string
  | JObj kv => ("{" ++ join "," (map (fun '(k, v) => quote k ++ ":" ++ to_json v)%string kv)
                ++ "}")%string
  end.

(** [JSON.parse] on the texts of the values [vs]. *)
Definition parse_of (vs : list jsval) (s : string) : option jsval :=
  find (fun v => String.eqb (to_json v) s) vs.

Definition demo_record (custom_id b64 : string) : jsval :=
  JObj [("custom_id"%string, JStr custom_id);
        ("response"%string, JObj [("status_code"%string, JNum 200);
          ("body"%string, JObj [("data"%string, JArr [JObj [("b64_json"%string, JStr b64)]])])])].

Definition demo_status : jsval :=
  JObj [("status"%string, JStr "completed"); ("output_file_id"%string, JStr "file_1")].

(** An output file with two records for [c1], the first without image. *)
Definition demo_output : string :=
  (to_json (demo_record "c1" "") ++ nl ++ to_json (demo_record "c1" "QUJD") ++ nl)%string.

Definition demo_parse : string -> option jsval :=
  parse_of [demo_status; demo_record "c1" ""; demo_record "c1" "QUJD"].

Definition demo_respond (rq : request) : http_response :=
  match rq with
  | Req _ path _ =>
      if String.eqb path "/v1/batches/batch_1" then
        {| r_ok := true; r_status := 200; r_text := to_json demo_status |}
      else if String.eqb path "/v1/files/file_1/content" then
        {| r_ok := true; r_status := 200; r_text := demo_output |}
      else {| r_ok := false; r_status := 404; r_text := "not found" |}
  end.

(** An upstream that answers every request with a 503. *)
Definition down_response : http_response :=
  {| r_ok := false; r_status := 503; r_text := "upstream unavailable" |}.

(** [t] occurs in [s]. *)
Definition contains (s t : string) : bool :=
  existsb (fun i => String.prefix t (substring i (String.length s) s))
    (seq 0 (S (String.length s))).

(** A CSV payload with one usable item and one blank message. *)
Definition csv_item_ok : jsval :=
  JObj [("message"%string, JStr "hello"); ("keyword"%string, JStr "cat")].

Definition csv_payload : jsval :=
  JObj [("items"%string, JArr [csv_item_ok; JObj [("message"%string, JStr "  ")]])].

Definition csv_upload_reply : jsval := JObj [("id"%string, JStr "file_9")].

Definition csv_batch_reply : jsval := JObj [("id"%string, JStr "batch_9")].

Definition csv_parse : string -> option jsval :=
  parse_of [csv_payload; csv_upload_reply; csv_batch_reply].

Definition csv_respond (rq : request) : http_response :=
  match rq with
  | Req _ path _ =>
      if String.eqb path "/v1/files" then
        {| r_ok := true; r_status := 200; r_text := to_json csv_upload_reply |}
      else if String.eqb path "/v1/batches" then
        {| r_ok := true; r_status := 200; r_text := to_json csv_batch_reply |}
      else {| r_ok := false; r_status := 404; r_text := "not found" |}
  end.

Definition csv_prompt (message keyword : string) : string := (message ++ " / " ++ keyword)%string.

(** A poller that answers not ready twice, then finds the image. *)
Definition gen_resp (k : nat) : batch_result :=
  if (k <? 2)%nat then NotDone (JStr "in_progress") else Done "QUJD".

Definition gen_poll (k : nat) : M batch_result := mret (gen_resp k).






(** CSV rows with a quote, a comma, an empty field and a line break in
    their fields. *)
Definition csv_sample_rows : list (list string) :=
  [["say " ++ String dq "hi" ++ String dq EmptyString; "a,b"]; ["x"; ""];
   ["line1" ++ nl ++ "line2"]]%string.

(** A headerless CSV text with CRLF line ends. *)
Definition csv_sample_plain : string :=
  ("hello,cat" ++ nl ++ "  " ++ nl ++ "bye,dog" ++ nl)%string.

Definition csv_sample_items : list item :=
  [mkItem " Hello " "cat"; mkItem "  " "dog"; mkItem "Bye" " mochi "]%string.

(** A CSV file with a header and the payload the page builds from it with
    the keyword field set to [neko]. *)
Definition csv_upload_text : string :=
  csv_text (["message"; "keyword"]%string :: map item_row csv_sample_items).

Definition csv_upload_value : jsval :=
  JObj [("items"%string, JArr (map item_json (upload_items "neko" (parseCsv fold_ascii csv_upload_text))))].

Definition csv_upload_parse : string -> option jsval :=
  parse_of [csv_upload_value; csv_upload_reply; csv_batch_reply].

(** A direct image answer carrying [QUJD], the server's error body for an
    unset key, and a batch endpoint that is pending on the first request of
    the page's download loop and then answers each id with its own text. *)
Definition direct_image_reply : jsval :=
  JObj [("data"%string, JArr [JObj [("b64_json"%string, JStr "QUJD")]])].

Definition direct_respond (rq : request) : http_response :=
  {| r_ok := true; r_status := 200; r_text := to_json direct_image_reply |}.

Definition key_error_body : jsval :=
  JObj [("error"%string, JStr "OPENAI_API_KEY is not set on the server.")].

Definition dl_fetch (k : nat) (batch_id custom_id : string) : option http_response :=
  Some {| r_ok := true; r_status := if Nat.eqb k 0 then 202%Z else 200%Z; r_text := custom_id |}.

(** A job still running, and an upstream that reports it for every request. *)
Definition pending_status : jsval := JObj [("status"%string, JStr "in_progress")].

Definition pending_respond (rq : request) : http_response :=
  {| r_ok := true; r_status := 200; r_text := to_json pending_status |}.


(* ------------------------------------------------------------------ *)
(** ** The prompt of [POST /api/batch-csv]

    Text outside ASCII (the Japanese defaults and the Japanese words of the
    mochi test) is written as its UTF-8 bytes; the test
    [/餅|もち|mochi/i.test(th)] holds when one of the three occurs in [th].
    Without the [u] flag, [i] matches a character with a pattern character
    when both upper-case to the same code unit, except that a character
    outside ASCII is never matched with an ASCII one: [mochi] matches
    exactly its spellings in ASCII letters of any case, found by folding
    the ASCII letters of [th] to lower case; [餅], [も] and [ち] have no
    case. *)

Definition dqs : string := String dq EmptyString.

Definition is_mochi (th : string) : bool :=
  contains th "餅" || contains th "もち" || contains (fold_ascii th) "mochi".

(** [buildPrompt(text, theme)]. *)
Definition buildPrompt (text theme : string) : string :=
  let t := let t0 := trim (if String.eqb text "" then "" else text) in
           if String.eqb t0 "" then "PayPay銀行へ入金よろしく"%string else t0 in
  let th := let th0 := trim (if String.eqb theme "" then "" else theme) in
            if String.eqb th0 "" then "麦色の毛の猫"%string else th0 in
  let mochi :=
    if is_mochi th then
      ["For a mochi (rice cake) character: render the body as pure opaque white, soft and slightly squishy.";
       "ABSOLUTE: Paint the mochi character with pure white (#FFFFFF) and fully opaque color (alpha=255).";
       "No wrappers, plates, packaging, or toppings unless requested."]%string
    else [] in
  join nl
    (["Generate a single LINE-style Japanese sticker illustration.";
      "Overall style: soft, cute, chibi-style character illustration.";
      "Use the 1024x1024 canvas broadly; make the composition big and readable.";
      "Background must be transparent.";
      "Create a solid white sticker backing with a thin light-gray outline; everything outside the backing is fully transparent.";
      "The character and Japanese text must be fully opaque (alpha=255). No translucency, no see-through.";
      "IMPORTANT: Do not depict or reference any third-party copyrighted/trademarked characters, logos, brands, or recognizable IP.";
      "CRITICAL: Render the Japanese message EXACTLY as provided, character-for-character. No typos. No missing or extra characters.";
      "If needed, reduce decorations to keep the characters exact and readable.";
      "Make the text very large, thick, and bold, like a typical flashy LINE sticker.";
      "";
      "Character theme: " ++ dqs ++ th ++ dqs ++ "."]%string ++
     mochi ++
     ["Include the Japanese message " ++ dqs ++ t ++ dqs ++ " inside the illustration as the ONLY text.";
      "Do not add any other text."]%string).

(** A decimal numeral with no leading zero (and at least one digit). *)
Definition head_nonzero (u : Decimal.uint) : Prop :=
  match u with Decimal.Nil | Decimal.D0 _ => False | _ => True end.

(* ================================================================== *)
(** * Proofs *)

(** ** Index arithmetic and generic lemmas *)

Lemma idx_mod (w x y : nat) : x < w -> (y * w + x) mod w = x.
Proof. intros. rewrite Nat.add_comm, Nat.Div0.mod_add. apply Nat.mod_small; lia. Qed.

Lemma idx_div (w x y : nat) : x < w -> (y * w + x) / w = y.
Proof.
  intros. rewrite Nat.add_comm, Nat.div_add by lia.
  rewrite Nat.div_small by lia. lia.
Qed.

Lemma idx_lt (w h x y : nat) : x < w -> y < h -> y * w + x < w * h.
Proof. intros. nia. Qed.

Lemma coords_lt (w h p : nat) : p < w * h -> p mod w < w /\ p / w < h.
Proof.
  intros. assert (w <> 0) by (intro; subst; lia). split.
  - apply Nat.mod_upper_bound; auto.
  - apply Nat.Div0.div_lt_upper_bound; lia.
Qed.

Lemma idx_coords (w p : nat) : p / w * w + p mod w = p.
Proof. rewrite (Nat.div_mod_eq p w) at 3. lia. Qed.

Lemma div4_iff (i p : nat) : i / 4 = p <-> p * 4 <= i < p * 4 + 4.
Proof.
  split.
  - intros <-. pose proof (Nat.div_mod_eq i 4). pose proof (Nat.mod_upper_bound i 4). lia.
  - intros. symmetry. apply (Nat.div_unique i 4 p (i - p * 4)); lia.
Qed.

Lemma alpha_lt (d : list Z) (n p : nat) (a : Z) :
  length d = 4 * n -> alphaAt d p = Some a -> p < n.
Proof. unfold alphaAt. intros Hl H. apply lookup_lt_Some in H. lia. Qed.

Lemma fold_left_inv {S A} (P : S -> Prop) (f : S -> A -> S) (l : list A) (s : S) :
  (forall s a, In a l -> P s -> P (f s a)) -> P s -> P (fold_left f l s).
Proof.
  revert s. induction l as [|a l IH]; simpl; intros s Hf Hs; [auto|].
  apply IH; auto.
Qed.

Lemma nfalse_insert (l : list bool) (i : nat) :
  l !! i = Some false ->
  length (List.filter negb (<[i := true]> l)) + 1 = length (List.filter negb l).
Proof.
  revert i. induction l as [|b l IH]; intros [|i] H; simpl in *; try discriminate.
  - injection H as ->. simpl. lia.
  - destruct b; simpl; rewrite <- (IH i H); lia.
Qed.

Lemma is_zero_true (o : option Z) : is_zero o = true <-> o = Some 0%Z.
Proof.
  destruct o as [z|]; simpl; split; intros H; try discriminate.
  - apply Z.eqb_eq in H. subst. reflexivity.
  - injection H as ->. reflexivity.
Qed.

Lemma bg_at_insert (l : list bool) (q : list nat) (p i : nat) :
  bg_at (mkFill (<[p := true]> l) q) i =
  if decide (p = i /\ p < length l) then true else bg_at (mkFill l q) i.
Proof. unfold bg_at; simpl. rewrite list_lookup_insert. case_decide; reflexivity. Qed.

(** ** Phase 1: the border flood *)

Section Phase1Proofs.
Variables (width height : nat) (data : list Z).
Hypothesis Hlen : length data = 4 * (width * height).

Abbreviation push := (pushIfTransparent width data).
Abbreviation reach := (border_reach width height data).
Abbreviation tr := (transparent_at width height data).
Abbreviation N := (width * height).

Lemma push_cases (x y : nat) (s : fill_state) :
  push x y s = s \/
  (bg_at s (y * width + x) = false /\ alphaAt data (y * width + x) = Some 0%Z /\
   push x y s = mkFill (<[y * width + x := true]> (bg s)) (q2 s ++ [y * width + x])).
Proof.
  unfold pushIfTransparent.
  destruct (is_zero (alphaAt data (y * width + x))) eqn:Hz; simpl; [|auto].
  destruct (bg_at s (y * width + x)) eqn:Hb; [auto|].
  right. apply is_zero_true in Hz. auto.
Qed.

Lemma push_ext (x y : nat) (s : fill_state) :
  length (bg s) = N -> fs_ext s (push x y s).
Proof.
  intros HL. destruct (push_cases x y s) as [-> | (Hb & Ha & ->)].
  - repeat split; auto.
  - pose proof (alpha_lt data N _ _ Hlen Ha) as Hp.
    repeat split.
    + intros i Hi. rewrite bg_at_insert. case_decide; auto.
    + intros i Hi. simpl. apply in_or_app. auto.
    + intros i Hi. rewrite bg_at_insert in Hi. simpl.
      case_decide as Hd; [|auto]. destruct Hd as [<- _].
      right. apply in_or_app. right. left. reflexivity.
    + simpl. apply length_insert.
    + unfold fill_measure; simpl. rewrite length_app; simpl.
      assert (bg s !! (y * width + x) = Some false) as Hf.
      { unfold bg_at in Hb. destruct (bg s !! (y * width + x)) eqn:E; simpl in Hb.
        - subst. reflexivity.
        - apply lookup_ge_None in E. lia. }
      pose proof (nfalse_insert _ _ Hf). lia.
Qed.

Lemma push_visits (x y : nat) (s : fill_state) :
  length (bg s) = N -> tr x y -> bg_at (push x y s) (y * width + x) = true.
Proof.
  intros HL (Hx & Hy & Ha). unfold pushIfTransparent. rewrite Ha. simpl.
  destruct (bg_at s (y * width + x)) eqn:Hb; [exact Hb|].
  rewrite bg_at_insert. rewrite decide_True; auto. split; auto.
  rewrite HL. apply idx_lt; auto.
Qed.

Lemma push_ok (x y : nat) (s : fill_state) :
  flood_ok width height data s ->
  (alphaAt data (y * width + x) = Some 0%Z -> x < width /\ y < height /\ reach x y) ->
  flood_ok width height data (push x y s).
Proof.
  intros [HL HS HQ] Hpre. destruct (push_cases x y s) as [-> | (Hb & Ha & ->)].
  - constructor; auto.
  - destruct (Hpre Ha) as (Hx & Hy & Hr). constructor; simpl.
    + rewrite length_insert. exact HL.
    + intros i Hi. rewrite bg_at_insert in Hi. case_decide as Hd; [|auto].
      destruct Hd as [<- _]. rewrite idx_mod, idx_div by exact Hx.
      split; [apply idx_lt; auto|]. auto.
    + intros i Hi. rewrite bg_at_insert. apply in_app_or in Hi as [Hi|[<-|[]]].
      * case_decide; [reflexivity|exact (HQ i Hi)].
      * rewrite decide_True; auto. split; auto. rewrite HL. apply idx_lt; auto.
Qed.

Lemma fs_ext_refl (s : fill_state) : fs_ext s s.
Proof. repeat split; auto. Qed.

Lemma fs_ext_trans (s1 s2 s3 : fill_state) : fs_ext s1 s2 -> fs_ext s2 s3 -> fs_ext s1 s3.
Proof.
  intros (A1 & B1 & C1 & D1 & E1) (A2 & B2 & C2 & D2 & E2).
  repeat split; auto; try lia.
  intros i Hi. destruct (C2 i Hi) as [H|H]; auto.
  destruct (C1 i H); auto.
Qed.

Lemma cpush_ext (b : bool) (x y : nat) (s : fill_state) :
  length (bg s) = N -> fs_ext s (if b then push x y s else s).
Proof. intros. destruct b; [apply push_ext; auto | apply fs_ext_refl]. Qed.

Lemma cpush_ok (b : bool) (x y : nat) (s : fill_state) :
  flood_ok width height data s ->
  (b = true -> alphaAt data (y * width + x) = Some 0%Z -> x < width /\ y < height /\ reach x y) ->
  flood_ok width height data (if b then push x y s else s).
Proof. intros. destruct b; auto. apply push_ok; auto. Qed.

Lemma closed_mono (s s' : fill_state) (p : nat) :
  (forall i, bg_at s i = true -> bg_at s' i = true) ->
  closed_at width height data s p -> closed_at width height data s' p.
Proof. intros Hm Hc x' y' Ha Ht. apply Hm, Hc; auto. Qed.

Lemma push_inv (x y : nat) (s : fill_state) :
  flood_inv width height data s ->
  (alphaAt data (y * width + x) = Some 0%Z -> x < width /\ y < height /\ reach x y) ->
  flood_inv width height data (push x y s).
Proof.
  intros [Hok Hc] Hpre. pose proof (fi_len _ _ _ _ Hok) as HL.
  destruct (push_ext x y s HL) as (A & B & C & _).
  split; [apply push_ok; auto|].
  intros i Hi Hq. destruct (C i Hi) as [Hi'|Hi']; [|contradiction].
  apply closed_mono with s; auto.
Qed.

Lemma flood_step_inv (s : fill_state) (p : nat) (rest : list nat) :
  flood_inv width height data s -> q2 s = p :: rest ->
  let s' := flood_step width height data p (mkFill (bg s) rest) in
  flood_inv width height data s' /\ fill_measure s' < fill_measure s /\
  (forall i, bg_at s i = true -> bg_at s' i = true).
Proof.
  intros [Hok Hc] Hq. pose proof (fi_len _ _ _ _ Hok) as HL.
  assert (Hp : bg_at s p = true)
    by (apply (fi_queue _ _ _ _ Hok); rewrite Hq; left; reflexivity).
  destruct (fi_sound _ _ _ _ Hok p Hp) as (HpN & Hpa & Hpr).
  destruct (coords_lt width height p HpN) as [Hx Hy].
  set (s0 := mkFill (bg s) rest).
  assert (Hok0 : flood_ok width height data s0).
  { destruct Hok as [A B C]. constructor; simpl; auto.
    intros i Hi. apply C. rewrite Hq. right. exact Hi. }
  assert (HL0 : length (bg s0) = N) by exact HL.
  unfold flood_step. cbv zeta.
  set (x := p mod width) in *. set (y := p / width) in *.
  set (s1 := if 0 <? x then push (x - 1) y s0 else s0).
  set (s2 := if x + 1 <? width then push (x + 1) y s1 else s1).
  set (s3 := if 0 <? y then push x (y - 1) s2 else s2).
  set (s4 := if y + 1 <? height then push x (y + 1) s3 else s3).
  assert (E1 : fs_ext s0 s1) by (apply cpush_ext; exact HL0).
  assert (HL1 : length (bg s1) = N) by (destruct E1 as (_&_&_&D&_); lia).
  assert (E2 : fs_ext s1 s2) by (apply cpush_ext; exact HL1).
  assert (HL2 : length (bg s2) = N) by (destruct E2 as (_&_&_&D&_); lia).
  assert (E3 : fs_ext s2 s3) by (apply cpush_ext; exact HL2).
  assert (HL3 : length (bg s3) = N) by (destruct E3 as (_&_&_&D&_); lia).
  assert (E4 : fs_ext s3 s4) by (apply cpush_ext; exact HL3).
  assert (O1 : flood_ok width height data s1).
  { apply cpush_ok; auto. intros Hb Ha. apply Nat.ltb_lt in Hb.
    split; [lia|]. split; [exact Hy|]. apply br_step with x y; auto.
    - left. lia.
    - repeat split; auto; lia. }
  assert (O2 : flood_ok width height data s2).
  { apply cpush_ok; auto. intros Hb Ha. apply Nat.ltb_lt in Hb.
    split; [lia|]. split; [exact Hy|]. apply br_step with x y; auto.
    - right; left. lia.
    - repeat split; auto. }
  assert (O3 : flood_ok width height data s3).
  { apply cpush_ok; auto. intros Hb Ha. apply Nat.ltb_lt in Hb.
    split; [exact Hx|]. split; [lia|]. apply br_step with x y; auto.
    - right; right; left. lia.
    - repeat split; auto; lia. }
  assert (O4 : flood_ok width height data s4).
  { apply cpush_ok; auto. intros Hb Ha. apply Nat.ltb_lt in Hb.
    split; [exact Hx|]. split; [lia|]. apply br_step with x y; auto.
    - right; right; right. lia.
    - repeat split; auto. }
  assert (E04 : fs_ext s0 s4) by eauto using fs_ext_trans.
  assert (E14 : fs_ext s1 s4) by eauto using fs_ext_trans.
  assert (E24 : fs_ext s2 s4) by eauto using fs_ext_trans.
  destruct E04 as (A & B & C & D & E).
  split; [split; [exact O4|] | split].
  - intros i Hi Hni. destruct (C i Hi) as [Hi0|Hi0]; [|contradiction].
    destruct (Nat.eq_dec i p) as [->|Hne].
    + intros x' y' Hadj Ht. fold x y in Hadj.
      destruct Hadj as [(H1&H2)|[(H1&H2)|[(H1&H2)|(H1&H2)]]].
      * apply (proj1 E14). unfold s1.
        replace (0 <? x) with true by (symmetry; apply Nat.ltb_lt; lia).
        replace x' with (x - 1) in * by lia. rewrite H2 in *.
        apply push_visits; auto.
      * apply (proj1 E24). unfold s2.
        replace (x + 1 <? width) with true
          by (symmetry; apply Nat.ltb_lt; destruct Ht; lia).
        rewrite H1, H2 in *. apply push_visits; auto.
      * apply (proj1 E4). unfold s3.
        replace (0 <? y) with true by (symmetry; apply Nat.ltb_lt; lia).
        replace y' with (y - 1) in * by lia. rewrite H1 in *.
        apply push_visits; auto.
      * unfold s4.
        replace (y + 1 <? height) with true
          by (symmetry; apply Nat.ltb_lt; destruct Ht as (_&?&_); lia).
        rewrite H1, H2 in *. apply push_visits; auto.
    + apply closed_mono with s; auto.
      apply Hc; auto. rewrite Hq. intros [H|H]; [congruence|].
      apply Hni, B, H.
  - unfold fill_measure in *. simpl in *. rewrite Hq in *. simpl. lia.
  - intros i Hi. apply A. exact Hi.
Qed.

Lemma flood_spec (fuel : nat) (s : fill_state) :
  flood_inv width height data s -> fill_measure s <= fuel ->
  let s' := flood width height data fuel s in
  flood_inv width height data s' /\ q2 s' = [] /\
  (forall i, bg_at s i = true -> bg_at s' i = true).
Proof.
  revert s. induction fuel as [|f IH]; intros s Hinv Hm; simpl.
  - destruct (q2 s) eqn:E; [auto|].
    unfold fill_measure in Hm. rewrite E in Hm. simpl in Hm. lia.
  - destruct (q2 s) as [|p rest] eqn:E; [auto|].
    destruct (flood_step_inv s p rest Hinv E) as (Hi' & Hm' & Hmono).
    destruct (IH _ Hi' ltac:(lia)) as (A & B & C). auto.
Qed.

Lemma fold_ext {A} (f : fill_state -> A -> fill_state) (l : list A) (s : fill_state) :
  (forall s b, length (bg s) = N -> fs_ext s (f s b)) ->
  length (bg s) = N -> fs_ext s (fold_left f l s).
Proof.
  revert s. induction l as [|b l IH]; simpl; intros s Hf HL; [apply fs_ext_refl|].
  pose proof (Hf s b HL) as E. apply fs_ext_trans with (f s b); auto.
  apply IH; auto. destruct E as (_&_&_&D&_). lia.
Qed.

Lemma fold_visit {A} (f : fill_state -> A -> fill_state) (l : list A) (s : fill_state)
    (a : A) (i : nat) :
  In a l -> (forall s b, length (bg s) = N -> fs_ext s (f s b)) ->
  (forall s, length (bg s) = N -> bg_at (f s a) i = true) ->
  length (bg s) = N -> bg_at (fold_left f l s) i = true.
Proof.
  revert s. induction l as [|b l IH]; simpl; intros s Ha Hf Hv HL; [contradiction|].
  assert (HL' : length (bg (f s b)) = N) by (destruct (Hf s b HL) as (_&_&_&D&_); lia).
  destruct Ha as [->|Ha]; [|apply IH; auto].
  apply (proj1 (fold_ext f l (f s a) Hf HL')). auto.
Qed.

Lemma seed_step_ext (s : fill_state) (x y1 y2 : nat) :
  length (bg s) = N -> fs_ext s (push x y2 (push x y1 s)).
Proof.
  intros HL. pose proof (push_ext x y1 s HL) as E.
  apply fs_ext_trans with (push x y1 s); auto.
  apply push_ext. destruct E as (_&_&_&D&_). lia.
Qed.

Lemma seed_step_ext' (s : fill_state) (x1 x2 y : nat) :
  length (bg s) = N -> fs_ext s (push x2 y (push x1 y s)).
Proof.
  intros HL. pose proof (push_ext x1 y s HL) as E.
  apply fs_ext_trans with (push x1 y s); auto.
  apply push_ext. destruct E as (_&_&_&D&_). lia.
Qed.

Lemma border_pre (x y : nat) :
  alphaAt data (y * width + x) = Some 0%Z -> x <= width - 1 -> y <= height - 1 ->
  (x = 0 \/ y = 0 \/ x = width - 1 \/ y = height - 1) ->
  x < width /\ y < height /\ reach x y.
Proof.
  intros Ha Hx Hy Hb. pose proof (alpha_lt data N _ _ Hlen Ha) as Hi.
  assert (width <> 0) by (intro; subst; lia).
  assert (height <> 0) by (intro; subst; lia).
  split; [lia|]. split; [lia|].
  apply br_border; [repeat split; auto; lia | lia].
Qed.

Lemma seed_inv (s : fill_state) :
  flood_inv width height data s -> flood_inv width height data (seed_border width height data s).
Proof.
  intros Hs. unfold seed_border.
  apply fold_left_inv; [|apply fold_left_inv; [|exact Hs]].
  - intros s' y Hy Hs'. apply in_seq in Hy.
    apply push_inv; [apply push_inv; auto|]; intros Ha; apply border_pre; auto; lia.
  - intros s' x Hx Hs'. apply in_seq in Hx.
    apply push_inv; [apply push_inv; auto|]; intros Ha; apply border_pre; auto; lia.
Qed.

Lemma seed_visits (s : fill_state) (x y : nat) :
  length (bg s) = N -> tr x y -> (x = 0 \/ y = 0 \/ x + 1 = width \/ y + 1 = height) ->
  bg_at (seed_border width height data s) (y * width + x) = true.
Proof.
  intros HL Ht Hb. pose proof Ht as (Hx & Hy & Ha).
  pose (f1 := fun s x => push x (height - 1) (push x 0 s)).
  pose (f2 := fun s y => push (width - 1) y (push 0 y s)).
  change (bg_at (fold_left f2 (seq 0 height) (fold_left f1 (seq 0 width) s))
            (y * width + x) = true).
  assert (F1 : forall s b, length (bg s) = N -> fs_ext s (f1 s b))
    by (intros; apply seed_step_ext; auto).
  assert (F2 : forall s b, length (bg s) = N -> fs_ext s (f2 s b))
    by (intros; apply seed_step_ext'; auto).
  pose proof (fold_ext f1 (seq 0 width) s F1 HL) as E1.
  assert (HL1 : length (bg (fold_left f1 (seq 0 width) s)) = N)
    by (destruct E1 as (_&_&_&D&_); lia).
  assert (Hin : forall s z, length (bg s) = N ->
            length (bg (push z y s)) = N /\ length (bg (push x z s)) = N).
  { intros s' z HL'. destruct (push_ext z y s' HL') as (_&_&_&D1&_).
    destruct (push_ext x z s' HL') as (_&_&_&D2&_). lia. }
  destruct Hb as [Hb|[Hb|[Hb|Hb]]].
  - apply fold_visit with y; auto; [apply in_seq; lia|].
    intros s' HL'. unfold f2. subst x.
    apply (proj1 (push_ext _ _ _ (proj1 (Hin s' 0 HL')))).
    apply push_visits; auto.
  - apply (proj1 (fold_ext f2 (seq 0 height) _ F2 HL1)).
    apply fold_visit with x; auto; [apply in_seq; lia|].
    intros s' HL'. unfold f1. subst y.
    apply (proj1 (push_ext _ _ _ (proj2 (Hin s' 0 HL')))).
    apply push_visits; auto.
  - apply fold_visit with y; auto; [apply in_seq; lia|].
    intros s' HL'. unfold f2. replace x with (width - 1) in * by lia.
    apply push_visits; auto. apply (proj1 (Hin s' 0 HL')).
  - apply (proj1 (fold_ext f2 (seq 0 height) _ F2 HL1)).
    apply fold_visit with x; auto; [apply in_seq; lia|].
    intros s' HL'. unfold f1. replace y with (height - 1) in * by lia.
    apply push_visits; auto. apply (proj2 (Hin s' 0 HL')).
Qed.

Lemma reach_tr (x y : nat) : reach x y -> tr x y.
Proof. intros H. destruct H; auto. Qed.

Lemma filter_length_le' (l : list bool) : length (List.filter negb l) <= length l.
Proof. induction l as [|b l IH]; simpl; [lia|]. destruct b; simpl; lia. Qed.

(** The flood marks exactly the border-reachable transparent pixels. *)
Lemma flood_result_spec (x y : nat) :
  x < width -> y < height ->
  (bg_at (flood_result width height data) (y * width + x) = true <-> reach x y).
Proof.
  set (s0 := mkFill (replicate N false) []).
  assert (I0 : flood_inv width height data s0).
  { split; [constructor|].
    - simpl. apply length_replicate.
    - intros p Hp. unfold bg_at in Hp. simpl in Hp.
      destruct (replicate N false !! p) eqn:E; simpl in Hp; [|discriminate].
      apply lookup_replicate in E as [-> _]. discriminate.
    - intros p [].
    - intros p Hp. unfold bg_at in Hp. simpl in Hp.
      destruct (replicate N false !! p) eqn:E; simpl in Hp; [|discriminate].
      apply lookup_replicate in E as [-> _]. discriminate. }
  pose proof (seed_inv s0 I0) as I1.
  set (s1 := seed_border width height data s0) in *.
  assert (HM : fill_measure s1 <= length (q2 s1) + 2 * N).
  { unfold fill_measure. pose proof (filter_length_le' (bg s1)).
    rewrite (fi_len _ _ _ _ (proj1 I1)) in H. lia. }
  destruct (flood_spec _ s1 I1 HM) as ([Hok Hc] & Hq & Hmono).
  unfold flood_result. fold s0 s1.
  set (s2 := flood width height data (length (q2 s1) + 2 * N) s1) in *.
  intros Hx Hy. split.
  - intros Hv. destruct (fi_sound _ _ _ _ Hok _ Hv) as (_ & _ & Hr).
    rewrite idx_mod, idx_div in Hr by exact Hx. exact Hr.
  - intros Hr. clear Hx Hy. induction Hr as [x y Ht Hb | x y x' y' Hr IH Hadj Ht].
    + apply Hmono, seed_visits; auto. simpl. apply length_replicate.
    + destruct (reach_tr x y Hr) as (Hx & Hy & _).
      apply (Hc _ IH).
      * rewrite Hq. intros [].
      * rewrite idx_mod, idx_div by exact Hx. exact Hadj.
      * exact Ht.
Qed.

End Phase1Proofs.

Lemma fill_hole_lookup (bgv : list bool) (d : list Z) (p i : nat) :
  fill_hole bgv d p !! i =
  if (i / 4 =? p) && hole bgv d p then Some 255%Z else d !! i.
Proof.
  unfold fill_hole, hole.
  destruct (is_zero (alphaAt d p)) eqn:Ez; cbn [negb andb];
    [|rewrite andb_false_r; reflexivity].
  destruct (default false (bgv !! p)); cbn [negb andb];
    [rewrite andb_false_r; reflexivity|].
  rewrite andb_true_r.
  apply is_zero_true in Ez. unfold alphaAt in Ez. apply lookup_lt_Some in Ez.
  rewrite !list_lookup_insert, !length_insert.
  destruct (Nat.eqb_spec (i / 4) p) as [E|E].
  - apply div4_iff in E. repeat case_decide; try reflexivity; lia.
  - assert (E' : ~ (p * 4 <= i < p * 4 + 4)) by (rewrite <- div4_iff; exact E).
    repeat case_decide; try reflexivity; lia.
Qed.

Lemma fill_hole_alpha_other (bgv : list bool) (d : list Z) (p q : nat) :
  q <> p -> alphaAt (fill_hole bgv d p) q = alphaAt d q.
Proof.
  intros Hne. unfold alphaAt. rewrite fill_hole_lookup.
  replace ((q * 4 + 3) / 4) with q.
  - apply Nat.eqb_neq in Hne. rewrite Hne. reflexivity.
  - symmetry. apply div4_iff. lia.
Qed.

Lemma existsb_eqb_In (n : nat) (l : list nat) : existsb (Nat.eqb n) l = true <-> In n l.
Proof.
  rewrite existsb_exists. split.
  - intros (m & Hm & E). apply Nat.eqb_eq in E. subst. exact Hm.
  - intros H. exists n. split; [exact H|apply Nat.eqb_refl].
Qed.

Lemma fold_fill (bgv : list bool) (l : list nat) (d : list Z) (i : nat) :
  NoDup l ->
  fold_left (fill_hole bgv) l d !! i =
  if existsb (Nat.eqb (i / 4)) l && hole bgv d (i / 4) then Some 255%Z else d !! i.
Proof.
  revert d. induction l as [|a l IH]; intros d Hnd; [reflexivity|].
  cbn [fold_left existsb]. apply NoDup_cons in Hnd as [Ha Hnd].
  rewrite IH by exact Hnd. rewrite fill_hole_lookup.
  destruct (Nat.eqb_spec (i / 4) a) as [E|E].
  - subst a. destruct (existsb (Nat.eqb (i / 4)) l) eqn:Ex.
    + apply existsb_eqb_In, list_elem_of_In in Ex. contradiction.
    + reflexivity.
  - assert (Hh : hole bgv (fill_hole bgv d a) (i / 4) = hole bgv d (i / 4))
      by (unfold hole; rewrite fill_hole_alpha_other by exact E; reflexivity).
    rewrite Hh. cbn [orb]. destruct (existsb (Nat.eqb (i / 4)) l && hole bgv d (i / 4)); reflexivity.
Qed.

Lemma phase1_lookup (w h : nat) (d : list Z) (i : nat) :
  phase1 w h d !! i =
  if (i / 4 <? w * h) && hole (bg (flood_result w h d)) d (i / 4) then Some 255%Z
  else d !! i.
Proof.
  unfold phase1, npix. rewrite fold_fill by apply NoDup_seq.
  destruct (Nat.ltb_spec (i / 4) (w * h)).
  - replace (existsb _ _) with true; [reflexivity|].
    symmetry. apply existsb_eqb_In, in_seq. lia.
  - destruct (existsb (Nat.eqb (i / 4)) (seq 0 (w * h))) eqn:Ex; [|reflexivity].
    apply existsb_eqb_In, in_seq in Ex. lia.
Qed.

(** C1: on a decodable image, phase 1 turns every alpha 0 pixel with no
    4-connected alpha 0 path to the canvas border into exactly
    (255,255,255,255), and leaves every border-reachable alpha 0 pixel
    (alpha 0 and RGB) unchanged. *)
Theorem phase1_fills_enclosed_holes (w h : nat) (d : list Z) (x y : nat) :
  decodable (mkPng w h d) -> x < w -> y < h -> alphaAt d (y * w + x) = Some 0%Z ->
  (~ border_reach w h d x y ->
     pixel (phase1 w h d) (y * w + x) = [Some 255; Some 255; Some 255; Some 255]%Z) /\
  (border_reach w h d x y -> pixel (phase1 w h d) (y * w + x) = pixel d (y * w + x)).
Proof.
  intros (Hlen & _ & _) Hx Hy Ha. cbn [data width height] in Hlen.
  assert (Hdiv : forall c, c < 4 -> ((y * w + x) * 4 + c) / 4 = y * w + x)
    by (intros; apply div4_iff; lia).
  assert (Hlt : y * w + x < w * h) by (apply idx_lt; auto).
  pose proof (flood_result_spec w h d Hlen x y Hx Hy) as Hf. unfold bg_at in Hf.
  unfold pixel. cbn [map]. rewrite !phase1_lookup, !Hdiv by lia.
  unfold hole. rewrite Ha. cbn [is_zero]. rewrite (proj2 (Nat.ltb_lt _ _) Hlt).
  split; intros Hr.
  - destruct (default false (bg (flood_result w h d) !! (y * w + x))) eqn:E.
    + exfalso. apply Hr, Hf. reflexivity.
    + reflexivity.
  - rewrite (proj2 Hf Hr). reflexivity.
Qed.

Lemma phase1_fills_enclosed_holes_witness :
  decodable (mkPng 3 3 ring3) /\ 1 < 3 /\ 1 < 3 /\ alphaAt ring3 (1 * 3 + 1) = Some 0%Z /\
  (~ border_reach 3 3 ring3 1 1 ->
     pixel (phase1 3 3 ring3) (1 * 3 + 1) = [Some 255; Some 255; Some 255; Some 255]%Z) /\
  (border_reach 3 3 ring3 1 1 ->
     pixel (phase1 3 3 ring3) (1 * 3 + 1) = pixel ring3 (1 * 3 + 1)).
Proof.
  assert (D : decodable (mkPng 3 3 ring3)).
  { split; [reflexivity|split; [|cbn [width height]; lia]].
    unfold ring3, px; simpl. repeat (apply List.Forall_cons; [lia|]). apply List.Forall_nil. }
  refine (conj D (conj _ (conj _ (conj _ _)))); [lia|lia|reflexivity|].
  apply (phase1_fills_enclosed_holes 3 3 ring3 1 1 D); [lia|lia|reflexivity].
Defined.

(** ** Phase 2: edges, distances and the BFS *)

Lemma fold_left_visit {S A} (P : S -> Prop) (M : S -> S -> Prop) (Q : S -> Prop)
    (f : S -> A -> S) (l : list A) (s : S) (a : A) :
  (forall s b, In b l -> P s -> P (f s b) /\ M s (f s b)) ->
  (forall s s', Q s -> M s s' -> Q s') ->
  (forall s, P s -> Q (f s a)) ->
  In a l -> P s -> Q (fold_left f l s).
Proof.
  intros Hf HM Ha Hin. revert s Hf Hin.
  induction l as [|b l IH]; intros s Hf Hin Hs; [contradiction|]. simpl.
  assert (Hg : forall s c, In c l -> P s -> P (f s c) /\ M s (f s c))
    by (intros; apply Hf; [right|]; assumption).
  destruct (Hf s b (or_introl eq_refl) Hs) as [HP HMb].
  destruct Hin as [->|Hin]; [|apply IH; assumption].
  assert (HQ : Q (f s a)) by auto.
  clear IH Ha Hf HMb. revert HQ HP. generalize (f s a) as s'.
  induction l as [|c l IH']; simpl; intros s' HQ HP; [exact HQ|].
  destruct (Hg s' c (or_introl eq_refl) HP) as [HP' HM'].
  apply IH'; [intros; apply Hg; [right|]; assumption | eauto | exact HP'].
Qed.

Lemma nneg1_insert (l : list Z) (i : nat) (v : Z) :
  l !! i = Some (-1)%Z -> v <> (-1)%Z ->
  length (List.filter (Z.eqb (-1)) (<[i := v]> l)) + 1 =
  length (List.filter (Z.eqb (-1)) l).
Proof.
  revert i. induction l as [|b l IH]; intros [|i] H Hv; try (cbn in H; discriminate).
  - cbn in H. injection H as ->. change (<[0:=v]> ((-1)%Z :: l)) with (v :: l).
    cbn [List.filter length]. rewrite (proj2 (Z.eqb_neq (-1) v)) by congruence.
    rewrite Z.eqb_refl. cbn [length]. lia.
  - cbn in H. change (<[S i:=v]> (b :: l)) with (b :: <[i:=v]> l). cbn [List.filter].
    destruct (Z.eqb (-1) b); cbn [length]; rewrite <- (IH i H Hv); lia.
Qed.

Lemma out_of_bounds_iff (w h : nat) (nx ny : Z) :
  out_of_bounds w h nx ny = true <->
  (nx < 0 \/ ny < 0 \/ Z.of_nat w <= nx \/ Z.of_nat h <= ny)%Z.
Proof.
  unfold out_of_bounds. rewrite !orb_true_iff, !Z.ltb_lt, !Z.geb_le. tauto.
Qed.

Lemma offsets8_in (dx dy : Z) :
  (-1 <= dx <= 1)%Z -> (-1 <= dy <= 1)%Z -> ~ (dx = 0%Z /\ dy = 0%Z) -> In (dx, dy) offsets8.
Proof.
  intros Hx Hy Hn.
  assert (Ex : dx = (-1)%Z \/ dx = 0%Z \/ dx = 1%Z) by lia.
  assert (Ey : dy = (-1)%Z \/ dy = 0%Z \/ dy = 1%Z) by lia.
  destruct Ex as [ -> | [ -> | -> ] ]; destruct Ey as [ -> | [ -> | -> ] ]; unfold offsets8;
    try (exfalso; lia); repeat (first [left; reflexivity | right]).
Qed.

Lemma offsets8_range :
  Forall (fun o : Z * Z => (-1 <= fst o <= 1)%Z /\ (-1 <= snd o <= 1)%Z /\
                           ~ (fst o = 0%Z /\ snd o = 0%Z)) offsets8.
Proof. unfold offsets8. repeat (apply List.Forall_cons; [cbn; lia|]). apply List.Forall_nil. Qed.

Lemma to_nat_idx (w : nat) (nx ny : Z) :
  (0 <= nx)%Z -> (0 <= ny)%Z ->
  Z.to_nat (ny * Z.of_nat w + nx) = Z.to_nat ny * w + Z.to_nat nx.
Proof.
  intros Hx Hy. rewrite Z2Nat.inj_add, Z2Nat.inj_mul, Nat2Z.id; nia.
Qed.

Lemma dle_mono (w h : nat) (d : list Z) (n m x y : nat) :
  dle w h d n x y -> n <= m -> dle w h d m x y.
Proof.
  intros H. revert m. induction H as [n x y He | n x y x' y' H IH Ha Ho]; intros m Hm.
  - apply dle_edge. exact He.
  - destruct m as [|m]; [lia|]. apply dle_step with x y; auto. apply IH. lia.
Qed.

Lemma dle_opaque (w h : nat) (d : list Z) (n x y : nat) :
  dle w h d n x y -> opaque_at w h d x y.
Proof. intros H. destruct H as [n x y [Ho _]|]; auto. Qed.

(** Geometry of the grid: [W * H <= 2^30] keeps one side within the
    [Int16Array] range. *)
Lemma small_side (w h : nat) :
  (Z.of_nat (w * h) <= 2 ^ 30)%Z -> (Z.of_nat w <= 32768)%Z \/ (Z.of_nat h <= 32768)%Z.
Proof.
  intros H. rewrite Nat2Z.inj_mul in H. change (2 ^ 30)%Z with 1073741824%Z in H. nia.
Qed.

Lemma to_int16_small (v : Z) : (0 <= v <= 32767)%Z -> to_int16 v = v.
Proof.
  intros H. unfold to_int16. rewrite Z.mod_small by lia. lia.
Qed.

Lemma val_assigned (s : dist_state) (i : nat) :
  (0 <= val s i)%Z -> dist s !! i = Some (val s i).
Proof. unfold val. destruct (dist s !! i); cbn; [reflexivity|lia]. Qed.

Lemma val_keep (s s' : dist_state) (i : nat) :
  (forall i v, dist s !! i = Some v -> v <> (-1)%Z -> dist s' !! i = Some v) ->
  (0 <= val s i)%Z -> val s' i = val s i.
Proof.
  intros Hk Hv. unfold val at 1. rewrite (Hk i (val s i)); [reflexivity| |lia].
  apply val_assigned. exact Hv.
Qed.

Lemma filter_len_le {A} (f : A -> bool) (l : list A) : length (List.filter f l) <= length l.
Proof. induction l as [|a l IH]; cbn; [lia|]. destruct (f a); cbn; lia. Qed.

Section Phase2Proofs.
Variables (width height : nat) (data : list Z).
Hypothesis Hlen : length data = 4 * (width * height).
Hypothesis Hbytes : Forall (fun b => (0 <= b <= 255)%Z) data.
Hypothesis Hsize : (Z.of_nat (width * height) <= 2 ^ 30)%Z.

Local Abbreviation N := (width * height).
Local Abbreviation opq := (opaque_at width height data).
Local Abbreviation edge := (edge_at width height data).
Local Abbreviation dl := (dle width height data).

Lemma alpha_some (p : nat) :
  p < N -> exists a, alphaAt data p = Some a /\ (0 <= a <= 255)%Z.
Proof.
  intros Hp. unfold alphaAt.
  destruct (lookup_lt_is_Some_2 data (p * 4 + 3)) as [a Ha]; [lia|].
  exists a. split; [exact Ha|]. rewrite Forall_lookup in Hbytes. exact (Hbytes _ _ Ha).
Qed.

Lemma opaque_iff (x y : nat) :
  x < width -> y < height ->
  (opq x y <-> is_zero (alphaAt data (y * width + x)) = false).
Proof.
  intros Hx Hy. destruct (alpha_some (y * width + x)) as (a & Ha & Hr); [apply idx_lt; auto|].
  rewrite Ha. unfold opaque_at. cbn [is_zero]. rewrite Ha. split.
  - intros (_ & _ & b & Hb & Hpos). injection Hb as <-. apply Z.eqb_neq. lia.
  - intros Hz. apply Z.eqb_neq in Hz. repeat split; auto. exists a. split; [reflexivity|lia].
Qed.

Lemma dle_col (x y : nat) : opq x y -> dl x x y.
Proof.
  induction x as [|x IH]; intros Ho.
  - apply dle_edge. split; [exact Ho|]. left. reflexivity.
  - pose proof Ho as (Hx & Hy & _).
    destruct (alpha_some (y * width + x)) as (b & Hb & Hr); [apply idx_lt; lia|].
    destruct (Z.eq_dec b 0%Z) as [->|Hnz].
    + apply dle_edge. split; [exact Ho|]. right; right; right; right.
      exists x, y. unfold adj8. repeat split; try lia. exact Hb.
    + apply dle_step with x y; [apply IH|right; left; lia|exact Ho].
      repeat split; try lia. exists b. split; [exact Hb|lia].
Qed.

Lemma dle_row (x y : nat) : opq x y -> dl y x y.
Proof.
  induction y as [|y IH]; intros Ho.
  - apply dle_edge. split; [exact Ho|]. right; left. reflexivity.
  - pose proof Ho as (Hx & Hy & _).
    destruct (alpha_some (y * width + x)) as (b & Hb & Hr); [apply idx_lt; lia|].
    destruct (Z.eq_dec b 0%Z) as [->|Hnz].
    + apply dle_edge. split; [exact Ho|]. right; right; right; right.
      exists x, y. unfold adj8. repeat split; try lia. exact Hb.
    + apply dle_step with x y; [apply IH|right; right; right; lia|exact Ho].
      repeat split; try lia. exists b. split; [exact Hb|lia].
Qed.

(** Every alpha > 0 pixel is within [Int16Array] range of an edge. *)
Lemma dle_bounded (x y : nat) : opq x y -> exists k, dl k x y /\ (Z.of_nat k < 32768)%Z.
Proof.
  intros Ho. pose proof Ho as (Hx & Hy & _).
  destruct (small_side width height Hsize) as [Hw|Hh].
  - exists x. split; [apply dle_col; exact Ho|lia].
  - exists y. split; [apply dle_row; exact Ho|lia].
Qed.

Lemma isEdge_iff (x y : nat) :
  x < width -> y < height ->
  (isEdge width height data x y = true <->
   (x = 0 \/ y = 0 \/ x + 1 = width \/ y + 1 = height \/
    exists x' y', adj8 x y x' y' /\ x' < width /\ y' < height /\
      alphaAt data (y' * width + x') = Some 0%Z)).
Proof.
  intros Hx Hy. unfold isEdge. rewrite existsb_exists. split.
  - intros ([dx dy] & Hin & Hc). cbn [fst snd] in Hc.
    pose proof (proj1 (List.Forall_forall _ _) offsets8_range _ Hin) as (Hdx & Hdy & Hn).
    cbn [fst snd] in Hdx, Hdy, Hn.
    destruct (out_of_bounds width height (Z.of_nat x + dx) (Z.of_nat y + dy)) eqn:Hob.
    + apply out_of_bounds_iff in Hob.
      assert (x = 0 \/ y = 0 \/ x + 1 = width \/ y + 1 = height) by lia. tauto.
    + cbn [orb] in Hc. apply is_zero_true in Hc.
      assert (Hib : ~ ((Z.of_nat x + dx < 0)%Z \/ (Z.of_nat y + dy < 0)%Z \/
                      (Z.of_nat width <= Z.of_nat x + dx)%Z \/
                      (Z.of_nat height <= Z.of_nat y + dy)%Z))
        by (rewrite <- out_of_bounds_iff; congruence).
      right; right; right; right.
      exists (Z.to_nat (Z.of_nat x + dx)), (Z.to_nat (Z.of_nat y + dy)).
      split; [unfold adj8; lia|]. split; [lia|]. split; [lia|].
      rewrite <- Hc. f_equal. rewrite to_nat_idx by lia. reflexivity.
  - intros Hc.
    assert (Hb : forall dx dy, In (dx, dy) offsets8 ->
              ((Z.of_nat x + dx < 0)%Z \/ (Z.of_nat y + dy < 0)%Z \/
               (Z.of_nat width <= Z.of_nat x + dx)%Z \/
               (Z.of_nat height <= Z.of_nat y + dy)%Z) ->
              exists o, In o offsets8 /\
                (out_of_bounds width height (Z.of_nat x + fst o) (Z.of_nat y + snd o) ||
                 is_zero (alphaAt data (Z.to_nat ((Z.of_nat y + snd o) * Z.of_nat width +
                                                  (Z.of_nat x + fst o))))) = true).
    { intros dx dy Hin Hob. exists (dx, dy). split; [exact Hin|].
      apply orb_true_iff. left. apply out_of_bounds_iff. exact Hob. }
    destruct Hc as [Hc|[Hc|[Hc|[Hc|(x' & y' & Hadj & Hx' & Hy' & Ha)]]]].
    + apply (Hb (-1)%Z 0%Z); [apply offsets8_in|]; lia.
    + apply (Hb 0%Z (-1)%Z); [apply offsets8_in|]; lia.
    + apply (Hb 1%Z 0%Z); [apply offsets8_in|]; lia.
    + apply (Hb 0%Z 1%Z); [apply offsets8_in|]; lia.
    + exists (Z.of_nat x' - Z.of_nat x, Z.of_nat y' - Z.of_nat y)%Z.
      unfold adj8 in Hadj. split; [apply offsets8_in; lia|]. cbn [fst snd].
      apply orb_true_iff. right. apply is_zero_true. rewrite <- Ha. f_equal.
      replace (Z.of_nat y + (Z.of_nat y' - Z.of_nat y))%Z with (Z.of_nat y') by lia.
      replace (Z.of_nat x + (Z.of_nat x' - Z.of_nat x))%Z with (Z.of_nat x') by lia.
      rewrite to_nat_idx by lia. rewrite !Nat2Z.id. reflexivity.
Qed.

Lemma edge_iff (x y : nat) :
  x < width -> y < height ->
  (edge x y <-> is_zero (alphaAt data (y * width + x)) = false /\
                isEdge width height data x y = true).
Proof.
  intros Hx Hy. unfold edge_at. rewrite opaque_iff, isEdge_iff by assumption. reflexivity.
Qed.

(** *** Seeding the BFS with the edge pixels *)

Lemma edge_visit_props (s : dist_state) (x y : nat) :
  x < width -> y < height -> length (dist s) = N ->
  (forall i v, dist s !! i = Some v -> v = (-1)%Z \/ (v = 0%Z /\ edge (i mod width) (i / width))) ->
  (forall i, In i (q s) -> dist s !! i = Some 0%Z) ->
  (forall i, dist s !! i = Some 0%Z -> In i (q s)) ->
  let s' := edge_visit width height data s y x in
  length (dist s') = N /\
  (forall i v, dist s' !! i = Some v -> v = (-1)%Z \/ (v = 0%Z /\ edge (i mod width) (i / width))) /\
  (forall i, In i (q s') -> dist s' !! i = Some 0%Z) /\
  (forall i, dist s' !! i = Some 0%Z -> In i (q s')) /\
  (forall i, dist s !! i = Some 0%Z -> dist s' !! i = Some 0%Z) /\
  (edge x y -> dist s' !! (y * width + x) = Some 0%Z).
Proof.
  intros Hx Hy HL Hv Hq Hz s'. subst s'. unfold edge_visit.
  pose proof (edge_iff x y Hx Hy) as He.
  assert (Hp : y * width + x < N) by (apply idx_lt; auto).
  destruct (is_zero (alphaAt data (y * width + x))) eqn:Ez.
  { repeat split; auto. intros [Hz' _]%He. congruence. }
  destruct (isEdge width height data x y) eqn:Ei.
  2:{ repeat split; auto. intros [_ Hi]%He. congruence. }
  cbn [dist q]. repeat split.
  - rewrite length_insert. exact HL.
  - intros i v Hi. rewrite list_lookup_insert in Hi. case_decide as Hc.
    + destruct Hc as [<- _]. injection Hi as <-. right. split; [reflexivity|].
      rewrite idx_mod, idx_div by exact Hx. apply He. auto.
    + apply Hv. exact Hi.
  - intros i Hi. rewrite list_lookup_insert. case_decide as Hc; [reflexivity|].
    apply in_app_or in Hi as [Hi|[<-|[]]]; [apply Hq; exact Hi|]. exfalso. apply Hc. lia.
  - intros i Hi. rewrite list_lookup_insert in Hi. apply in_or_app. case_decide as Hc.
    + right. left. apply Hc.
    + left. apply Hz. exact Hi.
  - intros i Hi. rewrite list_lookup_insert. case_decide; [reflexivity|exact Hi].
  - intros _. rewrite list_lookup_insert. rewrite decide_True by lia. reflexivity.
Qed.

Lemma seed_edges_spec :
  let s1 := seed_edges width height data (mkDist (replicate N (-1)%Z) []) in
  length (dist s1) = N /\
  (forall i v, dist s1 !! i = Some v -> v = (-1)%Z \/ (v = 0%Z /\ edge (i mod width) (i / width))) /\
  (forall i, In i (q s1) -> dist s1 !! i = Some 0%Z) /\
  (forall i, dist s1 !! i = Some 0%Z -> In i (q s1)) /\
  (forall x y, x < width -> y < height -> edge x y -> dist s1 !! (y * width + x) = Some 0%Z).
Proof.
  set (P := fun s : dist_state => length (dist s) = N /\
    (forall i v, dist s !! i = Some v -> v = (-1)%Z \/ (v = 0%Z /\ edge (i mod width) (i / width))) /\
    (forall i, In i (q s) -> dist s !! i = Some 0%Z) /\
    (forall i, dist s !! i = Some 0%Z -> In i (q s))).
  set (M := fun s s' : dist_state => forall i, dist s !! i = Some 0%Z -> dist s' !! i = Some 0%Z).
  set (g := fun y s x => edge_visit width height data s y x).
  set (f := fun s y => fold_left (g y) (seq 0 width) s).
  assert (Hg : forall y, y < height -> forall s x, In x (seq 0 width) -> P s -> P (g y s x) /\ M s (g y s x)).
  { intros y Hy s x Hin (HL & Hv & Hq & Hz). apply in_seq in Hin.
    destruct (edge_visit_props s x y) as (A & B & C & D & E & _); try lia; auto.
    repeat split; auto. }
  assert (Hf : forall s y, In y (seq 0 height) -> P s -> P (f s y) /\ M s (f s y)).
  { intros s y Hy Hs. apply in_seq in Hy.
    apply (fold_left_inv (fun s' => P s' /\ M s s')); [|split; [exact Hs|intros i Hi; exact Hi]].
    intros s' x Hx [Hs' HM]. destruct (Hg y ltac:(lia) s' x Hx Hs') as [HP HM'].
    split; [exact HP|]. intros i Hi. apply HM', HM, Hi. }
  assert (P0 : P (mkDist (replicate N (-1)%Z) [])).
  { repeat split.
    - apply length_replicate.
    - intros i v Hi. cbn in Hi. apply lookup_replicate in Hi as [-> _]. left. reflexivity.
    - intros i [].
    - intros i Hi. cbn in Hi. apply lookup_replicate in Hi as [? _]. discriminate. }
  cbn zeta. unfold seed_edges. fold g. change (fun s y => fold_left (g y) (seq 0 width) s) with f.
  pose proof (fold_left_inv P f (seq 0 height) _ (fun s y Hy Hs => proj1 (Hf s y Hy Hs)) P0)
    as (HL & Hv & Hq & Hz).
  repeat split; auto.
  intros x y Hx Hy He.
  assert (HM : forall s s', dist s !! (y * width + x) = Some 0%Z -> M s s' ->
                 dist s' !! (y * width + x) = Some 0%Z) by (intros s s' H1 H2; apply H2, H1).
  refine (fold_left_visit P M (fun s => dist s !! (y * width + x) = Some 0%Z) f
            (seq 0 height) _ y Hf HM _ _ P0); [|apply in_seq; lia].
  intros s Hs. unfold f.
  refine (fold_left_visit P M (fun s => dist s !! (y * width + x) = Some 0%Z) (g y)
            (seq 0 width) _ x (Hg y Hy) HM _ _ Hs); [|apply in_seq; lia].
  intros s' (HL' & Hv' & Hq' & Hz'). unfold g.
  destruct (edge_visit_props s' x y) as (_ & _ & _ & _ & _ & E); auto.
Qed.

Lemma bfs_init :
  let s1 := seed_edges width height data (mkDist (replicate N (-1)%Z) []) in
  bfs_inv width height data 0 (q s1) [] s1.
Proof.
  cbn zeta. destruct seed_edges_spec as (HL & Hv & Hq & Hz & He).
  set (s1 := seed_edges width height data (mkDist (replicate N (-1)%Z) [])) in *.
  constructor.
  - exact HL.
  - symmetry. apply app_nil_r.
  - lia.
  - intros i Hi. unfold val. rewrite (Hq i Hi). reflexivity.
  - intros i [].
  - intros i v Hi. destruct (Hv i v Hi) as [->|[-> Hei]]; [left; reflexivity|right].
    split; [lia|]. split; [apply Hei|]. apply dle_edge. exact Hei.
  - intros i Hi Hn. exfalso. unfold val in Hi.
    destruct (dist s1 !! i) as [v|] eqn:E; cbn in Hi; [|lia].
    destruct (Hv i v E) as [->|[-> _]]; [lia|]. apply Hn, Hz, E.
  - intros j x y Hd Hj. assert (j = 0) by lia. subst j.
    inversion Hd as [n x0 y0 Hed| ]; subst.
    pose proof (proj1 Hed) as (Hx & Hy & _).
    unfold val. rewrite (He x y Hx Hy Hed). cbn. lia.
Qed.

Lemma visit_ok_refl (L : Z) (p : nat) (s : dist_state) :
  length (dist s) = N -> visit_ok width height data L p s s.
Proof.
  intros HL. constructor.
  - exact HL.
  - intros i v Hi _. exact Hi.
  - intros i v Hi. right; left. exact Hi.
  - exists []. split; [symmetry; apply app_nil_r|intros i []].
  - lia.
Qed.

Lemma visit_step (L : Z) (p : nat) (s0 s : dist_state) (nx ny : Z) :
  length (dist s0) = N -> (0 <= L)%Z ->
  (forall i, dist s0 !! i = Some (-1)%Z -> opq (i mod width) (i / width) ->
     adj4 (p mod width) (p / width) (i mod width) (i / width) -> (L + 1 <= 32767)%Z) ->
  (out_of_bounds width height nx ny = false ->
     adj4 (p mod width) (p / width) (Z.to_nat nx) (Z.to_nat ny)) ->
  visit_ok width height data L p s0 s ->
  let s' := bfs_visit width height data L s (nx, ny) in
  visit_ok width height data L p s0 s' /\
  (forall i v, dist s !! i = Some v -> v <> (-1)%Z -> dist s' !! i = Some v) /\
  (out_of_bounds width height nx ny = false -> opq (Z.to_nat nx) (Z.to_nat ny) ->
     exists v, dist s' !! (Z.to_nat ny * width + Z.to_nat nx) = Some v /\ v <> (-1)%Z).
Proof.
  intros HL0 HLn Hwrap Hadj Hok s'. subst s'. unfold bfs_visit. cbn [fst snd].
  destruct (out_of_bounds width height nx ny) eqn:Hob.
  { split; [exact Hok|]. split; [auto|]. intros; discriminate. }
  assert (Hib : ~ ((nx < 0)%Z \/ (ny < 0)%Z \/ (Z.of_nat width <= nx)%Z \/
                   (Z.of_nat height <= ny)%Z))
    by (rewrite <- out_of_bounds_iff; congruence).
  assert (Hnp : Z.to_nat (ny * Z.of_nat width + nx) = Z.to_nat ny * width + Z.to_nat nx)
    by (apply to_nat_idx; lia).
  set (np := Z.to_nat (ny * Z.of_nat width + nx)) in *.
  assert (Hnmod : np mod width = Z.to_nat nx) by (rewrite Hnp; apply idx_mod; lia).
  assert (Hndiv : np / width = Z.to_nat ny) by (rewrite Hnp; apply idx_div; lia).
  assert (HnpN : np < N) by (rewrite Hnp; apply idx_lt; lia).
  pose proof (vo_len _ _ _ _ _ _ _ Hok) as HLs.
  destruct (is_zero (alphaAt data np)) eqn:Ez.
  { split; [exact Hok|]. split; [auto|]. intros _ Ho. exfalso.
    apply opaque_iff in Ho; [|lia|lia]. rewrite <- Hnp in Ho. congruence. }
  destruct (dist s !! np) as [v|] eqn:Ed.
  2:{ exfalso. apply lookup_ge_None in Ed. lia. }
  destruct (Z.eqb_spec v (-1)%Z) as [->|Hv].
  2:{ split; [exact Hok|]. split; [auto|]. intros _ _. exists v. rewrite <- Hnp. auto. }
  assert (H0 : dist s0 !! np = Some (-1)%Z).
  { destruct (dist s0 !! np) as [v0|] eqn:E0.
    - destruct (Z.eq_dec v0 (-1)%Z) as [->|Hne]; [reflexivity|].
      pose proof (vo_keep _ _ _ _ _ _ _ Hok np v0 E0 Hne). congruence.
    - apply lookup_ge_None in E0. lia. }
  assert (Hopn : opq (np mod width) (np / width)).
  { rewrite Hnmod, Hndiv. apply opaque_iff; [lia|lia|]. rewrite <- Hnp. exact Ez. }
  assert (Hadjn : adj4 (p mod width) (p / width) (np mod width) (np / width))
    by (rewrite Hnmod, Hndiv; apply Hadj; reflexivity).
  pose proof (Hwrap np H0 Hopn Hadjn) as Hw.
  rewrite to_int16_small by lia.
  destruct Hok as [Hlen' Hkeep Hnew [new [Hq Hnewp]] Hm].
  split; [constructor|split].
  - cbn. rewrite length_insert. exact Hlen'.
  - intros i w Hi Hw'. cbn. rewrite list_lookup_insert. case_decide as Hc.
    + destruct Hc as [<- _]. pose proof (Hkeep np w Hi Hw'). congruence.
    + apply Hkeep; auto.
  - intros i w Hi. cbn in Hi. rewrite list_lookup_insert in Hi. case_decide as Hc.
    + destruct Hc as [<- _]. injection Hi as <-. right; right.
      refine (conj eq_refl (conj H0 (conj Hopn (conj Hadjn _)))).
      cbn. apply in_or_app. right. left. reflexivity.
    + destruct (Hnew i w Hi) as [A|[A|(A1 & A2 & A3 & A4 & A5)]];
        [left; exact A|right; left; exact A|right; right].
      refine (conj A1 (conj A2 (conj A3 (conj A4 _)))).
      cbn. apply in_or_app. left. exact A5.
  - exists (new ++ [np]). split; [cbn; rewrite Hq, app_assoc; reflexivity|].
    intros i Hi. apply in_app_or in Hi as [Hi|[<-|[]]].
    + destruct (Hnewp i Hi) as [A B]. cbn. rewrite list_lookup_insert. case_decide as Hc.
      * exfalso. destruct Hc as [-> _]. rewrite A in Ed. injection Ed. lia.
      * split; auto.
    + cbn. rewrite list_lookup_insert_eq by lia. split; auto.
  - unfold bfs_measure in *. cbn. rewrite length_app. cbn [length].
    pose proof (nneg1_insert (dist s) np (L + 1) Ed ltac:(lia)). lia.
  - intros i w Hi Hw'. cbn. rewrite list_lookup_insert_ne; auto. intros <-. congruence.
  - intros _ _. exists (L + 1)%Z. rewrite <- Hnp. cbn.
    rewrite list_lookup_insert_eq by lia. split; [reflexivity|lia].
Qed.

(** The four neighbours of the BFS loop, for [p] at [(x, y)]. *)
Lemma cand_adj (p : nat) (nb : Z * Z) :
  In nb [((Z.of_nat (p mod width) - 1)%Z, Z.of_nat (p / width));
         ((Z.of_nat (p mod width) + 1)%Z, Z.of_nat (p / width));
         (Z.of_nat (p mod width), (Z.of_nat (p / width) - 1)%Z);
         (Z.of_nat (p mod width), (Z.of_nat (p / width) + 1)%Z)] ->
  out_of_bounds width height (fst nb) (snd nb) = false ->
  adj4 (p mod width) (p / width) (Z.to_nat (fst nb)) (Z.to_nat (snd nb)).
Proof.
  intros Hin Hob.
  assert (Hib : ~ ((fst nb < 0)%Z \/ (snd nb < 0)%Z \/ (Z.of_nat width <= fst nb)%Z \/
                   (Z.of_nat height <= snd nb)%Z))
    by (rewrite <- out_of_bounds_iff; congruence).
  unfold adj4. destruct Hin as [<-|[<-|[<-|[<-|[]]]]]; cbn [fst snd] in *; lia.
Qed.

Lemma cand_of_adj (p x' y' : nat) :
  adj4 (p mod width) (p / width) x' y' -> x' < width -> y' < height ->
  exists nb, In nb [((Z.of_nat (p mod width) - 1)%Z, Z.of_nat (p / width));
         ((Z.of_nat (p mod width) + 1)%Z, Z.of_nat (p / width));
         (Z.of_nat (p mod width), (Z.of_nat (p / width) - 1)%Z);
         (Z.of_nat (p mod width), (Z.of_nat (p / width) + 1)%Z)] /\
    out_of_bounds width height (fst nb) (snd nb) = false /\
    Z.to_nat (fst nb) = x' /\ Z.to_nat (snd nb) = y'.
Proof.
  intros Ha Hx Hy.
  assert (Hob : forall nx ny, (0 <= nx < Z.of_nat width)%Z -> (0 <= ny < Z.of_nat height)%Z ->
            out_of_bounds width height nx ny = false)
    by (intros nx ny H1 H2; apply not_true_is_false; rewrite out_of_bounds_iff; lia).
  unfold adj4 in Ha. destruct Ha as [Ha|[Ha|[Ha|Ha]]].
  - eexists. split; [left; reflexivity|]. cbn [fst snd]. split; [apply Hob; lia|lia].
  - eexists. split; [right; left; reflexivity|]. cbn [fst snd]. split; [apply Hob; lia|lia].
  - eexists. split; [right; right; left; reflexivity|]. cbn [fst snd].
    split; [apply Hob; lia|lia].
  - eexists. split; [right; right; right; left; reflexivity|]. cbn [fst snd].
    split; [apply Hob; lia|lia].
Qed.

Lemma bfs_step_inv (L : Z) (p : nat) (Q1 Q2 : list nat) (s : dist_state) :
  bfs_inv width height data L (p :: Q1) Q2 s ->
  let s' := bfs_step width height data p (mkDist (dist s) (Q1 ++ Q2)) in
  (exists new, bfs_inv width height data L Q1 (Q2 ++ new) s') /\
  bfs_measure s' < bfs_measure s.
Proof.
  intros Hi s'. destruct Hi as [HL Hq HLn HQ1 HQ2 Hr Hpr Hc].
  set (s0 := mkDist (dist s) (Q1 ++ Q2)) in *.
  assert (Hvp : val s p = L) by (apply HQ1; left; reflexivity).
  assert (Hdp : dist s !! p = Some L) by (rewrite <- Hvp; apply val_assigned; lia).
  assert (HpN : p < N) by (apply lookup_lt_Some in Hdp; lia).
  destruct (Hr p L Hdp) as [?|(_ & Hop & Hdl)]; [lia|].
  assert (Hwrap : forall i, dist s0 !! i = Some (-1)%Z -> opq (i mod width) (i / width) ->
            adj4 (p mod width) (p / width) (i mod width) (i / width) -> (L + 1 <= 32767)%Z).
  { intros i Hi Ho _. destruct (dle_bounded _ _ Ho) as (k & Hk & Hk').
    destruct (Z.le_gt_cases (Z.of_nat k) L) as [Hle|Hgt]; [|lia].
    pose proof (Hc k _ _ Hk Hle) as Hv. rewrite idx_coords in Hv.
    unfold val in Hv. cbn in Hi. rewrite Hi in Hv. cbn in Hv. lia. }
  set (cands := [((Z.of_nat (p mod width) - 1)%Z, Z.of_nat (p / width));
         ((Z.of_nat (p mod width) + 1)%Z, Z.of_nat (p / width));
         (Z.of_nat (p mod width), (Z.of_nat (p / width) - 1)%Z);
         (Z.of_nat (p mod width), (Z.of_nat (p / width) + 1)%Z)]).
  assert (Es' : s' = fold_left (bfs_visit width height data L) cands s0).
  { subst s'. unfold bfs_step, s0. cbn [dist]. rewrite Hdp. reflexivity. }
  set (P := visit_ok width height data L p s0).
  set (M := fun s1 s2 : dist_state => forall i v, dist s1 !! i = Some v -> v <> (-1)%Z ->
              dist s2 !! i = Some v).
  assert (HL0 : length (dist s0) = N) by exact HL.
  assert (Hst : forall s1 nb, In nb cands -> P s1 ->
            P (bfs_visit width height data L s1 nb) /\ M s1 (bfs_visit width height data L s1 nb)).
  { intros s1 [nx ny] Hin H1.
    destruct (visit_step L p s0 s1 nx ny HL0 HLn Hwrap (cand_adj p (nx, ny) Hin) H1)
      as (A & B & _). split; [exact A|exact B]. }
  assert (Hok : P s').
  { rewrite Es'. apply (fold_left_inv P); [intros; apply Hst; auto|].
    apply visit_ok_refl. exact HL0. }
  assert (Hnb : forall x' y', adj4 (p mod width) (p / width) x' y' -> opq x' y' ->
            exists v, dist s' !! (y' * width + x') = Some v /\ v <> (-1)%Z).
  { intros x' y' Ha Ho. pose proof Ho as (Hx' & Hy' & _).
    destruct (cand_of_adj p x' y' Ha Hx' Hy') as ([nx ny] & Hin & Hob & Ex & Ey).
    cbn [fst snd] in Hob, Ex, Ey. subst x' y'. rewrite Es'.
    apply (fold_left_visit P M (fun s1 => exists v, dist s1 !! (Z.to_nat ny * width + Z.to_nat nx) = Some v /\ v <> (-1)%Z) _ cands s0 (nx, ny) Hst).
    - intros s1 s2 (v & Hv & Hv') HM. exists v. split; [apply HM; auto|exact Hv'].
    - intros s1 H1. apply (visit_step L p s0 s1 nx ny HL0 HLn Hwrap (cand_adj p (nx, ny) Hin) H1);
        assumption.
    - exact Hin.
    - apply visit_ok_refl. exact HL0. }
  destruct Hok as [Hlen' Hkeep Hnew [new [Hq' Hnewp]] Hm].
  assert (Hkeep' : forall i, (0 <= val s i)%Z -> val s' i = val s i).
  { intros i. apply val_keep. intros j v Hj Hv. apply Hkeep; assumption. }
  split.
  - exists new. constructor.
    + exact Hlen'.
    + rewrite Hq'. cbn. rewrite app_assoc. reflexivity.
    + exact HLn.
    + intros i Hi. rewrite Hkeep'; [apply HQ1; right; exact Hi|].
      rewrite HQ1; [lia|right; exact Hi].
    + intros i Hi. apply in_app_or in Hi as [Hi|Hi].
      * rewrite Hkeep'; [apply HQ2; exact Hi|]. rewrite HQ2; [lia|exact Hi].
      * unfold val. rewrite (proj1 (Hnewp i Hi)). reflexivity.
    + intros i v Hi. destruct (Hnew i v Hi) as [A|[A|(A1 & A2 & A3 & A4 & A5)]].
      * left. exact A.
      * destruct (Hr i v A) as [B|(B1 & B2 & B3)]; [left; exact B|right].
        split; [lia|]. split; assumption.
      * right. subst v. split; [lia|]. split; [exact A3|].
        replace (Z.to_nat (L + 1)) with (S (Z.to_nat L)) by lia.
        apply dle_step with (p mod width) (p / width); assumption.
    + intros i Hi Hn x' y' Ha Ho.
      destruct (Nat.eq_dec i p) as [->|Hne].
      * rewrite (Hkeep' p) by lia. rewrite Hvp.
        destruct (Hnb x' y' Ha Ho) as (v & Hv & Hv').
        unfold val. rewrite Hv. cbn.
        destruct (Hnew _ v Hv) as [A|[A|(A1 & _)]]; [lia| |lia].
        destruct (Hr _ v A) as [B|(B1 & _)]; lia.
      * pose proof (val_assigned s' i Hi) as Hd.
        destruct (Hnew i _ Hd) as [A|[A|(_ & _ & _ & _ & A5)]]; [lia| |contradiction].
        change (dist s0) with (dist s) in A.
        assert (Hvs : val s i = val s' i) by (unfold val; rewrite A; reflexivity).
        assert (Hnq : ~ In i (q s)).
        { rewrite Hq. intros [E|E]; [congruence|]. apply Hn. rewrite Hq'.
          apply in_or_app. left. exact E. }
        pose proof (Hpr i ltac:(lia) Hnq x' y' Ha Ho) as Hb.
        rewrite Hkeep' by lia. lia.
    + intros j x y Hd Hj. rewrite Hkeep'; [apply Hc; assumption|].
      apply (Hc j x y Hd Hj).
  - unfold bfs_measure in *. unfold s0 in Hm. cbn [q dist] in Hm. rewrite Hq.
    cbn [app length]. rewrite length_app in *. lia.
Qed.

Lemma bfs_next_level (L : Z) (p : nat) (Q2 : list nat) (s : dist_state) :
  bfs_inv width height data L [] (p :: Q2) s ->
  bfs_inv width height data (L + 1) (p :: Q2) [] s.
Proof.
  intros [HL Hq HLn HQ1 HQ2 Hr Hpr Hc]. constructor.
  - exact HL.
  - rewrite Hq, app_nil_r. reflexivity.
  - lia.
  - exact HQ2.
  - intros i [].
  - intros i v Hi. destruct (Hr i v Hi) as [A|(A1 & A2 & A3)]; [left; exact A|right; split; [lia|auto]].
  - exact Hpr.
  - intros j x y Hd Hj. destruct (Z.le_gt_cases (Z.of_nat j) L) as [Hle|Hgt]; [apply Hc; assumption|].
    destruct Hd as [n x y He | n x0 y0 x y Hd0 Ha Ho].
    + pose proof (Hc 0 x y (dle_edge _ _ _ 0 x y He) ltac:(lia)). lia.
    + pose proof (Hc n x0 y0 Hd0 ltac:(lia)) as Hv0.
      pose proof (dle_opaque _ _ _ _ _ _ Hd0) as (Hx0 & _).
      assert (Hnq : ~ In (y0 * width + x0) (q s)).
      { rewrite Hq. intros Hin. rewrite (HQ2 _ Hin) in Hv0. lia. }
      pose proof (Hpr (y0 * width + x0) ltac:(lia) Hnq x y) as Hb.
      rewrite idx_mod, idx_div in Hb by exact Hx0. specialize (Hb Ha Ho). lia.
Qed.

Lemma bfs_run (fuel : nat) (L : Z) (Q1 Q2 : list nat) (s : dist_state) :
  bfs_inv width height data L Q1 Q2 s -> bfs_measure s <= fuel ->
  exists L', bfs_inv width height data L' [] [] (bfs width height data fuel s).
Proof.
  revert L Q1 Q2 s. induction fuel as [|f IH]; intros L Q1 Q2 s Hi Hm.
  - exists L. cbn [bfs]. pose proof (bi_q _ _ _ _ _ _ _ Hi) as Hq.
    unfold bfs_measure in Hm. rewrite Hq, length_app in Hm.
    destruct Q1; [|cbn in Hm; lia]. destruct Q2; [exact Hi|cbn in Hm; lia].
  - cbn [bfs]. pose proof (bi_q _ _ _ _ _ _ _ Hi) as Hq.
    destruct Q1 as [|p Q1'].
    + destruct Q2 as [|p Q2'].
      * rewrite Hq. exists L. exact Hi.
      * apply bfs_next_level in Hi. rewrite Hq. cbn [app].
        destruct (bfs_step_inv (L + 1) p Q2' [] s Hi) as ([new Hi'] & Hlt).
        rewrite app_nil_r in Hi', Hlt. apply (IH _ _ _ _ Hi'). lia.
    + rewrite Hq. cbn [app].
      destruct (bfs_step_inv L p Q1' Q2 s Hi) as ([new Hi'] & Hlt).
      apply (IH _ _ _ _ Hi'). lia.
Qed.

Lemma dist_result_inv : exists L, bfs_inv width height data L [] [] (dist_result width height data).
Proof.
  unfold dist_result. cbn zeta. pose proof bfs_init as Hi. cbn zeta in Hi.
  apply (bfs_run _ _ _ _ _ Hi). unfold bfs_measure.
  pose proof (filter_len_le (Z.eqb (-1))
    (dist (seed_edges width height data (mkDist (replicate N (-1)%Z) [])))) as Hf.
  rewrite (bi_len _ _ _ _ _ _ _ Hi) in Hf. lia.
Qed.

(** After the loop, [dist] holds the distance of every alpha > 0 pixel. *)
Lemma dist_result_complete (j x y : nat) :
  dl j x y -> (0 <= val (dist_result width height data) (y * width + x) <= Z.of_nat j)%Z.
Proof.
  destruct dist_result_inv as [L [HL Hq HLn HQ1 HQ2 Hr Hpr Hc]].
  intros Hd. induction Hd as [n x y He | n x0 y0 x y Hd0 IH Ha Ho].
  - pose proof (Hc 0 x y (dle_edge _ _ _ 0 x y He) ltac:(lia)). lia.
  - pose proof (dle_opaque _ _ _ _ _ _ Hd0) as (Hx0 & _).
    assert (Hnq : ~ In (y0 * width + x0) (q (dist_result width height data)))
      by (rewrite Hq; intros []).
    pose proof (Hpr (y0 * width + x0) ltac:(lia) Hnq x y) as Hb.
    rewrite idx_mod, idx_div in Hb by exact Hx0. specialize (Hb Ha Ho). lia.
Qed.

Lemma dist_result_sound (p : nat) (v : Z) :
  dist (dist_result width height data) !! p = Some v -> (0 <= v)%Z ->
  dl (Z.to_nat v) (p mod width) (p / width).
Proof.
  destruct dist_result_inv as [L [HL Hq HLn HQ1 HQ2 Hr Hpr Hc]].
  intros Hp Hv. destruct (Hr p v Hp) as [->|(_ & _ & A)]; [lia|exact A].
Qed.

End Phase2Proofs.

(** ** The clamp loop *)

Lemma clamp_lookup (dv d : list Z) (p i : nat) :
  p * 4 + 3 < length d ->
  clamp_px dv d p !! i = if (i =? p * 4 + 3) && clamp_cond dv d p then Some 255%Z else d !! i.
Proof.
  intros Hp. unfold clamp_px, clamp_cond.
  destruct (is_zero (alphaAt d p)); cbn [negb andb]; [rewrite andb_false_r; reflexivity|].
  destruct (KEEP_EDGE_PX <? default (-1)%Z (dv !! p))%Z; [|rewrite andb_false_r; reflexivity].
  rewrite andb_true_r, list_lookup_insert.
  destruct (Nat.eqb_spec i (p * 4 + 3)); case_decide; try reflexivity; lia.
Qed.

Lemma clamp_length (dv d : list Z) (p : nat) : length (clamp_px dv d p) = length d.
Proof. unfold clamp_px. destruct (is_zero _); [|destruct (_ <? _)%Z]; auto using length_insert. Qed.

Lemma clamp_alpha_other (dv d : list Z) (p q : nat) :
  q <> p -> alphaAt (clamp_px dv d p) q = alphaAt d q.
Proof.
  intros Hne. unfold clamp_px, alphaAt.
  destruct (is_zero _); [reflexivity|]. destruct (_ <? _)%Z; [|reflexivity].
  apply list_lookup_insert_ne. lia.
Qed.

Lemma fold_clamp (dv : list Z) (l : list nat) (d : list Z) (i : nat) :
  NoDup l -> (forall p, In p l -> p * 4 + 3 < length d) ->
  fold_left (clamp_px dv) l d !! i =
  if (i mod 4 =? 3) && existsb (Nat.eqb (i / 4)) l && clamp_cond dv d (i / 4)
  then Some 255%Z else d !! i.
Proof.
  revert d. induction l as [|a l IH]; intros d Hnd Hb.
  - cbn. rewrite andb_false_r. reflexivity.
  - cbn [fold_left existsb]. apply NoDup_cons in Hnd as [Ha Hnd].
    rewrite IH; [|exact Hnd|intros p Hp; rewrite clamp_length; apply Hb; right; exact Hp].
    rewrite clamp_lookup by (apply Hb; left; reflexivity).
    pose proof (Nat.div_mod_eq i 4) as Ei. pose proof (Nat.mod_upper_bound i 4 ltac:(lia)).
    destruct (Nat.eqb_spec (i / 4) a) as [E|E].
    + subst a. destruct (existsb (Nat.eqb (i / 4)) l) eqn:Ex.
      { apply existsb_eqb_In, list_elem_of_In in Ex. contradiction. }
      rewrite andb_false_r. cbn [andb orb].
      replace (i =? i / 4 * 4 + 3) with (i mod 4 =? 3); [rewrite andb_true_r; reflexivity|].
      destruct (Nat.eqb_spec (i mod 4) 3); destruct (Nat.eqb_spec i (i / 4 * 4 + 3));
        reflexivity || lia.
    + assert (Hc : clamp_cond dv (clamp_px dv d a) (i / 4) = clamp_cond dv d (i / 4))
        by (unfold clamp_cond; rewrite clamp_alpha_other by exact E; reflexivity).
      rewrite Hc. cbn [orb].
      replace (i =? a * 4 + 3) with false by (symmetry; apply Nat.eqb_neq; lia).
      reflexivity.
Qed.

Lemma phase2_lookup (w h : nat) (d : list Z) (i : nat) :
  length d = 4 * (w * h) ->
  phase2 w h d !! i =
  if (i mod 4 =? 3) && (i / 4 <? w * h) && clamp_cond (dist (dist_result w h d)) d (i / 4)
  then Some 255%Z else d !! i.
Proof.
  intros Hl. unfold phase2. rewrite fold_clamp.
  - replace (existsb (Nat.eqb (i / 4)) (seq 0 (w * h))) with (i / 4 <? w * h); [reflexivity|].
    destruct (Nat.ltb_spec (i / 4) (w * h)).
    + symmetry. apply existsb_eqb_In, in_seq. lia.
    + destruct (existsb (Nat.eqb (i / 4)) (seq 0 (w * h))) eqn:Ex; [|reflexivity].
      apply existsb_eqb_In, in_seq in Ex. lia.
  - apply NoDup_seq.
  - intros p Hp. apply in_seq in Hp. lia.
Qed.

Lemma phase2_alpha (w h : nat) (d : list Z) (p : nat) :
  length d = 4 * (w * h) -> p < w * h ->
  alphaAt (phase2 w h d) p =
  if clamp_cond (dist (dist_result w h d)) d p then Some 255%Z else alphaAt d p.
Proof.
  intros Hl Hp. unfold alphaAt at 1. rewrite phase2_lookup by exact Hl.
  replace ((p * 4 + 3) mod 4) with 3 by (rewrite Nat.add_comm, Nat.Div0.mod_add; reflexivity).
  replace ((p * 4 + 3) / 4) with p by (symmetry; apply div4_iff; lia).
  rewrite (proj2 (Nat.ltb_lt _ _) Hp). reflexivity.
Qed.

Lemma phase1_length (w h : nat) (d : list Z) : length (phase1 w h d) = length d.
Proof.
  unfold phase1. apply (fold_left_inv (fun d' => length d' = length d)); [|reflexivity].
  intros d' p _ H. unfold fill_hole.
  destruct (negb _); [exact H|]. destruct (default false _); [exact H|].
  rewrite !length_insert. exact H.
Qed.

Lemma phase1_decodable (img : png) :
  decodable img ->
  decodable (mkPng (width img) (height img)
               (phase1 (width img) (height img) (data img))).
Proof.
  intros (Hl & Hb & Hs). split; [|split]; cbn [width height data].
  - rewrite phase1_length. exact Hl.
  - apply Forall_lookup. intros i v Hi. rewrite phase1_lookup in Hi.
    destruct (_ && _); [injection Hi as <-; lia|].
    rewrite Forall_lookup in Hb. exact (Hb i v Hi).
  - exact Hs.
Qed.

(** C2: on a decodable image, phase 2 sets to exactly 255 the alpha of
    every alpha > 0 pixel whose 4-connected distance through alpha > 0
    pixels to the nearest edge pixel (alpha > 0 with an alpha 0 8-neighbour
    or on the canvas border) exceeds 2, and keeps the phase 1 alpha of every
    alpha > 0 pixel within distance 2. Distances, opacity and edges are
    taken on the phase 1 output, which is phase 2's input. *)
Theorem phase2_clamps_interior (img : png) (x y : nat) (a : Z) :
  decodable img -> x < width img -> y < height img ->
  let d1 := phase1 (width img) (height img) (data img) in
  alphaAt d1 (y * width img + x) = Some a -> (0 < a)%Z ->
  (~ dle (width img) (height img) d1 2 x y ->
     alphaAt (data (makeInteriorOpaque img)) (y * width img + x) = Some 255%Z) /\
  (dle (width img) (height img) d1 2 x y ->
     alphaAt (data (makeInteriorOpaque img)) (y * width img + x) = Some a).
Proof.
  intros Hdec Hx Hy d1 Ha Hpos.
  destruct (phase1_decodable img Hdec) as (Hl1 & Hb1 & Hs1). cbn [width height data] in *.
  fold d1 in Hl1, Hb1.
  set (w := width img) in *. set (h := height img) in *.
  assert (Hp : y * w + x < w * h) by (apply idx_lt; auto).
  assert (Ho : opaque_at w h d1 x y) by (repeat split; auto; exists a; auto).
  unfold makeInteriorOpaque. cbn [data]. fold w h d1.
  rewrite phase2_alpha by assumption.
  unfold clamp_cond. rewrite Ha. cbn [is_zero negb andb].
  replace (a =? 0)%Z with false by (symmetry; apply Z.eqb_neq; lia). cbn [negb andb].
  set (v := default (-1)%Z (dist (dist_result w h d1) !! (y * w + x))).
  assert (Hv : forall j, dle w h d1 j x y -> (0 <= v <= Z.of_nat j)%Z)
    by (intros j Hj; exact (dist_result_complete w h d1 Hl1 Hb1 Hs1 j x y Hj)).
  split.
  - intros Hn. destruct (dle_bounded w h d1 Hl1 Hb1 Hs1 x y Ho) as (k & Hk & _).
    pose proof (Hv k Hk) as Hvk.
    destruct (Z.ltb_spec KEEP_EDGE_PX v) as [Hlt|Hge]; [reflexivity|exfalso].
    apply Hn. pose proof (val_assigned (dist_result w h d1) (y * w + x)) as Hd.
    fold v in Hd. unfold val in Hd. fold v in Hd. specialize (Hd ltac:(lia)).
    pose proof (dist_result_sound w h d1 Hl1 Hb1 Hs1 _ _ Hd ltac:(lia)) as Hs.
    rewrite idx_mod, idx_div in Hs by exact Hx.
    apply (dle_mono _ _ _ _ _ _ _ Hs). unfold KEEP_EDGE_PX in Hge. lia.
  - intros Hd. pose proof (Hv 2 Hd) as Hv2.
    destruct (Z.ltb_spec KEEP_EDGE_PX v) as [Hlt|Hge]; [unfold KEEP_EDGE_PX in Hlt; lia|].
    reflexivity.
Qed.

Lemma phase2_clamps_interior_witness :
  decodable (mkPng 7 7 (solid 49 100)) /\ 3 < 7 /\ 3 < 7 /\
  alphaAt (phase1 7 7 (solid 49 100)) (3 * 7 + 3) = Some 100%Z /\ (0 < 100)%Z /\
  (~ dle 7 7 (phase1 7 7 (solid 49 100)) 2 3 3 ->
     alphaAt (data (makeInteriorOpaque (mkPng 7 7 (solid 49 100)))) (3 * 7 + 3) = Some 255%Z) /\
  (dle 7 7 (phase1 7 7 (solid 49 100)) 2 3 3 ->
     alphaAt (data (makeInteriorOpaque (mkPng 7 7 (solid 49 100)))) (3 * 7 + 3) = Some 100%Z).
Proof.
  assert (D : decodable (mkPng 7 7 (solid 49 100))).
  { split; [reflexivity|split; [|cbn [width height]; lia]].
    unfold solid, px; cbn. repeat (apply List.Forall_cons; [lia|]). apply List.Forall_nil. }
  assert (A : alphaAt (phase1 7 7 (solid 49 100)) (3 * 7 + 3) = Some 100%Z)
    by (vm_compute; reflexivity).
  refine (conj D (conj _ (conj _ (conj A (conj _ _))))); [lia|lia|lia|].
  apply (phase2_clamps_interior (mkPng 7 7 (solid 49 100)) 3 3 100%Z D); [cbn; lia|cbn; lia|exact A|lia].
Defined.
Lemma phase2_length (w h : nat) (d : list Z) : length (phase2 w h d) = length d.
Proof.
  unfold phase2. apply (fold_left_inv (fun d' => length d' = length d)); [|reflexivity].
  intros d' p _ H. rewrite clamp_length. exact H.
Qed.

(** C9: the alpha normalization keeps the width, the height and the buffer
    length, never lowers the alpha of a pixel, and changes an RGB byte only
    at an alpha 0 pixel with no alpha 0 path to the border (an enclosed
    hole), where the byte becomes 255. *)
Theorem makeInteriorOpaque_frame (img : png) :
  decodable img ->
  let out := makeInteriorOpaque img in
  width out = width img /\ height out = height img /\
  length (data out) = length (data img) /\
  forall x y, x < width img -> y < height img ->
    (forall a a', alphaAt (data img) (y * width img + x) = Some a ->
       alphaAt (data out) (y * width img + x) = Some a' -> (a <= a')%Z) /\
    (forall c, c < 3 ->
       data out !! ((y * width img + x) * 4 + c) = data img !! ((y * width img + x) * 4 + c) \/
       (alphaAt (data img) (y * width img + x) = Some 0%Z /\
        ~ border_reach (width img) (height img) (data img) x y /\
        data out !! ((y * width img + x) * 4 + c) = Some 255%Z)).
Proof.
  intros Hdec out. pose proof Hdec as (Hl & Hb & Hs).
  destruct (phase1_decodable img Hdec) as (Hl1 & _ & _). cbn [width height data] in Hl1.
  unfold out, makeInteriorOpaque. cbn [width height data].
  set (w := width img) in *. set (h := height img) in *. set (d := data img) in *.
  split; [reflexivity|split; [reflexivity|split]].
  { rewrite phase2_length, phase1_length. reflexivity. }
  intros x y Hx Hy. set (p := y * w + x).
  assert (Hp : p < w * h) by (apply idx_lt; auto).
  split.
  - intros a a' Ha Ha'. rewrite phase2_alpha in Ha' by assumption.
    assert (Hab : (0 <= a <= 255)%Z).
    { unfold alphaAt in Ha. rewrite Forall_lookup in Hb. exact (Hb _ _ Ha). }
    destruct (clamp_cond _ _ _); [injection Ha' as <-; lia|].
    unfold alphaAt in Ha'. rewrite phase1_lookup in Ha'.
    destruct (_ && _); [injection Ha' as <-; lia|]. unfold alphaAt in Ha; rewrite Ha in Ha'. injection Ha' as <-. lia.
  - intros c Hc. rewrite phase2_lookup by assumption.
    assert (Hm : (p * 4 + c) mod 4 = c)
      by (rewrite Nat.add_comm, Nat.Div0.mod_add; apply Nat.mod_small; lia).
    assert (Hd : (p * 4 + c) / 4 = p) by (apply div4_iff; lia).
    rewrite Hm. replace (c =? 3) with false by (symmetry; apply Nat.eqb_neq; lia).
    cbn [andb]. rewrite phase1_lookup, Hd.
    destruct ((p <? w * h) && hole (bg (flood_result w h d)) d p) eqn:E; [right|left; reflexivity].
    apply andb_true_iff in E as [_ E]. unfold hole in E. apply andb_true_iff in E as [E1 E2].
    apply is_zero_true in E1. split; [exact E1|]. split; [|reflexivity].
    intros Hr. apply (flood_result_spec w h d Hl x y Hx Hy) in Hr. unfold bg_at in Hr.
    fold p in Hr. rewrite Hr in E2. discriminate.
Qed.

Lemma makeInteriorOpaque_frame_witness :
  decodable (mkPng 3 3 ring3) /\
  (let out := makeInteriorOpaque (mkPng 3 3 ring3) in
  width out = 3 /\ height out = 3 /\ length (data out) = length ring3 /\
  forall x y, x < 3 -> y < 3 ->
    (forall a a', alphaAt ring3 (y * 3 + x) = Some a ->
       alphaAt (data out) (y * 3 + x) = Some a' -> (a <= a')%Z) /\
    (forall c, c < 3 ->
       data out !! ((y * 3 + x) * 4 + c) = ring3 !! ((y * 3 + x) * 4 + c) \/
       (alphaAt ring3 (y * 3 + x) = Some 0%Z /\ ~ border_reach 3 3 ring3 x y /\
        data out !! ((y * 3 + x) * 4 + c) = Some 255%Z))).
Proof.
  assert (D : decodable (mkPng 3 3 ring3)).
  { split; [reflexivity|split; [|cbn [width height]; lia]].
    unfold ring3, px; simpl. repeat (apply List.Forall_cons; [lia|]). apply List.Forall_nil. }
  split; [exact D|]. exact (makeInteriorOpaque_frame (mkPng 3 3 ring3) D).
Defined.

Example phase1_ring3 :
  phase1 3 3 ring3 =
  px 9 9 9 200 ++ px 9 9 9 200 ++ px 9 9 9 200 ++
  px 9 9 9 200 ++ px 255 255 255 255 ++ px 9 9 9 200 ++
  px 9 9 9 200 ++ px 9 9 9 200 ++ px 4 5 6 0.
Proof. vm_compute. reflexivity. Qed.

Example phase2_7x7 :
  map (fun p => nth (p * 4 + 3) (phase2 7 7 (solid 49 100)) 0%Z) (seq 0 49) =
  [100;100;100;100;100;100;100;
   100;100;100;100;100;100;100;
   100;100;100;100;100;100;100;
   100;100;100;255;100;100;100;
   100;100;100;100;100;100;100;
   100;100;100;100;100;100;100;
   100;100;100;100;100;100;100]%Z.
Proof. vm_compute. reflexivity. Qed.

(* ------------------------------------------------------------------ *)
(** ** The resize *)

(** A fold of steps that each either write the fixed value [g] at index
    [i] or leave it alone. *)
Lemma fold_pointwise {A} (st : list Z -> A -> list Z) (P : A -> bool) (g : Z)
    (n i : nat) (l : list A) (d : list Z) :
  (forall d a, In a l -> length d = n ->
     length (st d a) = n /\ st d a !! i = if P a then Some g else d !! i) ->
  length d = n ->
  length (fold_left st l d) = n /\
  fold_left st l d !! i = if existsb P l then Some g else d !! i.
Proof.
  revert d. induction l as [|a l IH]; intros d Hst Hd; [split; [exact Hd|reflexivity]|].
  cbn [fold_left existsb].
  destruct (Hst d a (or_introl eq_refl) Hd) as [L1 E1].
  destruct (IH (st d a)) as [L2 E2].
  { intros d' b Hb Hd'. apply Hst; [right|]; assumption. }
  { exact L1. }
  split; [exact L2|]. rewrite E2, E1. destruct (P a), (existsb P l); reflexivity.
Qed.

Lemma mod4_idx (q c : nat) : c < 4 -> (q * 4 + c) mod 4 = c.
Proof. intros. rewrite Nat.add_comm, Nat.Div0.mod_add. apply Nat.mod_small; lia. Qed.

Section ResizeProofs.
Variable src : png.
Variables dstW dstH : nat.

Local Abbreviation sx_of p := (inv_x src dstW dstH (p mod dstW)).
Local Abbreviation sy_of p := (inv_y src dstW dstH (p / dstW)).

Lemma write_px_spec (d : list Z) (x y i : nat) :
  x < dstW -> y < dstH -> length d = 4 * (dstW * dstH) ->
  length (write_px src dstW dstH d x y) = 4 * (dstW * dstH) /\
  write_px src dstW dstH d x y !! i =
  if (i / 4 =? y * dstW + x) && negb (outside src (sx_of (i / 4)) (sy_of (i / 4)))
  then Some (to_uint8 (sample src (i mod 4) (sx_of (i / 4)) (sy_of (i / 4))))
  else d !! i.
Proof.
  intros Hx Hy Hd. unfold write_px.
  destruct (outside src (inv_x src dstW dstH x) (inv_y src dstW dstH y)) eqn:Hin.
  - split; [exact Hd|].
    destruct (Nat.eqb_spec (i / 4) (y * dstW + x)) as [E|E].
    + rewrite E, idx_mod, idx_div, Hin by lia. reflexivity.
    + reflexivity.
  - destruct (fold_pointwise
      (fun d c => <[(y * dstW + x) * 4 + c :=
                    to_uint8 (sample src c (inv_x src dstW dstH x) (inv_y src dstW dstH y))]> d)
      (fun c => i =? (y * dstW + x) * 4 + c)
      (to_uint8 (sample src (i mod 4) (inv_x src dstW dstH x) (inv_y src dstW dstH y)))
      (4 * (dstW * dstH)) i (seq 0 4) d) as [L R].
    { intros d' c Hc Hd'. apply in_seq in Hc. rewrite length_insert. split; [exact Hd'|].
      rewrite list_lookup_insert.
      destruct (Nat.eqb_spec i ((y * dstW + x) * 4 + c)) as [->|Ne].
      - rewrite decide_True by (split; [reflexivity|nia]). rewrite mod4_idx by lia. reflexivity.
      - rewrite decide_False by lia. reflexivity. }
    { exact Hd. }
    split; [exact L|]. rewrite R.
    destruct (Nat.eqb_spec (i / 4) (y * dstW + x)) as [E|E].
    + rewrite E, idx_mod, idx_div, Hin by lia. cbn [andb negb].
      rewrite (proj2 (existsb_exists _ _)); [reflexivity|].
      exists (i mod 4). split.
      * apply in_seq. pose proof (Nat.mod_upper_bound i 4). lia.
      * apply Nat.eqb_eq. rewrite <- E. pose proof (Nat.div_mod_eq i 4). lia.
    + cbn [andb]. destruct (existsb _ _) eqn:Ex; [|reflexivity].
      apply existsb_exists in Ex as (c & Hc & Ec). apply in_seq in Hc.
      apply Nat.eqb_eq in Ec. exfalso. apply E, div4_iff. lia.
Qed.

Lemma resize_data_spec (i : nat) :
  length (data (resizeContainBilinear src dstW dstH)) = 4 * (dstW * dstH) /\
  (i < 4 * (dstW * dstH) ->
   data (resizeContainBilinear src dstW dstH) !! i =
   Some (if outside src (sx_of (i / 4)) (sy_of (i / 4)) then 0%Z
         else to_uint8 (sample src (i mod 4) (sx_of (i / 4)) (sy_of (i / 4))))).
Proof.
  set (cond := negb (outside src (sx_of (i / 4)) (sy_of (i / 4)))).
  set (g := to_uint8 (sample src (i mod 4) (sx_of (i / 4)) (sy_of (i / 4)))).
  unfold resizeContainBilinear. cbn [data].
  destruct (fold_pointwise
    (fun d y => fold_left (fun d x => write_px src dstW dstH d x y) (seq 0 dstW) d)
    (fun y => existsb (fun x => (i / 4 =? y * dstW + x) && cond) (seq 0 dstW))
    g (4 * (dstW * dstH)) i (seq 0 dstH) (replicate (4 * (dstW * dstH)) 0%Z)) as [L R].
  { intros d y Hy Hd. apply in_seq in Hy.
    apply (fold_pointwise (fun d x => write_px src dstW dstH d x y)
             (fun x => (i / 4 =? y * dstW + x) && cond) g); [|exact Hd].
    intros d' x Hx Hd'. apply in_seq in Hx. apply write_px_spec; [lia|lia|exact Hd']. }
  { apply length_replicate. }
  split; [exact L|]. intros Hi. rewrite R, lookup_replicate_2 by exact Hi.
  assert (HW : dstW <> 0) by (intro; subst; lia).
  destruct cond eqn:Hc; destruct (outside src _ _) eqn:Ho; try discriminate Hc.
  - rewrite (proj2 (existsb_exists _ _)); [reflexivity|].
    exists (i / 4 / dstW). split.
    + apply in_seq. split; [lia|]. apply Nat.Div0.div_lt_upper_bound.
      apply Nat.Div0.div_lt_upper_bound. lia.
    + apply existsb_exists. exists (i / 4 mod dstW). split.
      * apply in_seq. pose proof (Nat.mod_upper_bound (i / 4) dstW HW). lia.
      * rewrite andb_true_r. apply Nat.eqb_eq. symmetry. apply idx_coords.
  - destruct (existsb _ _) eqn:Ex; [|reflexivity].
    apply existsb_exists in Ex as (y & _ & Ey).
    apply existsb_exists in Ey as (x & _ & Ex).
    rewrite andb_false_r in Ex. discriminate.
Qed.

End ResizeProofs.

Lemma Qfloor_frac (n : Z) (p : positive) : Qfloor (n # p) = (n / Zpos p)%Z.
Proof. reflexivity. Qed.

(** [v | 0] truncates: on a nonnegative number it is the floor. *)
Lemma js_trunc_floor (v : double) (q : Q) :
  d_value v = Some q -> (0 <= q)%Q -> js_trunc v = Qfloor q.
Proof.
  destruct v as [s|s| |s m e]; cbn [d_value js_trunc]; try discriminate.
  - intros [= <-] _. reflexivity.
  - destruct (Z.leb_spec 0 e) as [He|He]; intros [= <-] Hq; destruct s.
    + exfalso. cbv [Qle inject_Z Qnum Qden cond_Zopp] in Hq.
      assert (0 < Zpos m * 2 ^ e)%Z by (apply Z.mul_pos_pos; [lia|apply Z.pow_pos_nonneg; lia]).
      lia.
    + cbn [cond_Zopp]. rewrite Qfloor_Z, Z.shiftl_mul_pow2 by exact He. reflexivity.
    + exfalso. rewrite Qred_correct in Hq. cbv [Qle Qnum Qden cond_Zopp] in Hq. lia.
    + cbn [cond_Zopp]. rewrite (Qfloor_comp _ _ (Qred_correct _)), Qfloor_frac.
      assert (P : (0 < 2 ^ (- e))%Z) by (apply Z.pow_pos_nonneg; lia).
      rewrite Z2Pos.id by exact P.
      rewrite <- (Z.opp_involutive e) at 1.
      rewrite Z.shiftl_opp_r, Z.shiftr_div_pow2 by lia. reflexivity.
Qed.

Lemma trunc_byte (v : double) (q : Q) :
  d_value v = Some q -> (0 <= q < 256)%Q -> to_uint8 (to_int32 (js_trunc v)) = Qfloor q.
Proof.
  intros E [H0 H1]. rewrite (js_trunc_floor v q E H0).
  assert (B : (0 <= Qfloor q <= 255)%Z).
  { split.
    - rewrite <- (Qfloor_Z 0). apply Qfloor_resp_le. exact H0.
    - pose proof (Qfloor_le q) as F.
      assert (inject_Z (Qfloor q) < inject_Z 256)%Q by (change (inject_Z 256) with 256%Q; lra).
      rewrite <- Zlt_Qlt in H. lia. }
  unfold to_int32, to_uint8.
  rewrite (Z.mod_small (Qfloor q + 2 ^ 31)) by lia.
  replace (Qfloor q + 2 ^ 31 - 2 ^ 31)%Z with (Qfloor q) by lia.
  apply Z.mod_small. lia.
Qed.

Lemma resize_white4x4_check :
  forallb (fun x => forallb (fun y =>
    bool_decide (pixel (data (resizeContainBilinear white4x4 8 2)) (y * 8 + x) =
      if (3 <=? x) && (x <=? 4) then [Some 255; Some 255; Some 255; Some 255]%Z
      else [Some 0; Some 0; Some 0; Some 0]%Z)) (seq 0 2)) (seq 0 8) = true.
Proof. vm_compute. reflexivity. Qed.

Lemma resize_white4x4 (x y : nat) :
  x < 8 -> y < 2 ->
  pixel (data (resizeContainBilinear white4x4 8 2)) (y * 8 + x) =
  if (3 <=? x) && (x <=? 4) then [Some 255; Some 255; Some 255; Some 255]%Z
  else [Some 0; Some 0; Some 0; Some 0]%Z.
Proof.
  intros Hx Hy. pose proof resize_white4x4_check as C.
  rewrite forallb_forall in C. specialize (C x (proj2 (in_seq _ _ _) (conj (Nat.le_0_l x) Hx))).
  rewrite forallb_forall in C. specialize (C y (proj2 (in_seq _ _ _) (conj (Nat.le_0_l y) Hy))).
  apply bool_decide_eq_true in C. exact C.
Qed.

(** Claim C3. For any source and any target [dstW x dstH],
    [resizeContainBilinear] returns a [dstW x dstH] image. A destination
    pixel whose inverse-mapped point [(sx, sy)], computed in doubles,
    fails the source-bounds test ([sx < 0], [sy < 0], [sx > W-1] or
    [sy > H-1]) has all four channels 0. Inside, each channel is
    [v | 0] of the bilinear value [v] computed in doubles, stored as a
    byte; that conversion truncates, so on a value [v] in [[0, 256)] it
    gives the floor of [v]. For the fully opaque white 4x4 source and
    the 8x2 target the scale is 1/2 with offsets 3 and 0, the pixels at
    [x = 3, 4] (both rows) are opaque white and the 12 others are all
    zero. *)
Theorem resizeContainBilinear_contain (src : png) (dstW dstH : nat) :
  let out := resizeContainBilinear src dstW dstH in
  width out = dstW /\ height out = dstH /\ length (data out) = 4 * (dstW * dstH) /\
  (forall x y c, x < dstW -> y < dstH -> c < 4 ->
     let sx := inv_x src dstW dstH x in
     let sy := inv_y src dstW dstH y in
     (outside src sx sy = true -> data out !! ((y * dstW + x) * 4 + c) = Some 0%Z) /\
     (outside src sx sy = false ->
      data out !! ((y * dstW + x) * 4 + c) =
      Some (to_uint8 (to_int32 (js_trunc (interp src c sx sy)))))) /\
  (forall v q, d_value v = Some q -> (0 <= q < 256)%Q ->
     to_uint8 (to_int32 (js_trunc v)) = Qfloor q) /\
  d_value (scale white4x4 8 2) = Some (1 # 2)%Q /\
  d_value (offX white4x4 8 2) = Some 3%Q /\ d_value (offY white4x4 8 2) = Some 0%Q /\
  (forall x y, x < 8 -> y < 2 ->
     pixel (data (resizeContainBilinear white4x4 8 2)) (y * 8 + x) =
     if (3 <=? x) && (x <=? 4) then [Some 255; Some 255; Some 255; Some 255]%Z
     else [Some 0; Some 0; Some 0; Some 0]%Z).
Proof.
  intros out.
  destruct (resize_data_spec src dstW dstH 0) as [L _].
  split; [reflexivity|]. split; [reflexivity|]. split; [exact L|].
  split; [|split; [exact trunc_byte|]].
  2:{ split; [vm_compute; reflexivity|]. split; [vm_compute; reflexivity|].
      split; [vm_compute; reflexivity|]. exact resize_white4x4. }
  intros x y c Hx Hy Hc sx sy.
  destruct (resize_data_spec src dstW dstH ((y * dstW + x) * 4 + c)) as [_ R].
  assert (Hi : (y * dstW + x) * 4 + c < 4 * (dstW * dstH)) by nia.
  specialize (R Hi).
  assert (E4 : ((y * dstW + x) * 4 + c) / 4 = y * dstW + x) by (apply div4_iff; lia).
  rewrite E4, mod4_idx, idx_mod, idx_div in R by lia.
  fold sx sy in R. fold out in R. split.
  - intros Ho. rewrite R, Ho. reflexivity.
  - intros Ho. rewrite R, Ho. reflexivity.
Qed.


(* ------------------------------------------------------------------ *)
(** ** The result fetch *)

Lemma scan_lines_some (json_parse : string -> option jsval) (customId : string)
    (lines : list string) (b : string) :
  scan_lines json_parse customId lines = Some b <->
  exists pre line post, lines = pre ++ line :: post /\
    record_payload json_parse customId line = Some b /\
    Forall (fun l => record_payload json_parse customId l = None) pre.
Proof.
  induction lines as [|l ls IH]; cbn [scan_lines].
  - split; [discriminate|]. intros (pre & line & post & E & _). destruct pre; discriminate.
  - destruct (record_payload json_parse customId l) as [b'|] eqn:El.
    + split.
      * intros [= <-]. exists [], l, ls. repeat split; [exact El|constructor].
      * intros (pre & line & post & E & Hl & Hpre). destruct pre as [|p pre].
        -- injection E as -> ->. congruence.
        -- injection E as -> _. apply List.Forall_cons_iff in Hpre as [Hp _]. congruence.
    + rewrite IH. split.
      * intros (pre & line & post & E & Hl & Hpre). exists (l :: pre), line, post.
        rewrite E. repeat split; [exact Hl|]. constructor; assumption.
      * intros (pre & line & post & E & Hl & Hpre). destruct pre as [|p pre].
        -- injection E as -> ->. congruence.
        -- injection E as -> E. apply List.Forall_cons_iff in Hpre as [_ Hpre].
           exists pre, line, post. repeat split; assumption.
Qed.

Lemma scan_lines_none (json_parse : string -> option jsval) (customId : string)
    (lines : list string) :
  scan_lines json_parse customId lines = None <->
  Forall (fun l => record_payload json_parse customId l = None) lines.
Proof.
  induction lines as [|l ls IH]; cbn [scan_lines].
  - split; [constructor|reflexivity].
  - rewrite List.Forall_cons_iff, <- IH.
    destruct (record_payload json_parse customId l); split; try discriminate; intuition.
Qed.

Lemma record_payload_iff (json_parse : string -> option jsval) (customId line b : string) :
  record_payload json_parse customId line = Some b <->
  exists obj, json_parse line = Some obj /\ prop obj "custom_id" = Some (JStr customId) /\
    b64_payload obj = Some b.
Proof.
  unfold record_payload. split.
  - destruct (json_parse line) as [obj|]; [|discriminate].
    destruct (prop obj "custom_id") as [cid|] eqn:Ec; [|discriminate].
    destruct (is_str cid customId) eqn:Es; [|discriminate].
    intros Hb. exists obj. split; [reflexivity|]. split; [|exact Hb].
    rewrite Ec. destruct cid; try discriminate. apply String.eqb_eq in Es. subst. reflexivity.
  - intros (obj & -> & -> & Hb). cbn [is_str]. rewrite String.eqb_refl. exact Hb.
Qed.

Lemma b64_payload_nonempty (obj : jsval) (b : string) :
  b64_payload obj = Some b -> b <> EmptyString.
Proof.
  unfold b64_payload. destruct (ochain _ "b64_json"); try discriminate.
  destruct (0 <? String.length s)%nat eqn:E; [|discriminate]. intros [= <-] ->. discriminate.
Qed.

Lemma tryGet_not_completed (json_parse : string -> option jsval)
    (respond : request -> http_response) (batchId customId : string) (st stv : jsval) :
  let stReq := Req "GET" ("/v1/batches/" ++ batchId) "" in
  r_ok (respond stReq) = true -> json_parse (r_text (respond stReq)) = Some st ->
  prop st "status" = Some stv -> is_str stv "completed" = false ->
  tryGetBatchResultImageBase64 json_parse respond batchId customId [] = ([stReq], Ok (NotDone stv)).
Proof.
  intros stReq Hok Hp Hs Hc.
  unfold tryGetBatchResultImageBase64, openaiFetch, res_json, get, of_option.
  unfold mbind, M_bind, mret, M_ret. fold stReq. cbn [app].
  rewrite Hok. cbn [negb]. rewrite Hp, Hs, Hc. reflexivity.
Qed.

Lemma tryGet_completed (json_parse : string -> option jsval)
    (respond : request -> http_response) (batchId customId : string) (st stv outId : jsval) :
  let stReq := Req "GET" ("/v1/batches/" ++ batchId) "" in
  let outReq := Req "GET" ("/v1/files/" ++ js_to_string outId ++ "/content") "" in
  r_ok (respond stReq) = true -> json_parse (r_text (respond stReq)) = Some st ->
  prop st "status" = Some stv -> is_str stv "completed" = true ->
  prop st "output_file_id" = Some outId -> truthy outId = true ->
  r_ok (respond outReq) = true ->
  tryGetBatchResultImageBase64 json_parse respond batchId customId [] =
  ([stReq; outReq],
   match scan_lines json_parse customId (split_lines (r_text (respond outReq))) with
   | Some b64 => Ok (Done b64)
   | None => Exn no_result_msg
   end).
Proof.
  intros stReq outReq Hok Hp Hs Hc Ho Ht Hok2.
  unfold tryGetBatchResultImageBase64, openaiFetch, res_json, get, of_option.
  unfold mbind, M_bind, mret, M_ret, throw. fold stReq. cbn [app].
  rewrite Hok. cbn [negb]. rewrite Hp, Hs, Hc. cbn [negb]. rewrite Ho, Ht. cbn [negb].
  fold outReq. cbn [app]. rewrite Hok2. cbn [negb].
  destruct (scan_lines _ _ _); reflexivity.
Qed.



Lemma record_payload_none_iff (json_parse : string -> option jsval) (customId line : string) :
  record_payload json_parse customId line = None <->
  forall obj, json_parse line = Some obj -> prop obj "custom_id" = Some (JStr customId) ->
    b64_payload obj = None.
Proof.
  split.
  - intros H obj Hp Hc. destruct (b64_payload obj) as [b|] eqn:Hb; [|reflexivity].
    assert (record_payload json_parse customId line = Some b)
      by (apply record_payload_iff; exists obj; auto).
    congruence.
  - intros H. destruct (record_payload json_parse customId line) as [b|] eqn:E; [|reflexivity].
    apply record_payload_iff in E as (obj & Hp & Hc & Hb). rewrite (H obj Hp Hc) in Hb.
    discriminate.
Qed.

(** Claim C4. Once the status query succeeds with status [stv]: if [stv]
    is not ["completed"], the fetch returns [{done: false, status: stv}]
    after that single request, without fetching the output file. If it is
    ["completed"] (and the output file id is set and its content fetched),
    the fetch returns [{done: true, b64}] exactly when [b64] is the
    payload of the first line that parses, carries the correlation id and
    a non-empty [b64_json], every earlier line lacking one of these; when
    no line has all three it throws the terminal "no matching image
    result" error, not a not-done result. An earlier record with the
    matching id but no payload is skipped, so the returned payload need not
    come from the first record with the matching id. *)
Theorem tryGetBatchResultImageBase64_resolution (json_parse : string -> option jsval)
    (respond : request -> http_response) (batchId customId : string) (st stv : jsval) :
  let stReq := Req "GET" ("/v1/batches/" ++ batchId) "" in
  let run := tryGetBatchResultImageBase64 json_parse respond batchId customId [] in
  r_ok (respond stReq) = true -> json_parse (r_text (respond stReq)) = Some st ->
  prop st "status" = Some stv ->
  (is_str stv "completed" = false -> run = ([stReq], Ok (NotDone stv))) /\
  (is_str stv "completed" = true ->
   forall outId, prop st "output_file_id" = Some outId -> truthy outId = true ->
   let outReq := Req "GET" ("/v1/files/" ++ js_to_string outId ++ "/content") "" in
   r_ok (respond outReq) = true ->
   let lines := split_lines (r_text (respond outReq)) in
   fst run = [stReq; outReq] /\
   (forall b64, snd run = Ok (Done b64) <->
      exists pre line post, lines = pre ++ line :: post /\
        (exists obj, json_parse line = Some obj /\
           prop obj "custom_id" = Some (JStr customId) /\ b64_payload obj = Some b64) /\
        b64 <> EmptyString /\
        Forall (fun l => forall obj, json_parse l = Some obj ->
                  prop obj "custom_id" = Some (JStr customId) -> b64_payload obj = None) pre) /\
   (snd run = Exn no_result_msg <->
      Forall (fun l => forall obj, json_parse l = Some obj ->
                prop obj "custom_id" = Some (JStr customId) -> b64_payload obj = None) lines)).
Proof.
  intros stReq run Hok Hp Hs. split.
  - intros Hc. exact (tryGet_not_completed json_parse respond batchId customId st stv Hok Hp Hs Hc).
  - intros Hc outId Ho Ht outReq Hok2 lines.
    unfold run. rewrite (tryGet_completed json_parse respond batchId customId st stv outId
                           Hok Hp Hs Hc Ho Ht Hok2).
    fold outReq lines. cbn [fst snd]. split; [reflexivity|]. split.
    + intros b64. split.
      * destruct (scan_lines json_parse customId lines) as [b|] eqn:E; [|discriminate].
        intros [= <-]. apply scan_lines_some in E as (pre & line & post & El & Hl & Hpre).
        pose proof Hl as Hl'. apply record_payload_iff in Hl' as (obj & H1 & H2 & H3).
        exists pre, line, post. split; [exact El|]. split; [exists obj; auto|].
        split; [exact (b64_payload_nonempty _ _ H3)|].
        eapply List.Forall_impl; [|exact Hpre]. intros l Hn. apply record_payload_none_iff, Hn.
      * intros (pre & line & post & El & Hl & _ & Hpre).
        assert (E : scan_lines json_parse customId lines = Some b64).
        { apply scan_lines_some. exists pre, line, post. split; [exact El|]. split.
          - apply record_payload_iff, Hl.
          - eapply List.Forall_impl; [|exact Hpre]. intros l Hn. apply record_payload_none_iff, Hn. }
        rewrite E. reflexivity.
    + split.
      * destruct (scan_lines json_parse customId lines) eqn:E; [discriminate|]. intros _.
        apply scan_lines_none in E. eapply List.Forall_impl; [|exact E].
        intros l Hn. apply record_payload_none_iff, Hn.
      * intros H.
        assert (E : scan_lines json_parse customId lines = None).
        { apply scan_lines_none. eapply List.Forall_impl; [|exact H].
          intros l Hn. apply record_payload_none_iff, Hn. }
        rewrite E. reflexivity.
Qed.

Lemma tryGetBatchResultImageBase64_resolution_witness :
  fst (tryGetBatchResultImageBase64 demo_parse demo_respond "batch_1" "c1" []) =
  [Req "GET" "/v1/batches/batch_1" ""; Req "GET" "/v1/files/file_1/content" ""].
Proof.
  destruct (tryGetBatchResultImageBase64_resolution demo_parse demo_respond "batch_1" "c1"
              demo_status (JStr "completed")) as [_ H]; [reflexivity..|].
  destruct (H ltac:(reflexivity) (JStr "file_1") ltac:(reflexivity) ltac:(reflexivity)
              ltac:(reflexivity)) as [F _].
  exact F.
Defined.

(** Claim C4, counterexample: the output file holds two records for [c1],
    the first without an image. The record the spec describes (the first
    whose correlation id matches) has no payload, yet the fetch returns the
    payload of the second record. *)
Lemma tryGetBatchResultImageBase64_first_match_counterexample :
  let lines := split_lines demo_output in
  hd_error lines = Some (to_json (demo_record "c1" "")) /\
  demo_parse (to_json (demo_record "c1" "")) = Some (demo_record "c1" "") /\
  spec_first_match demo_parse "c1" lines = None /\
  tryGetBatchResultImageBase64 demo_parse demo_respond "batch_1" "c1" [] =
  ([Req "GET" "/v1/batches/batch_1" ""; Req "GET" "/v1/files/file_1/content" ""],
   Ok (Done "QUJD")).
Proof. vm_compute. repeat split. Qed.

(* ------------------------------------------------------------------ *)
(** ** Submission: [POST /api/batch-csv] *)




Lemma drop_ws_suffix (l : list (list ascii)) : exists w, l = w ++ drop_ws l.
Proof.
  induction l as [|c l IH]; [exists []; reflexivity|]. cbn [drop_ws].
  destruct (is_ws c); [destruct IH as [w Hw]; exists (c :: w); cbn; f_equal; exact Hw|].
  exists []. reflexivity.
Qed.

Lemma drop_ws_stop (l : list (list ascii)) :
  match l with [] => True | c :: _ => is_ws c = false end -> drop_ws l = l.
Proof. destruct l as [|c l]; [reflexivity|]. cbn [drop_ws]. intros ->. reflexivity. Qed.

Lemma drop_ws_head (l : list (list ascii)) :
  match drop_ws l with [] => True | c :: _ => is_ws c = false end.
Proof.
  induction l as [|c l IH]; [exact I|]. cbn [drop_ws]. destruct (is_ws c) eqn:E; [exact IH|].
  exact E.
Qed.

Lemma chunks_wf (l : list ascii) : wf_chunks (chunks l).
Proof.
  induction l as [|b l [IH1 IH2]]; [split; constructor|]. cbn [chunks].
  destruct (chunks l) as [|ch cs] eqn:E.
  - split; [repeat constructor|constructor].
  - apply List.Forall_cons_iff in IH1 as [Hch Hcs]. cbn [tail] in IH2.
    destruct ch as [|c t]; [destruct Hch|].
    destruct (is_cont c) eqn:Ec.
    + split; [|exact IH2]. constructor; [|exact Hcs]. cbn. rewrite Ec. exact Hch.
    + split; [repeat constructor; assumption|]. cbn [tail]. constructor; [exact Ec|exact IH2].
Qed.

Lemma chunks_app_chunk (c rest : list ascii) :
  chunk_ok c ->
  match chunks rest with [] => True | h :: _ => starts_new h end ->
  chunks (c ++ rest) = c :: chunks rest.
Proof.
  destruct c as [|b t]; [intros []|]. cbn [chunk_ok]. revert b.
  induction t as [|x t IH]; intros b Ht Hr.
  - cbn [app chunks]. destruct (chunks rest) as [|[|c0 h] cs]; [reflexivity|destruct Hr|].
    cbn in Hr. rewrite Hr. reflexivity.
  - cbn [forallb] in Ht. apply andb_true_iff in Ht as [Hx Ht].
    change ((b :: x :: t) ++ rest) with (b :: ((x :: t) ++ rest)). cbn [chunks].
    rewrite (IH x Ht Hr). rewrite Hx. reflexivity.
Qed.

Lemma concat_chunks (cs : list (list ascii)) : wf_chunks cs -> chunks (concat cs) = cs.
Proof.
  induction cs as [|c cs IH]; [reflexivity|]. intros [H1 H2].
  apply List.Forall_cons_iff in H1 as [Hc Hcs]. cbn [tail] in H2.
  assert (Wcs : wf_chunks cs).
  { split; [exact Hcs|]. destruct cs; [constructor|]. cbn [tail].
    apply List.Forall_cons_iff in H2 as [_ H2]. exact H2. }
  cbn [concat]. rewrite chunks_app_chunk; [rewrite (IH Wcs); reflexivity|exact Hc|].
  rewrite (IH Wcs). destruct cs as [|c' cs]; [exact I|].
  apply List.Forall_cons_iff in H2 as [H2 _]. exact H2.
Qed.

Lemma wf_chunks_app_r (w r : list (list ascii)) : wf_chunks (w ++ r) -> wf_chunks r.
Proof.
  intros [H1 H2]. apply List.Forall_app in H1 as [_ H1]. split; [exact H1|].
  destruct w as [|c w]; [exact H2|]. cbn [app tail] in H2.
  apply List.Forall_app in H2 as [_ H2]. destruct r; [constructor|].
  apply List.Forall_cons_iff in H2 as [_ H2]. exact H2.
Qed.

Lemma wf_chunks_app_l (p w : list (list ascii)) : wf_chunks (p ++ w) -> wf_chunks p.
Proof.
  intros [H1 H2]. apply List.Forall_app in H1 as [H1 _]. split; [exact H1|].
  destruct p as [|c p]; [constructor|]. cbn [app tail] in H2.
  apply List.Forall_app in H2 as [H2 _]. exact H2.
Qed.

Lemma wf_drop_ws (cs : list (list ascii)) : wf_chunks cs -> wf_chunks (drop_ws cs).
Proof.
  intros W. destruct (drop_ws_suffix cs) as [w Hw]. rewrite Hw in W.
  exact (wf_chunks_app_r _ _ W).
Qed.

Lemma wf_trim_chunks (cs : list (list ascii)) :
  wf_chunks cs -> wf_chunks (rev (drop_ws (rev (drop_ws cs)))).
Proof.
  intros W. apply wf_drop_ws in W. set (u := drop_ws cs) in *.
  destruct (drop_ws_suffix (rev u)) as [w Hw].
  apply (f_equal (@rev (list ascii))) in Hw. rewrite rev_involutive, rev_app_distr in Hw.
  rewrite Hw in W. exact (wf_chunks_app_l _ _ W).
Qed.




(** [s.trim()] is idempotent. *)
Lemma trim_idem (s : string) : trim (trim s) = trim s.
Proof.
  unfold trim.
  rewrite list_ascii_of_string_of_list_ascii.
  rewrite concat_chunks by (apply wf_trim_chunks, chunks_wf).
  f_equal. f_equal.
  set (u := drop_ws (chunks (list_ascii_of_string s))).
  set (v := drop_ws (rev u)).
  assert (Hv : drop_ws v = v) by (apply drop_ws_stop, drop_ws_head).
  assert (Hu : drop_ws (rev v) = rev v).
  { destruct (drop_ws_suffix (rev u)) as [w Hw]. fold v in Hw.
    apply (f_equal (@rev (list ascii))) in Hw. rewrite rev_involutive, rev_app_distr in Hw.
    apply drop_ws_stop. pose proof (drop_ws_head (chunks (list_ascii_of_string s))) as Hh.
    fold u in Hh. rewrite Hw in Hh. destruct (rev v); [exact I|exact Hh]. }
  rewrite Hu, rev_involutive, Hv. reflexivity.
Qed.


Lemma build_lines_imap (json_stringify : jsval -> string) (IMAGE_MODEL IMAGE_QUALITY : string)
    (buildPrompt : string -> string -> string) (ts : Z) (items : list item) :
  build_lines json_stringify IMAGE_MODEL IMAGE_QUALITY buildPrompt ts items =
  (imap (fun i it => json_stringify
           (request_line IMAGE_MODEL IMAGE_QUALITY buildPrompt (csv_custom_id ts i) it)) items,
   imap (fun i it => out_item (csv_custom_id ts i) it) items).
Proof.
  unfold build_lines.
  assert (G : forall k, k <= length items ->
    fold_left (fun '(lines, outItems) i =>
       let it := nth i items (mkItem "" "") in
       let custom_id := csv_custom_id ts i in
       (lines ++ [json_stringify (request_line IMAGE_MODEL IMAGE_QUALITY buildPrompt custom_id it)],
        outItems ++ [out_item custom_id it])) (seq 0 k) ([], []) =
    (imap (fun i it => json_stringify
             (request_line IMAGE_MODEL IMAGE_QUALITY buildPrompt (csv_custom_id ts i) it))
          (take k items),
     imap (fun i it => out_item (csv_custom_id ts i) it) (take k items))).
  { induction k as [|k IH]; intros Hk; [reflexivity|].
    rewrite seq_S, fold_left_app, IH by lia. cbn [fold_left].
    destruct (lookup_lt_is_Some_2 items k) as [it Hit]; [lia|].
    rewrite (take_S_r _ _ _ Hit), !imap_app, (nth_lookup_Some _ _ _ _ Hit).
    rewrite length_take_le by lia. cbn [imap]. rewrite Nat.add_0_r. reflexivity. }
  rewrite G by lia. rewrite take_ge by lia. reflexivity.
Qed.






(** ** The polling loop of [GET /api/generate] *)

Lemma timer_delay_pos (I : Z) : (1 <= timer_delay I)%Z.
Proof.
  unfold timer_delay. destruct (1 <=? I)%Z eqn:E1, (I <=? 2147483647)%Z eqn:E2;
    cbn [andb]; lia.
Qed.

Lemma timer_delay_le (I : Z) : (0 <= I)%Z -> (timer_delay I - 1 <= I)%Z.
Proof.
  unfold timer_delay. destruct (1 <=? I)%Z, (I <=? 2147483647)%Z; cbn [andb]; lia.
Qed.

Lemma elapsed_step (e d : Z) (k m : nat) :
  (S k <= m)%nat -> (e + d + Z.of_nat (m - S k) * d = e + Z.of_nat (m - k) * d)%Z.
Proof.
  intros H. replace (m - k)%nat with (S (m - S k)) by lia. rewrite Nat2Z.inj_succ. ring.
Qed.

Section PollProofs.
Variables T I : Z.
Variable resp : nat -> batch_result.
Variable poll : nat -> M batch_result.
Hypothesis Hpoll : forall k log, snd (poll k log) = Ok (resp k).

(** From poll [k] at elapsed time [e], with fuel for the remaining budget,
    the loop stops at the first found result or once the budget is spent. *)
Lemma poll_loop_run (f k : nat) (e : Z) (log : list request) :
  (Z.max 0 (T - e) < Z.of_nat f)%Z ->
  exists log' o n e',
    poll_loop T I poll f k e log = (log', Ok (Some (o, n, e'))) /\
    ((exists b m, o = Some b /\ n = S m /\ (k <= m)%nat /\ resp m = Done b /\
        (forall j, (k <= j < m)%nat -> exists st, resp j = NotDone st) /\
        e' = (e + Z.of_nat (m - k) * timer_delay I)%Z /\ (e' < T)%Z) \/
     (o = None /\ (k <= n)%nat /\
        (forall j, (k <= j < n)%nat -> exists st, resp j = NotDone st) /\
        e' = (e + Z.of_nat (n - k) * timer_delay I)%Z /\ (T <= e')%Z /\
        (n = k \/ (e' - timer_delay I < T)%Z))).
Proof.
  pose proof (timer_delay_pos I) as Hd.
  revert k e log. induction f as [|f IH]; intros k e log Hf; [lia|].
  cbn [poll_loop]. destruct (Z.ltb_spec e T) as [Hlt|Hge].
  - unfold mbind, M_bind. specialize (Hpoll k log).
    destruct (poll k log) as [log1 r1]. cbn [snd] in Hpoll. subst r1.
    destruct (resp k) as [st|b] eqn:Er.
    + destruct (IH (S k) (e + timer_delay I)%Z log1) as (log' & o & n & e' & Erun & Hcase);
        [lia|].
      exists log', o, n, e'. split; [exact Erun|].
      destruct Hcase as [(b & m & -> & -> & Hkm & Hm & Hpre & He & HT)|
                         (-> & Hkn & Hpre & He & HT & Hlast)].
      * left. exists b, m. split; [reflexivity|]. split; [reflexivity|].
        split; [lia|]. split; [exact Hm|]. split.
        -- intros j Hj. destruct (Nat.eq_dec j k) as [->|Hne]; [eauto|]. apply Hpre. lia.
        -- split; [|exact HT]. rewrite He. apply elapsed_step. lia.
      * right. split; [reflexivity|]. split; [lia|]. split.
        -- intros j Hj. destruct (Nat.eq_dec j k) as [->|Hne]; [eauto|]. apply Hpre. lia.
        -- split; [rewrite He; apply elapsed_step; lia|]. split; [exact HT|].
           right. destruct Hlast as [->|Hl]; [|lia].
           rewrite Nat.sub_diag in He. cbn [Z.of_nat] in He. lia.
    + exists log1, (Some b), (S k), e. split; [reflexivity|].
      left. exists b, k. split; [reflexivity|]. split; [reflexivity|].
      split; [lia|]. split; [exact Er|]. split; [intros j Hj; lia|].
      split; [|exact Hlt]. rewrite Nat.sub_diag. cbn [Z.of_nat]. lia.
  - exists log, None, k, e. split; [reflexivity|]. right.
    split; [reflexivity|]. split; [lia|]. split; [intros j Hj; lia|].
    split; [rewrite Nat.sub_diag; cbn [Z.of_nat]; lia|]. split; [exact Hge|].
    left. reflexivity.
Qed.

End PollProofs.

(** Claim C6. With a budget of [T] ms, an interval of [I] ms (both non-negative,
    each status query taking no time) and any sequence of not-ready and
    found answers of the poller, the loop of [GET /api/generate] stops
    within the fuel it is given, after [n] not-ready polls and [n] sleeps
    of [setTimeout]'s delay, at an elapsed time [e] with [0 <= e <= T + I].
    On the first found answer (poll [n]) it returns the post-processed
    image with status 200; when the elapsed time reaches [T] without one, it
    returns the 202 pending reply with the job and correlation ids. *)
Theorem generate_GET_poll_budget (json_parse : string -> option jsval)
    (json_stringify : jsval -> string) (respond : request -> http_response)
    (buffer_from_b64 : string -> list Z) (buffer_to_b64 : list Z -> string)
    (png_read : list Z -> option png) (png_write : png -> list Z)
    (key : string) (body : jsval) (customId : string) (T I : Z)
    (resp : nat -> batch_result) (poll : nat -> M batch_result)
    (log0 log1 : list request) (bid : jsval) (cid : string) :
  (0 <= T)%Z -> (0 <= I)%Z ->
  (forall k log, snd (poll k log) = Ok (resp k)) ->
  (forall k b, resp k = Done b -> b <> EmptyString) ->
  String.eqb key "" = false ->
  createSingleImageBatch json_parse json_stringify respond body customId log0 =
    (log1, Ok (bid, cid)) ->
  exists log2 n e,
    (0 <= e <= T + I)%Z /\ e = (Z.of_nat n * timer_delay I)%Z /\
    (forall j, (j < n)%nat -> exists st, resp j = NotDone st) /\
    ((exists b, resp n = Done b /\ (e < T)%Z /\
        snd (poll_loop T I poll (S (Z.to_nat T)) 0 0 log1) = Ok (Some (Some b, S n, e)) /\
        generate_GET json_parse json_stringify respond buffer_from_b64 buffer_to_b64
          png_read png_write key body customId T I poll log0 =
        (log2, Ok (PngReply 200
                     (postProcess buffer_from_b64 buffer_to_b64 png_read png_write b)))) \/
     ((T <= e)%Z /\
        snd (poll_loop T I poll (S (Z.to_nat T)) 0 0 log1) = Ok (Some (None, n, e)) /\
        generate_GET json_parse json_stringify respond buffer_from_b64 buffer_to_b64
          png_read png_write key body customId T I poll log0 =
        (log2, Ok (pending_reply bid cid)))).
Proof.
  intros HT HI Hpoll Hne Hk Hc.
  pose proof (timer_delay_pos I) as Hd. pose proof (timer_delay_le I HI) as HdI.
  destruct (poll_loop_run T I resp poll Hpoll (S (Z.to_nat T)) 0 0 log1)
    as (log2 & o & n & e & Erun & Hcase); [lia|].
  exists log2.
  assert (Hgen : generate_GET json_parse json_stringify respond buffer_from_b64 buffer_to_b64
                   png_read png_write key body customId T I poll log0 =
                 (log2, Ok (let b64 := match o with Some b => b | None => EmptyString end in
                            if String.eqb b64 "" then pending_reply bid cid
                            else PngReply 200 (postProcess buffer_from_b64 buffer_to_b64
                                                 png_read png_write b64)))).
  { unfold generate_GET, try_catch, mbind, M_bind, mret, M_ret. cbv beta.
    rewrite Hk, Hc. cbv beta iota. rewrite Erun. cbv beta iota zeta.
    destruct (String.eqb (match o with Some b => b | None => EmptyString end) ""); reflexivity. }
  destruct Hcase as [(b & m & -> & -> & _ & Hm & Hpre & He & HeT)|
                     (-> & _ & Hpre & He & HTe & Hlast)];
    rewrite Nat.sub_0_r, Z.add_0_l in He.
  - exists m, e. split; [split; [rewrite He; apply Z.mul_nonneg_nonneg; lia | lia]|].
    split; [exact He|]. split; [intros j Hj; apply Hpre; lia|].
    left. exists b. split; [exact Hm|]. split; [exact HeT|].
    split; [rewrite Erun; reflexivity|]. rewrite Hgen. cbv zeta.
    destruct (String.eqb_spec b "") as [E|_]; [exfalso; exact (Hne _ _ Hm E)|reflexivity].
  - exists n, e. split.
    { split; [rewrite He; apply Z.mul_nonneg_nonneg; lia|].
      destruct Hlast as [->|Hl]; [rewrite He; cbn [Z.of_nat]; lia|lia]. }
    split; [exact He|]. split; [intros j Hj; apply Hpre; lia|].
    right. split; [exact HTe|]. split; [rewrite Erun; reflexivity|]. exact Hgen.
Qed.

Lemma generate_GET_poll_budget_witness :
  exists log2 n e,
    (0 <= e <= 5000 + 2000)%Z /\ e = (Z.of_nat n * timer_delay 2000)%Z /\
    (forall j, (j < n)%nat -> exists st, gen_resp j = NotDone st) /\
    ((exists b, gen_resp n = Done b /\ (e < 5000)%Z /\
        snd (poll_loop 5000 2000 gen_poll (S (Z.to_nat 5000)) 0 0
               (fst (createSingleImageBatch csv_parse to_json csv_respond JNull "gen-1" [])))
          = Ok (Some (Some b, S n, e)) /\
        generate_GET csv_parse to_json csv_respond (fun _ => []) (fun _ => EmptyString)
          (fun _ => None) (fun _ => []) "sk-test" JNull "gen-1" 5000 2000 gen_poll [] =
        (log2, Ok (PngReply 200
                     (postProcess (fun _ => []) (fun _ => EmptyString) (fun _ => None)
                        (fun _ => []) b)))) \/
     ((5000 <= e)%Z /\
        snd (poll_loop 5000 2000 gen_poll (S (Z.to_nat 5000)) 0 0
               (fst (createSingleImageBatch csv_parse to_json csv_respond JNull "gen-1" [])))
          = Ok (Some (None, n, e)) /\
        generate_GET csv_parse to_json csv_respond (fun _ => []) (fun _ => EmptyString)
          (fun _ => None) (fun _ => []) "sk-test" JNull "gen-1" 5000 2000 gen_poll [] =
        (log2, Ok (pending_reply (JStr "batch_9") "gen-1")))).
Proof.
  apply (generate_GET_poll_budget csv_parse to_json csv_respond (fun _ => [])
           (fun _ => EmptyString) (fun _ => None) (fun _ => []) "sk-test" JNull "gen-1"
           5000 2000 gen_resp gen_poll [] _ (JStr "batch_9") "gen-1").
  - lia.
  - lia.
  - intros k log. reflexivity.
  - intros k b. unfold gen_resp. destruct (k <? 2)%nat; congruence.
  - reflexivity.
  - vm_compute. reflexivity.
Defined.

(** ** Post-processing in [GET /api/batch] *)

(** Claim C7. Once the job's result [b] is found, [GET /api/batch] answers 200
    with an image whatever post-processing does. When the base64 text does
    not decode to a PNG, the normalization stage fails and so does the
    resize stage, and the raw decoded buffer is sent; when normalization
    succeeds but its output does not decode, the normalized (pre-resize)
    buffer is sent; otherwise the resized image is sent. *)
Theorem batch_GET_postprocess_fallback (json_parse : string -> option jsval)
    (respond : request -> http_response)
    (buffer_from_b64 : string -> list Z) (buffer_to_b64 : list Z -> string)
    (png_read : list Z -> option png) (png_write : png -> list Z)
    (key batchId customId b : string) (log0 log1 : list request) :
  String.eqb key "" = false -> String.eqb batchId "" = false ->
  String.eqb customId "" = false ->
  tryGetBatchResultImageBase64 json_parse respond batchId customId log0 = (log1, Ok (Done b)) ->
  batch_GET json_parse respond buffer_from_b64 buffer_to_b64 png_read png_write
    key batchId customId log0 =
    (log1, Ok (PngReply 200 (postProcess buffer_from_b64 buffer_to_b64 png_read png_write b))) /\
  (png_read (buffer_from_b64 b) = None ->
   postProcess buffer_from_b64 buffer_to_b64 png_read png_write b = buffer_from_b64 b) /\
  (forall img, png_read (buffer_from_b64 b) = Some img ->
   let fixed := buffer_to_b64 (png_write (makeInteriorOpaque img)) in
   (png_read (buffer_from_b64 fixed) = None ->
    postProcess buffer_from_b64 buffer_to_b64 png_read png_write b = buffer_from_b64 fixed) /\
   (forall img', png_read (buffer_from_b64 fixed) = Some img' ->
    postProcess buffer_from_b64 buffer_to_b64 png_read png_write b =
    png_write (resizeContainBilinear img' OUTPUT_WIDTH OUTPUT_HEIGHT))).
Proof.
  intros Hk Hb Hc Ht. split; [|split].
  - unfold batch_GET, try_catch, mbind, M_bind, mret, M_ret. cbv beta.
    rewrite Hk, Hb, Hc. cbn [orb]. rewrite Ht. reflexivity.
  - intros Hn. unfold postProcess, makeInteriorOpaquePngBase64. rewrite Hn. rewrite Hn.
    reflexivity.
  - intros img Himg fixed. unfold postProcess, makeInteriorOpaquePngBase64. rewrite Himg.
    fold fixed. split.
    + intros Hn. rewrite Hn. reflexivity.
    + intros img' Hi. rewrite Hi. reflexivity.
Qed.

Lemma batch_GET_postprocess_fallback_witness :
  batch_GET demo_parse demo_respond (fun _ => []) (fun _ => EmptyString) (fun _ => None)
    (fun _ => []) "sk-test" "batch_1" "c1" [] =
    (fst (tryGetBatchResultImageBase64 demo_parse demo_respond "batch_1" "c1" []),
     Ok (PngReply 200 (postProcess (fun _ => []) (fun _ => EmptyString) (fun _ => None)
                         (fun _ => []) "QUJD"))) /\
  postProcess (fun _ => []) (fun _ => EmptyString) (fun _ => None) (fun _ => []) "QUJD" = [].
Proof.
  destruct (batch_GET_postprocess_fallback demo_parse demo_respond (fun _ => [])
              (fun _ => EmptyString) (fun _ => None) (fun _ => []) "sk-test" "batch_1" "c1"
              "QUJD" [] (fst (tryGetBatchResultImageBase64 demo_parse demo_respond
                                "batch_1" "c1" []))
              eq_refl eq_refl eq_refl ltac:(vm_compute; reflexivity)) as [H1 [H2 _]].
  split; [exact H1 | exact (H2 eq_refl)].
Defined.

(** ** Upstream failures *)

Lemma substring_0_ge (t : string) (m : nat) :
  (String.length t <= m)%nat -> String.substring 0 m t = t.
Proof.
  revert m. induction t as [|c t IH]; intros [|m] H; cbn in *; try reflexivity; [lia|].
  f_equal. apply IH. lia.
Qed.

Lemma substring_skip (a t : string) (m : nat) :
  String.substring (String.length a) m (a ++ t) = String.substring 0 m t.
Proof. induction a as [|c a IH]; [reflexivity|]. cbn. exact IH. Qed.

Lemma string_length_app (a t : string) :
  String.length (a ++ t) = (String.length a + String.length t)%nat.
Proof. induction a as [|c a IH]; cbn; [reflexivity|]. rewrite IH. reflexivity. Qed.

Lemma string_append_assoc (a b c : string) : ((a ++ b) ++ c)%string = (a ++ b ++ c)%string.
Proof. induction a as [|x a IH]; cbn; [reflexivity|]. rewrite IH. reflexivity. Qed.

















(** ** Payloads without a usable task *)




(* ------------------------------------------------------------------ *)
(** ** The page's CSV reader *)

Lemma string_app_nil_r (s : string) : (s ++ EmptyString)%string = s.
Proof. induction s as [|c s IH]; [reflexivity|]. cbn. rewrite IH. reflexivity. Qed.

Lemma quote_app (f x : string) :
  (csv_quote f ++ x)%string = String dq (csv_escape f ++ String dq x)%string.
Proof. unfold csv_quote. cbn [String.append]. rewrite string_append_assoc. reflexivity. Qed.

(** Inside quotes, an escaped field followed by its closing quote and a
    character other than a quote is read back as the field. *)
Lemma scan_escape (f rest : string) (c : ascii) (rows : list (list string))
    (cur : list string) (acc : string) :
  Ascii.eqb c dq = false ->
  csv_scan (csv_escape f ++ String dq (String c rest)) rows cur acc true =
  csv_scan (String c rest) rows cur (acc ++ f) false.
Proof.
  intros Hc. revert acc. induction f as [|x f IH]; intros acc.
  - cbn [csv_escape String.append csv_scan]. rewrite Ascii.eqb_refl, Hc, string_app_nil_r.
    reflexivity.
  - cbn [csv_escape]. destruct (Ascii.eqb x dq) eqn:Ex.
    + apply Ascii.eqb_eq in Ex. subst x. cbn [String.append csv_scan].
      rewrite Ascii.eqb_refl. rewrite IH, string_append_assoc. reflexivity.
    + cbn [String.append csv_scan]. rewrite Ex. rewrite IH, string_append_assoc. reflexivity.
Qed.

Lemma scan_open (rest : string) (rows : list (list string)) (cur : list string) (field : string) :
  csv_scan (String dq rest) rows cur field false = csv_scan rest rows cur field true.
Proof. reflexivity. Qed.

Lemma scan_comma (rest : string) (rows : list (list string)) (cur : list string) (field : string) :
  csv_scan (String "," rest) rows cur field false = csv_scan rest rows (cur ++ [field]) "" false.
Proof. reflexivity. Qed.

Lemma scan_lf (rest : string) (rows : list (list string)) (cur : list string) (field : string) :
  csv_scan (String "010" rest) rows cur field false =
  csv_scan rest (pushRow rows (cur ++ [field])) [] "" false.
Proof. reflexivity. Qed.

(** One written row is read back as one pushed row. *)
Lemma scan_row (r : list string) (rest : string) (rows : list (list string)) (cur : list string) :
  r <> [] ->
  csv_scan (csv_line r ++ rest) rows cur EmptyString false =
  csv_scan rest (pushRow rows (cur ++ r)) [] EmptyString false.
Proof.
  unfold csv_line. revert cur. induction r as [|f r IH]; intros cur Hr; [congruence|].
  destruct r as [|g r].
  - change (join "," (map csv_quote [f])) with (csv_quote f).
    rewrite string_append_assoc, quote_app, scan_open.
    change (nl ++ rest)%string with (String "010" rest).
    rewrite scan_escape by reflexivity. rewrite scan_lf. reflexivity.
  - change (join "," (map csv_quote (f :: g :: r)))
      with (csv_quote f ++ "," ++ join "," (map csv_quote (g :: r)))%string.
    rewrite !string_append_assoc, quote_app, scan_open.
    change ("," ++ (join "," (map csv_quote (g :: r)) ++ nl ++ rest))%string
      with (String "," (join "," (map csv_quote (g :: r)) ++ nl ++ rest))%string.
    rewrite scan_escape by reflexivity. rewrite scan_comma.
    change ("" ++ f)%string with f. rewrite <- string_append_assoc. rewrite (IH (cur ++ [f])) by discriminate.
    rewrite <- app_assoc. reflexivity.
Qed.

Lemma scan_text (rs : list (list string)) (rest : string) (rows : list (list string)) :
  Forall (fun r => r <> []) rs ->
  csv_scan (csv_text rs ++ rest) rows [] EmptyString false =
  csv_scan rest (fold_left pushRow rs rows) [] EmptyString false.
Proof.
  revert rows. induction rs as [|r rs IH]; intros rows Hrs; [reflexivity|].
  inversion Hrs as [|? ? Hr Hrs']; subst. cbn [csv_text fold_right fold_left].
  fold (csv_text rs). rewrite string_append_assoc, scan_row by exact Hr.
  exact (IH _ Hrs').
Qed.

Lemma csv_rows_text (rs : list (list string)) :
  Forall (fun r => r <> []) rs -> csv_rows (csv_text rs) = fold_left pushRow rs [].
Proof.
  intros Hrs. unfold csv_rows.
  rewrite <- (string_app_nil_r (csv_text rs)), scan_text by exact Hrs. reflexivity.
Qed.

Lemma fold_pushRow (rs : list (list string)) (rows : list (list string)) :
  Forall (fun r => forall f, r = [f] -> trim f <> EmptyString) rs ->
  fold_left pushRow rs rows = rows ++ rs.
Proof.
  revert rows. induction rs as [|r rs IH]; intros rows Hrs; [rewrite app_nil_r; reflexivity|].
  inversion Hrs as [|? ? Hr Hrs']; subst. cbn [fold_left].
  assert (E : pushRow rows r = rows ++ [r]).
  { unfold pushRow. destruct r as [|f [|g r]]; try reflexivity.
    destruct (String.eqb_spec (trim f) EmptyString) as [E|_]; [|reflexivity].
    exfalso. exact (Hr f eq_refl E). }
  rewrite E, IH by exact Hrs'. rewrite <- app_assoc. reflexivity.
Qed.

Lemma csv_rows_pairs (rs : list (list string)) :
  Forall (fun r => exists a b, r = [a; b]) rs -> csv_rows (csv_text rs) = rs.
Proof.
  intros H. rewrite csv_rows_text.
  - rewrite fold_pushRow; [reflexivity|]. eapply List.Forall_impl; [|exact H].
    intros r (a & b & ->) f Hf. discriminate.
  - eapply List.Forall_impl; [|exact H]. intros r (a & b & ->). discriminate.
Qed.

Lemma parse_fold (mi ki : nat) (rows : list (list string)) (out : list item) :
  fold_left (fun out row =>
               let m := trim (nth mi row EmptyString) in
               let k := trim (nth ki row EmptyString) in
               if String.eqb m "" then out else out ++ [mkItem m k]) rows out =
  out ++ flat_map (row_item mi ki) rows.
Proof.
  revert out. induction rows as [|row rows IH]; intros out; cbn [fold_left flat_map].
  - rewrite app_nil_r. reflexivity.
  - rewrite IH. unfold row_item. destruct (String.eqb _ ""); [reflexivity|].
    rewrite <- app_assoc. reflexivity.
Qed.

Lemma flat_map_rows (mi ki : nat) (sel : item -> list string) (items : list item) :
  (forall it, nth mi (sel it) EmptyString = message it) ->
  (forall it, nth ki (sel it) EmptyString = keyword it) ->
  flat_map (row_item mi ki) (map sel items) = trim_items items.
Proof.
  intros Hm Hk. induction items as [|it items IH]; [reflexivity|].
  cbn [map flat_map]. rewrite IH. unfold row_item, trim_items. rewrite Hm, Hk.
  cbn [List.filter]. destruct (String.eqb (trim (message it)) ""); reflexivity.
Qed.

Lemma pairs_items (sel : item -> list string) (items : list item) :
  (forall it, exists a b, sel it = [a; b]) ->
  Forall (fun r => exists a b, r = [a; b]) (map sel items).
Proof. intros H. apply List.Forall_forall. intros r (it & <- & _)%in_map_iff. apply H. Qed.

Lemma is_msg_key_disjoint (toLowerCase : string -> string) (c : string) :
  is_msg_col toLowerCase c = true -> is_key_col toLowerCase c = false.
Proof.
  unfold is_msg_col, is_key_col. cbn [existsb]. rewrite !orb_false_r.
  intros H. repeat (apply orb_true_iff in H as [H|H]);
    apply String.eqb_eq in H; rewrite <- H; reflexivity.
Qed.

Lemma parse_fold_inv (mi ki : nat) (rows : list (list string)) :
  Forall (fun it => message it <> EmptyString /\ trim (message it) = message it /\
                    trim (keyword it) = keyword it) (flat_map (row_item mi ki) rows).
Proof.
  apply List.Forall_forall. intros it (row & _ & Hin)%in_flat_map. unfold row_item in Hin.
  destruct (String.eqb_spec (trim (nth mi row EmptyString)) "") as [_|Hne]; [destruct Hin|].
  destruct Hin as [<-|[]]. cbn [message keyword]. rewrite !trim_idem. auto.
Qed.

(** Every item [parseCsv] returns has a non-empty message, and its message
    and keyword are trimmed. *)
Lemma parseCsv_inv (toLowerCase : string -> string) (text : string) :
  Forall (fun it => message it <> EmptyString /\ trim (message it) = message it /\
                    trim (keyword it) = keyword it) (parseCsv toLowerCase text).
Proof.
  unfold parseCsv. set (rows := csv_rows text).
  set (header := match rows with h :: _ => h | [] => [] end).
  destruct (existsb (is_msg_col toLowerCase) header); cbv zeta beta iota;
    rewrite parse_fold; apply parse_fold_inv.
Qed.

Lemma scan_cr (rest : string) (rows : list (list string)) (cur : list string) (field : string) :
  csv_scan (String "013" rest) rows cur field false = csv_scan rest rows cur field false.
Proof. reflexivity. Qed.

(** Extra. The CSV reader reads back what a quoting CSV writer writes
    (every field in quotes with its quotes doubled, fields separated by
    commas, every row ended by LF): the fields may hold commas, quotes, CR
    and LF. Rows must not be empty or a single blank field, which the
    reader drops. *)
Theorem csv_rows_round_trip (rows : list (list string)) :
  Forall (fun r => r <> [] /\ forall f, r = [f] -> trim f <> EmptyString) rows ->
  csv_rows (csv_text rows) = rows.
Proof.
  intros H. rewrite csv_rows_text.
  - rewrite fold_pushRow; [reflexivity|]. eapply List.Forall_impl; [|exact H].
    intros r [_ Hr]. exact Hr.
  - eapply List.Forall_impl; [|exact H]. intros r [Hr _]. exact Hr.
Qed.

Lemma csv_rows_round_trip_witness : csv_rows (csv_text csv_sample_rows) = csv_sample_rows.
Proof.
  apply csv_rows_round_trip. unfold csv_sample_rows.
  repeat constructor; try discriminate;
    intros f Hf; inversion Hf; subst; vm_compute; discriminate.
Defined.

(** Extra. On CSV text without quote characters, CRLF line ends are read
    as LF ones: the rows are the same. *)
Theorem csv_rows_crlf (text : string) :
  forallb (fun c => negb (Ascii.eqb c dq)) (list_ascii_of_string text) = true ->
  csv_rows (crlf text) = csv_rows text.
Proof.
  intros H. unfold csv_rows.
  assert (G : forall rows cur field,
             csv_scan (crlf text) rows cur field false = csv_scan text rows cur field false).
  { induction text as [|c t IH]; intros rows cur field; [reflexivity|].
    cbn [list_ascii_of_string forallb] in H. apply andb_prop in H as [Hc Ht].
    apply negb_true_iff in Hc. specialize (IH Ht). cbn [crlf].
    destruct (Ascii.eqb c "010") eqn:Elf.
    - apply Ascii.eqb_eq in Elf. subst c. rewrite scan_cr, !scan_lf. apply IH.
    - cbn [csv_scan]. rewrite Hc, Elf.
      destruct (Ascii.eqb c ","), (Ascii.eqb c "013"); apply IH. }
  rewrite G. reflexivity.
Qed.

Lemma csv_rows_crlf_witness :
  csv_rows (crlf csv_sample_plain) = [["hello"; "cat"]; ["bye"; "dog"]]%string.
Proof.
  rewrite csv_rows_crlf by (vm_compute; reflexivity). vm_compute. reflexivity.
Defined.

(** Extra. Every item [parseCsv] returns has a non-empty message, and its
    message and keyword carry no leading or trailing white space. *)
Theorem parseCsv_items_trimmed (toLowerCase : string -> string) (text : string) :
  Forall (fun it => message it <> EmptyString /\ trim (message it) = message it /\
                    trim (keyword it) = keyword it) (parseCsv toLowerCase text).
Proof. exact (parseCsv_inv toLowerCase text). Qed.

Lemma findIndex_first {A} (p : A -> bool) (x : A) (l : list A) :
  p x = true -> findIndex p (x :: l) = 0%Z.
Proof. intros H. unfold findIndex. cbn [findIndex_from]. rewrite H. reflexivity. Qed.

Lemma findIndex_second {A} (p : A -> bool) (x y : A) (l : list A) :
  p x = false -> p y = true -> findIndex p (x :: y :: l) = 1%Z.
Proof. intros H1 H2. unfold findIndex. cbn [findIndex_from]. rewrite H1, H2. reflexivity. Qed.

Lemma key_not_msg (toLowerCase : string -> string) (c : string) : is_key_col toLowerCase c = true -> is_msg_col toLowerCase c = false.
Proof.
  intros H. destruct (is_msg_col toLowerCase c) eqn:E; [|reflexivity].
  rewrite (is_msg_key_disjoint toLowerCase c E) in H. discriminate.
Qed.

(** Extra. With a header row naming a message column ([message], [text] or
    [msg]) and a keyword column ([keyword], [theme] or [k]), in either
    order and in any case or padding, [parseCsv] reads each following
    two-column row as its message and keyword, trimmed, skipping the rows
    whose message is blank, in order. *)
Theorem parseCsv_header (toLowerCase : string -> string) (h h' : string) (items : list item) :
  is_msg_col toLowerCase h = true -> is_key_col toLowerCase h' = true ->
  parseCsv toLowerCase (csv_text ([h; h'] :: map item_row items)) = trim_items items /\
  parseCsv toLowerCase (csv_text ([h'; h] :: map (fun it => [keyword it; message it]) items)) =
    trim_items items.
Proof.
  intros Hm Hk. split.
  - unfold parseCsv.
    rewrite csv_rows_pairs
      by (constructor; [eauto|apply pairs_items; intros it; unfold item_row; eauto]).
    cbv zeta beta iota.
    assert (E : existsb (is_msg_col toLowerCase) [h; h'] = true) by (cbn [existsb]; rewrite Hm; reflexivity).
    rewrite E, (findIndex_first _ _ _ Hm),
      (findIndex_second _ _ _ _ (is_msg_key_disjoint toLowerCase h Hm) Hk).
    cbv iota. cbn [skipn]. rewrite ?skipn_0. rewrite parse_fold, flat_map_rows; reflexivity.
  - unfold parseCsv.
    rewrite csv_rows_pairs
      by (constructor; [eauto|apply pairs_items; intros it; eauto]).
    cbv zeta beta iota.
    assert (E : existsb (is_msg_col toLowerCase) [h'; h] = true)
      by (cbn [existsb]; rewrite Hm, orb_true_r; reflexivity).
    rewrite E, (findIndex_second _ _ _ _ (key_not_msg toLowerCase h' Hk) Hm), (findIndex_first _ _ _ Hk).
    cbv iota. cbn [skipn]. rewrite ?skipn_0. rewrite parse_fold, flat_map_rows; reflexivity.
Qed.

Lemma parseCsv_header_witness :
  parseCsv fold_ascii (csv_text ([" Message"; "THEME"]%string :: map item_row csv_sample_items)) =
    [mkItem "Hello" "cat"; mkItem "Bye" "mochi"]%string.
Proof.
  destruct (parseCsv_header fold_ascii " Message"%string "THEME"%string csv_sample_items
              ltac:(vm_compute; reflexivity) ltac:(vm_compute; reflexivity)) as [H _].
  rewrite H. vm_compute. reflexivity.
Defined.

(** Extra. A two-column CSV without header (no cell of its first row names
    a message column) is read row by row as message and keyword, trimmed,
    the rows with a blank message skipped. *)
Theorem parseCsv_no_header (toLowerCase : string -> string) (items : list item) :
  existsb (is_msg_col toLowerCase) (hd [] (map item_row items)) = false ->
  parseCsv toLowerCase (csv_text (map item_row items)) = trim_items items.
Proof.
  intros H. destruct items as [|it0 rest]; [reflexivity|].
  unfold parseCsv.
  rewrite csv_rows_pairs by (apply pairs_items; intros it; unfold item_row; eauto).
  cbv zeta beta iota. cbn [map hd] in H |- *. rewrite H. cbv iota. cbn [skipn]. rewrite ?skipn_0.
  change (item_row it0 :: map item_row rest) with (map item_row (it0 :: rest)).
  rewrite parse_fold, flat_map_rows; reflexivity.
Qed.

Lemma parseCsv_no_header_witness :
  parseCsv fold_ascii (csv_text (map item_row csv_sample_items)) =
    [mkItem "Hello" "cat"; mkItem "Bye" "mochi"]%string.
Proof.
  rewrite parseCsv_no_header by (vm_compute; reflexivity). vm_compute. reflexivity.
Defined.

(** Extra. A headerless two-column CSV whose first message is itself a
    message column name ([message], [text] or [msg], in any case or
    padding) has its first row taken as the header: that row is not
    returned, the others are read as message and keyword. *)
Theorem parseCsv_first_row_as_header (toLowerCase : string -> string) (it0 : item) (rest : list item) :
  is_msg_col toLowerCase (message it0) = true ->
  parseCsv toLowerCase (csv_text (map item_row (it0 :: rest))) = trim_items rest.
Proof.
  intros Hm. unfold parseCsv.
  rewrite csv_rows_pairs by (apply pairs_items; intros it; unfold item_row; eauto).
  cbv zeta beta iota. cbn [map].
  assert (E : existsb (is_msg_col toLowerCase) (item_row it0) = true)
    by (cbn [item_row existsb]; rewrite Hm; reflexivity).
  rewrite E, (findIndex_first (is_msg_col toLowerCase) (message it0) [keyword it0] Hm
                : findIndex (is_msg_col toLowerCase) (item_row it0) = 0%Z).
  assert (K : exists z, findIndex (is_key_col toLowerCase) (item_row it0) = z /\ (z = 1 \/ z = -1)%Z).
  { unfold findIndex, item_row. cbn [findIndex_from]. rewrite (is_msg_key_disjoint toLowerCase _ Hm).
    destruct (is_key_col toLowerCase (keyword it0)); eauto. }
  destruct K as (z & -> & Hz).
  cbv iota. cbn [skipn]. rewrite ?skipn_0.
  rewrite (parse_fold _ (Z.to_nat (if (z <? 0)%Z then 1%Z else z))), flat_map_rows;
    [reflexivity|reflexivity|].
  intros it. destruct Hz as [->| ->]; reflexivity.
Qed.

Lemma parseCsv_first_row_as_header_witness :
  parseCsv fold_ascii (csv_text (map item_row (mkItem "Text" "k" :: csv_sample_items))) =
    [mkItem "Hello" "cat"; mkItem "Bye" "mochi"]%string.
Proof.
  rewrite (parseCsv_first_row_as_header fold_ascii (mkItem "Text" "k")%string csv_sample_items)
    by (vm_compute; reflexivity).
  vm_compute. reflexivity.
Defined.

(* ------------------------------------------------------------------ *)
(** ** The page's upload and [POST /api/batch-csv] together *)

Lemma upload_items_inv (pageKeyword : string) (rows : list item) :
  Forall (fun it => message it <> EmptyString /\ trim (message it) = message it /\
                    trim (keyword it) = keyword it) rows ->
  Forall (fun it => message it <> EmptyString /\ trim (message it) = message it /\
                    trim (keyword it) = keyword it) (upload_items pageKeyword rows).
Proof.
  intros H. unfold upload_items. apply Forall_map. eapply List.Forall_impl; [|exact H].
  intros it (H1 & H2 & _). cbn [message keyword]. rewrite trim_idem. auto.
Qed.

Lemma to_item_json (it : item) :
  trim (message it) = message it -> trim (keyword it) = keyword it ->
  to_item (item_json it) = it.
Proof.
  intros Hm Hk. destruct it as [m k]. cbn [message keyword] in *.
  unfold to_item, item_json, ochain, prop, assoc_last. cbn [fold_left]. cbn -[trim].
  rewrite Hm, Hk. reflexivity.
Qed.

Lemma upload_filter (items : list item) :
  Forall (fun it => message it <> EmptyString /\ trim (message it) = message it /\
                    trim (keyword it) = keyword it) items ->
  List.filter (fun x => (0 <? String.length (message x))%nat) (map to_item (map item_json items))
  = items.
Proof.
  induction items as [|it items IH]; intros H; [reflexivity|].
  inversion H as [|? ? (H1 & H2 & H3) H']; subst. cbn [map List.filter].
  rewrite to_item_json by assumption.
  destruct (message it) as [|a m] eqn:Em; [congruence|].
  change ((0 <? String.length (String a m))%nat) with true.
  rewrite IH by exact H'. reflexivity.
Qed.

Ltac upload_prefix Hk Hp Hinv Hlen :=
  unfold batch_csv_POST, try_catch, get, of_option, mbind, M_bind, mret, M_ret;
  rewrite Hk, Hp; cbv beta iota;
  match goal with |- context [prop (JObj [("items"%string, JArr ?l)]) "items"] =>
    change (prop (JObj [("items"%string, JArr l)]) "items") with (Some (JArr l)) end;
  cbv beta iota; rewrite (upload_filter _ Hinv), Hlen;
  rewrite build_lines_imap; cbv beta iota;
  unfold openaiFetch, res_json, of_option, mret, M_ret, throw; cbn [app].

(** Extra. The page's CSV upload and [POST /api/batch-csv] together: when
    the page posts a payload (the CSV has a row with a message) and the
    server parses it back, every row [parseCsv] returned becomes a task, in
    order, none dropped by the server: the upload request holds the
    request lines of these tasks with the ids [csv-<ts>-0001], ...; when
    the upload and the batch creation succeed, the reply is 200 with these
    tasks. *)
Theorem handleCsvUpload_batch (toLowerCase : string -> string) (json_parse : string -> option jsval)
    (json_stringify : jsval -> string) (respond : request -> http_response)
    (IMAGE_MODEL IMAGE_QUALITY : string) (buildPrompt : string -> string -> string)
    (key pageKeyword csvText payloadText : string) (ts : Z) (p : jsval) :
  let items := upload_items pageKeyword (parseCsv toLowerCase csvText) in
  let upReq := Req "POST" "/v1/files"
    (join nl (imap (fun i it => json_stringify
        (request_line IMAGE_MODEL IMAGE_QUALITY buildPrompt (csv_custom_id ts i) it)) items)
     ++ nl) in
  let run := batch_csv_POST json_parse json_stringify respond IMAGE_MODEL IMAGE_QUALITY
               buildPrompt key (Some payloadText) ts [] in
  handleCsvUpload_payload toLowerCase pageKeyword csvText = Some p -> json_parse payloadText = Some p ->
  String.eqb key "" = false ->
  items <> [] /\ (exists rest, fst run = upReq :: rest) /\
  (forall up upId batch bid,
     r_ok (respond upReq) = true -> json_parse (r_text (respond upReq)) = Some up ->
     prop up "id" = Some upId ->
     let batchReq := Req "POST" "/v1/batches"
       (json_stringify (JObj [("input_file_id"%string, upId);
                              ("endpoint"%string, JStr "/v1/images/generations");
                              ("completion_window"%string, JStr "24h")])) in
     r_ok (respond batchReq) = true -> json_parse (r_text (respond batchReq)) = Some batch ->
     prop batch "id" = Some bid ->
     run = ([upReq; batchReq],
            Ok (JsonReply 200 (JObj [("batch_id"%string, bid);
                  ("items"%string, JArr (imap (fun i it => out_item (csv_custom_id ts i) it)
                                          items))])))).
Proof.
  intros items upReq run Hpay Hp Hk.
  unfold handleCsvUpload_payload in Hpay.
  destruct (Nat.eqb_spec (length (parseCsv toLowerCase csvText)) 0) as [_|El]; [discriminate|].
  injection Hpay as <-. fold items in Hp.
  assert (Hne : items <> []).
  { intros E. apply El. rewrite <- (length_map (fun r => mkItem (message r) (trim
      (if negb (String.eqb (keyword r) "") then keyword r
       else if negb (String.eqb pageKeyword "") then pageKeyword else "")))).
    fold (upload_items pageKeyword (parseCsv toLowerCase csvText)). fold items. rewrite E. reflexivity. }
  assert (Hinv := upload_items_inv pageKeyword _ (parseCsv_inv toLowerCase csvText)). fold items in Hinv.
  assert (Hlen : Nat.eqb (length items) 0 = false).
  { apply Nat.eqb_neq. intros E. apply Hne, length_zero_iff_nil, E. }
  split; [exact Hne|]. split.
  - unfold run. upload_prefix Hk Hp Hinv Hlen. fold upReq.
    repeat (first
      [ eexists; reflexivity
      | match goal with |- context [r_ok (respond ?rq)] =>
          destruct (r_ok (respond rq)); cbn [negb] end
      | match goal with |- context [json_parse ?t] =>
          destruct (json_parse t); cbv beta iota end
      | match goal with |- context [prop ?a "id"] =>
          destruct (prop a "id"); cbv beta iota end ]).
  - intros up upId batch bid H1 H2 H3 batchReq H4 H5 H6.
    unfold run. upload_prefix Hk Hp Hinv Hlen. fold upReq.
    rewrite H1. cbn [negb]. rewrite H2. cbv beta iota. rewrite H3. cbv beta iota.
    fold batchReq. cbn [app]. rewrite H4. cbn [negb]. rewrite H5. cbv beta iota.
    rewrite H6. cbv beta iota. reflexivity.
Qed.

Lemma handleCsvUpload_batch_witness :
  batch_csv_POST csv_upload_parse to_json csv_respond "gpt-image-1" "low" csv_prompt
    "sk-test" (Some (to_json csv_upload_value)) 1700 [] =
  ([Req "POST" "/v1/files"
      (join nl (imap (fun i it => to_json
         (request_line "gpt-image-1" "low" csv_prompt (csv_custom_id 1700 i) it))
         (upload_items "neko" (parseCsv fold_ascii csv_upload_text))) ++ nl);
    Req "POST" "/v1/batches"
      (to_json (JObj [("input_file_id"%string, JStr "file_9");
                      ("endpoint"%string, JStr "/v1/images/generations");
                      ("completion_window"%string, JStr "24h")]))],
   Ok (JsonReply 200 (JObj [("batch_id"%string, JStr "batch_9");
         ("items"%string, JArr (imap (fun i it => out_item (csv_custom_id 1700 i) it)
                                 (upload_items "neko" (parseCsv fold_ascii csv_upload_text))))]))).
Proof.
  destruct (handleCsvUpload_batch fold_ascii csv_upload_parse to_json csv_respond "gpt-image-1" "low"
              csv_prompt "sk-test" "neko" csv_upload_text (to_json csv_upload_value) 1700
              csv_upload_value ltac:(vm_compute; reflexivity) ltac:(vm_compute; reflexivity)
              eq_refl) as (_ & _ & H).
  exact (H csv_upload_reply (JStr "file_9") csv_batch_reply (JStr "batch_9")
           ltac:(vm_compute; reflexivity) ltac:(vm_compute; reflexivity) eq_refl
           ltac:(vm_compute; reflexivity) ltac:(vm_compute; reflexivity) eq_refl).
Defined.

(* ------------------------------------------------------------------ *)
(** ** The correlation ids of [POST /api/batch-csv] *)

Lemma nzhead_head (u : Decimal.uint) :
  match Decimal.nzhead u with Decimal.D0 _ => False | _ => True end.
Proof. induction u; cbn [Decimal.nzhead]; trivial. Qed.

Lemma to_uint_head (p : positive) : head_nonzero (Pos.to_uint p).
Proof.
  pose proof (DecimalPos.Unsigned.to_of (Pos.to_uint p)) as H.
  rewrite DecimalPos.Unsigned.of_to in H. change (N.to_uint (N.pos p)) with (Pos.to_uint p) in H.
  pose proof (DecimalPos.Unsigned.to_uint_nonzero p) as Hz.
  pose proof (nzhead_head (Pos.to_uint p)) as Hh.
  unfold Decimal.unorm in H.
  destruct (Decimal.nzhead (Pos.to_uint p)); try contradiction; rewrite H; exact I.
Qed.

Lemma z_to_dec_pos (p : positive) :
  exists c s, z_to_dec (Z.pos p) = String c s /\ c <> "0"%char /\
    DecimalString.NilEmpty.uint_of_string (z_to_dec (Z.pos p)) = Some (Pos.to_uint p).
Proof.
  pose proof (to_uint_head p) as Hh. unfold z_to_dec. cbn [Z.to_int].
  unfold DecimalString.NilZero.string_of_int, DecimalString.NilZero.string_of_uint.
  destruct (Pos.to_uint p) as [|u|u|u|u|u|u|u|u|u|u] eqn:E; try contradiction;
    (eexists; eexists; split; [reflexivity|]); (split; [discriminate|]);
    rewrite <- E; apply DecimalString.NilEmpty.usu.
Qed.

Lemma z_to_dec_pos_inj (p q : positive) : z_to_dec (Z.pos p) = z_to_dec (Z.pos q) -> p = q.
Proof.
  intros H. destruct (z_to_dec_pos p) as (_ & _ & _ & _ & Hp).
  destruct (z_to_dec_pos q) as (_ & _ & _ & _ & Hq).
  rewrite H, Hq in Hp. injection Hp as Hp. apply DecimalPos.Unsigned.to_uint_inj. congruence.
Qed.

Lemma list_ascii_of_string_app (a b : string) :
  list_ascii_of_string (a ++ b) = list_ascii_of_string a ++ list_ascii_of_string b.
Proof. induction a as [|c a IH]; cbn; [reflexivity|]. rewrite IH. reflexivity. Qed.

Lemma list_ascii_of_string_inj (a b : string) :
  list_ascii_of_string a = list_ascii_of_string b -> a = b.
Proof.
  intros H. rewrite <- (string_of_list_ascii_of_string a), <- (string_of_list_ascii_of_string b).
  f_equal. exact H.
Qed.

Lemma repeat_zero_cancel (m n : nat) (c d : ascii) (x y : list ascii) :
  c <> "0"%char -> d <> "0"%char ->
  repeat "0"%char m ++ c :: x = repeat "0"%char n ++ d :: y -> c :: x = d :: y.
Proof.
  intros Hc Hd. revert n. induction m as [|m IH]; intros [|n]; cbn [repeat app]; intros H.
  - exact H.
  - injection H as H _. congruence.
  - injection H as H _. congruence.
  - injection H as H. exact (IH n H).
Qed.

Lemma padStart0_inj (n : nat) (a b : string) (c d : ascii) (x y : string) :
  a = String c x -> b = String d y -> c <> "0"%char -> d <> "0"%char ->
  padStart0 n a = padStart0 n b -> a = b.
Proof.
  intros -> -> Hc Hd H. unfold padStart0 in H.
  apply (f_equal list_ascii_of_string) in H.
  rewrite !list_ascii_of_string_app, !list_ascii_of_string_of_list_ascii in H.
  cbn [list_ascii_of_string] in H. apply repeat_zero_cancel in H; [|exact Hc|exact Hd].
  apply list_ascii_of_string_inj. exact H.
Qed.

Lemma string_app_cancel_l (p a b : string) : (p ++ a)%string = (p ++ b)%string -> a = b.
Proof. induction p as [|c p IH]; cbn; [trivial|]. intros H. injection H as H. exact (IH H). Qed.

(** Extra. The correlation ids [csv-<ts>-<i+1 padded to 4 digits>] of one
    submission are pairwise distinct: two task indices get the same id
    only if they are equal, also past [9999] where the padding stops. *)
Theorem csv_custom_id_inj (ts : Z) (i j : nat) :
  csv_custom_id ts i = csv_custom_id ts j <-> i = j.
Proof.
  split; [|intros ->; reflexivity].
  unfold csv_custom_id. intros H. apply string_app_cancel_l in H.
  apply string_app_cancel_l in H. apply string_app_cancel_l in H.
  assert (Pi : exists p, Z.of_nat (i + 1) = Z.pos p) by (exists (Pos.of_succ_nat i); lia).
  assert (Pj : exists p, Z.of_nat (j + 1) = Z.pos p) by (exists (Pos.of_succ_nat j); lia).
  destruct Pi as [p Hp], Pj as [q Hq]. rewrite Hp, Hq in H.
  destruct (z_to_dec_pos p) as (c & x & Ex & Hc & _).
  destruct (z_to_dec_pos q) as (d & y & Ey & Hd & _).
  apply (padStart0_inj 4 _ _ c d x y Ex Ey Hc Hd), z_to_dec_pos_inj in H. subst q. lia.
Qed.

(* ------------------------------------------------------------------ *)
(** ** The prompt of [POST /api/batch-csv] *)

Lemma join_app (sep : string) (l1 l2 : list string) :
  l1 <> [] -> l2 <> [] -> join sep (l1 ++ l2) = (join sep l1 ++ sep ++ join sep l2)%string.
Proof.
  intros H1 H2. induction l1 as [|x l1 IH]; [congruence|].
  destruct l1 as [|y l1].
  - cbn [app]. destruct l2 as [|z l2]; [congruence|]. reflexivity.
  - change ((x :: y :: l1) ++ l2) with (x :: ((y :: l1) ++ l2)).
    change (join sep (x :: ((y :: l1) ++ l2)))
      with (x ++ sep ++ join sep ((y :: l1) ++ l2))%string.
    change (join sep (x :: y :: l1)) with (x ++ sep ++ join sep (y :: l1))%string.
    rewrite IH by discriminate. rewrite !string_append_assoc. reflexivity.
Qed.

Lemma substring_0_app (t b : string) : String.substring 0 (String.length t) (t ++ b) = t.
Proof. induction t as [|c t IH]; [destruct b; reflexivity|]. cbn. f_equal. exact IH. Qed.

Lemma contains_mid (a t b : string) : contains (a ++ t ++ b) t = true.
Proof.
  unfold contains. apply existsb_exists. exists (String.length a). split.
  - apply in_seq. rewrite string_length_app. lia.
  - rewrite substring_skip, substring_0_ge by (rewrite !string_length_app; lia).
    apply String.prefix_correct, substring_0_app.
Qed.

Lemma trim_nullish_text (text : string) :
  trim (if String.eqb text "" then "" else text) = trim text.
Proof. destruct (String.eqb_spec text ""); subst; reflexivity. Qed.

Lemma join_tail (L M : list string) (a b : string) :
  L <> [] -> join nl (L ++ M ++ [a; b]) = (join nl (L ++ M) ++ nl ++ a ++ nl ++ b)%string.
Proof.
  intros H. rewrite app_assoc, join_app; [reflexivity| |discriminate].
  destruct L; [congruence|discriminate].
Qed.

Lemma join_in (sep y : string) (l : list string) :
  In y l -> exists a b, join sep l = (a ++ y ++ b)%string.
Proof.
  induction l as [|x l IH]; [intros []|]. intros [<-|Hy].
  - destruct l as [|z l].
    + exists EmptyString, EmptyString. cbn. rewrite string_app_nil_r. reflexivity.
    + exists EmptyString, (sep ++ join sep (z :: l))%string. reflexivity.
  - destruct l as [|z l]; [destruct Hy|].
    destruct (IH Hy) as (a & b & E).
    exists (x ++ sep ++ a)%string, b.
    change (join sep (x :: z :: l)) with (x ++ sep ++ join sep (z :: l))%string.
    rewrite E, !string_append_assoc. reflexivity.
Qed.

(** Extra. The prompt of a batch task ends with the line asking for the
    message between quotes, the message trimmed (the default
    [PayPay銀行へ入金よろしく] when it is blank), then the line forbidding any
    other text; when the trimmed theme mentions mochi ([餅], [もち] or
    [mochi] in any case), the prompt carries the instruction to paint the
    mochi character opaque white. *)
Theorem buildPrompt_message (text theme : string) :
  let t := if String.eqb (trim text) "" then "PayPay銀行へ入金よろしく"%string else trim text in
  (exists pre, buildPrompt text theme =
     (pre ++ nl ++ ("Include the Japanese message " ++ dqs ++ t ++ dqs ++
      " inside the illustration as the ONLY text.") ++ nl ++ "Do not add any other text.")%string) /\
  (is_mochi (trim theme) = true ->
   contains (buildPrompt text theme)
     "ABSOLUTE: Paint the mochi character with pure white (#FFFFFF) and fully opaque color (alpha=255)."
   = true).
Proof.
  intros t. unfold buildPrompt. rewrite !trim_nullish_text. fold t. split.
  - cbv zeta. eexists. rewrite join_tail by discriminate. reflexivity.
  - intros Hm. destruct (String.eqb (trim theme) "") eqn:E.
    { apply String.eqb_eq in E. rewrite E in Hm. discriminate. }
    rewrite Hm. cbv zeta.
    match goal with |- contains (join nl ?l) ?y = true =>
      assert (Hin : In y l) by
        (apply in_app_iff; right; apply in_app_iff; left; right; left; reflexivity);
      destruct (join_in nl y l Hin) as (a & b & ->) end.
    apply contains_mid.
Qed.

Lemma buildPrompt_message_witness :
  is_mochi (trim "Mochi") = true /\
  contains (buildPrompt "  hi " "Mochi")
    "ABSOLUTE: Paint the mochi character with pure white (#FFFFFF) and fully opaque color (alpha=255)."
  = true.
Proof.
  split; [vm_compute; reflexivity|].
  apply (proj2 (buildPrompt_message "  hi " "Mochi")). vm_compute. reflexivity.
Defined.

(* ------------------------------------------------------------------ *)
(** ** Direct mode of [GET /api/generate] and the page's reading of its replies *)

Lemma ok_or_exn_ret (P : reply -> Prop) (r : reply) : P r -> ok_or_exn P (mret r).
Proof. intros H log. exact H. Qed.

Lemma ok_or_exn_throw (P : reply -> Prop) (msg : string) : ok_or_exn P (throw msg).
Proof. intros log. exact I. Qed.

Lemma ok_or_exn_bind {A} (P : reply -> Prop) (m : M A) (f : A -> M reply) :
  (forall a, ok_or_exn P (f a)) -> ok_or_exn P (mbind f m).
Proof.
  intros H log. unfold mbind, M_bind. destruct (m log) as [log' [a|e]]; [apply H|exact I].
Qed.

Lemma replies_ok_try (P : reply -> Prop) (m : M reply) (h : string -> M reply) :
  ok_or_exn P m -> (forall e log, exists log' r, h e log = (log', Ok r) /\ P r) ->
  replies_ok P (try_catch m h).
Proof.
  intros Hm Hh log. unfold try_catch. specialize (Hm log).
  destruct (m log) as [log' [a|e]]; [eauto|apply Hh].
Qed.

Lemma generate_GET_forms (json_parse : string -> option jsval)
    (json_stringify : jsval -> string) (respond : request -> http_response)
    (buffer_from_b64 : string -> list Z) (buffer_to_b64 : list Z -> string)
    (png_read : list Z -> option png) (png_write : png -> list Z)
    (key : string) (body : jsval) (customId : string) (T I : Z)
    (poll : nat -> M batch_result) :
  replies_ok generate_reply_form
    (generate_GET json_parse json_stringify respond buffer_from_b64 buffer_to_b64
       png_read png_write key body customId T I poll).
Proof.
  unfold generate_GET. apply replies_ok_try.
  - destruct (String.eqb key "").
    { apply ok_or_exn_ret. right; right. eexists; reflexivity. }
    apply ok_or_exn_bind. intros [b c]. apply ok_or_exn_bind. intros o. cbv zeta.
    destruct (String.eqb _ ""); apply ok_or_exn_ret.
    + left. eauto.
    + right; left. eauto.
  - intros e log. eexists _, _. split; [reflexivity|]. right; right. eexists; reflexivity.
Qed.

Lemma generate_direct_forms (json_parse : string -> option jsval)
    (json_stringify : jsval -> string) (respond : request -> http_response)
    (buffer_from_b64 : string -> list Z) (buffer_to_b64 : list Z -> string)
    (png_read : list Z -> option png) (png_write : png -> list Z)
    (buffer_from_value : jsval -> option (list Z)) (key : string) (body : jsval) :
  replies_ok generate_reply_form
    (generate_direct json_parse json_stringify respond buffer_from_b64 buffer_to_b64
       png_read png_write buffer_from_value key body).
Proof.
  unfold generate_direct. apply replies_ok_try.
  - destruct (String.eqb key "").
    { apply ok_or_exn_ret. right; right. eexists; reflexivity. }
    apply ok_or_exn_bind. intros r. destruct (negb (r_ok r)).
    { apply ok_or_exn_ret. right; right. eexists; reflexivity. }
    apply ok_or_exn_bind. intros data. apply ok_or_exn_bind. intros d. cbv zeta.
    destruct (negb (truthy _)).
    { apply ok_or_exn_ret. right; right. eexists; reflexivity. }
    destruct (ochain (ochain d "0") "b64_json");
      try (destruct (postProcess_value _ _ _ _ _ _);
           [apply ok_or_exn_ret; right; left; eexists; reflexivity|apply ok_or_exn_throw]).
    apply ok_or_exn_ret. right; left. eexists; reflexivity.
  - intros e log. eexists _, _. split; [reflexivity|]. right; right. eexists; reflexivity.
Qed.

Lemma failure_status_error (json_parse : string -> option jsval) (st : Z) (m raw : string) :
  raw <> EmptyString -> json_parse raw = Some (JObj [("error"%string, JStr m)]) ->
  generate_failure_status json_parse st raw = ("エラー: " ++ m)%string.
Proof.
  intros Hne Hp. unfold generate_failure_status.
  destruct (String.eqb_spec raw ""); [congruence|]. rewrite Hp. reflexivity.
Qed.

Lemma form_shown (json_parse : string -> option jsval) (json_stringify : jsval -> string)
    (rep : reply) :
  generate_reply_form rep ->
  forall st b, rep = JsonReply st b -> st <> 202%Z -> json_stringify b <> EmptyString ->
  json_parse (json_stringify b) = Some b ->
  st = 500%Z /\ exists m, b = JObj [("error"%string, JStr m)] /\
    generate_failure_status json_parse st (json_stringify b) = ("エラー: " ++ m)%string.
Proof.
  intros [(b' & c & ->)|[(buf & ->)|(m & ->)]] st b E Hst Hne Hp.
  - injection E as <- _. contradiction.
  - discriminate.
  - injection E as <- <-. split; [reflexivity|]. exists m. split; [reflexivity|].
    apply failure_status_error; assumption.
Qed.

(** Extra. [GET /api/generate] always answers, in batch mode and in direct
    mode, without letting an exception escape; a JSON answer other than
    the 202 pending one is a 500 [{error: m}], and the page, reading back
    the JSON text the server wrote, shows the status [エラー: m]. *)
Theorem generate_failure_shown (json_parse : string -> option jsval)
    (json_stringify : jsval -> string) (respond : request -> http_response)
    (buffer_from_b64 : string -> list Z) (buffer_to_b64 : list Z -> string)
    (png_read : list Z -> option png) (png_write : png -> list Z)
    (buffer_from_value : jsval -> option (list Z)) (key : string) (body : jsval)
    (customId : string) (T I : Z) (poll : nat -> M batch_result) (log : list request) :
  (exists log' rep,
     generate_GET json_parse json_stringify respond buffer_from_b64 buffer_to_b64
       png_read png_write key body customId T I poll log = (log', Ok rep) /\
     forall st b, rep = JsonReply st b -> st <> 202%Z -> json_stringify b <> EmptyString ->
       json_parse (json_stringify b) = Some b ->
       st = 500%Z /\ exists m, b = JObj [("error"%string, JStr m)] /\
         generate_failure_status json_parse st (json_stringify b) = ("エラー: " ++ m)%string) /\
  (exists log' rep,
     generate_direct json_parse json_stringify respond buffer_from_b64 buffer_to_b64
       png_read png_write buffer_from_value key body log = (log', Ok rep) /\
     forall st b, rep = JsonReply st b -> st <> 202%Z -> json_stringify b <> EmptyString ->
       json_parse (json_stringify b) = Some b ->
       st = 500%Z /\ exists m, b = JObj [("error"%string, JStr m)] /\
         generate_failure_status json_parse st (json_stringify b) = ("エラー: " ++ m)%string).
Proof.
  split.
  - destruct (generate_GET_forms json_parse json_stringify respond buffer_from_b64
                buffer_to_b64 png_read png_write key body customId T I poll log)
      as (log' & rep & E & F).
    exists log', rep. split; [exact E|]. exact (form_shown json_parse json_stringify rep F).
  - destruct (generate_direct_forms json_parse json_stringify respond buffer_from_b64
                buffer_to_b64 png_read png_write buffer_from_value key body log)
      as (log' & rep & E & F).
    exists log', rep. split; [exact E|]. exact (form_shown json_parse json_stringify rep F).
Qed.

Lemma generate_failure_shown_witness :
  generate_failure_status (parse_of [key_error_body]) 500 (to_json key_error_body) =
  ("エラー: " ++ "OPENAI_API_KEY is not set on the server.")%string.
Proof.
  destruct (generate_failure_shown (parse_of [key_error_body]) to_json (fun _ => down_response)
              (fun _ => []) (fun _ => EmptyString) (fun _ => None) (fun _ => [])
              (fun _ => None) "" JNull "gen-1" 0 0 gen_poll []) as [_ (log' & rep & E & H)].
  vm_compute in E. injection E as _ <-.
  destruct (H 500%Z key_error_body) as [_ (m & Hb & Hs)];
    [reflexivity|discriminate|vm_compute; discriminate|vm_compute; reflexivity|].
  unfold key_error_body in Hb. injection Hb as <-. exact Hs.
Defined.

Lemma chunks_concat (l : list ascii) : concat (chunks l) = l.
Proof.
  induction l as [|b l IH]; [reflexivity|]. cbn [chunks].
  destruct (chunks l) as [|ch cs]; [cbn in IH |- *; rewrite <- IH; reflexivity|].
  destruct ch as [|c t]; [cbn [concat app] in IH |- *; rewrite IH; reflexivity|].
  destruct (is_cont c); cbn [concat app] in IH |- *; rewrite <- IH; reflexivity.
Qed.

Lemma take_units_all (n : nat) (cs : list (list ascii)) :
  fold_right (fun c n => units c + n) 0 cs <= n -> take_units n cs = concat cs.
Proof.
  revert n. induction cs as [|c cs IH]; intros n H; [reflexivity|].
  cbn [fold_right] in H. cbn [take_units concat].
  rewrite (proj2 (Nat.leb_le _ _)) by lia. rewrite IH by lia. reflexivity.
Qed.

(** A text of at most [n] UTF-16 code units is its own [slice(0, n)]. *)
Lemma slice0_short (n : nat) (s : string) : utf16_length s <= n -> slice0 n s = s.
Proof.
  intros H. unfold slice0. rewrite take_units_all by exact H.
  rewrite chunks_concat. apply string_of_list_ascii_of_string.
Qed.

Lemma prop_ochain (v : jsval) (k : string) :
  v <> JNull -> v <> JUndef -> prop v k = Some (ochain v k).
Proof. intros H1 H2. unfold ochain. destruct v; try congruence; reflexivity. Qed.

(** Extra. In direct mode ([OPENAI_USE_BATCH=0]) with the key set, a failed
    generation call is the only request made and is answered with a 500
    whose error reads [OpenAI error (status N): ] followed by the first 160
    UTF-16 code units of the upstream body ([text.slice(0, 160)]); a body
    of at most 160 code units is given whole. *)
Theorem generate_direct_upstream_error (json_parse : string -> option jsval)
    (json_stringify : jsval -> string) (respond : request -> http_response)
    (buffer_from_b64 : string -> list Z) (buffer_to_b64 : list Z -> string)
    (png_read : list Z -> option png) (png_write : png -> list Z)
    (buffer_from_value : jsval -> option (list Z)) (key : string) (body : jsval)
    (log : list request) :
  String.eqb key "" = false ->
  let rq := Req "POST" "/v1/images/generations" (json_stringify body) in
  r_ok (respond rq) = false ->
  generate_direct json_parse json_stringify respond buffer_from_b64 buffer_to_b64
    png_read png_write buffer_from_value key body log =
  (log ++ [rq], Ok (error_reply 500 ("OpenAI error (status " ++ z_to_dec (r_status (respond rq)) ++
                                     "): " ++ slice0 160 (r_text (respond rq))))) /\
  (utf16_length (r_text (respond rq)) <= 160 ->
   slice0 160 (r_text (respond rq)) = r_text (respond rq)).
Proof.
  intros Hk rq Hr. split; [|apply slice0_short].
  unfold generate_direct, try_catch, openaiFetch, mbind, M_bind, mret, M_ret.
  rewrite Hk. fold rq. rewrite Hr. reflexivity.
Qed.

Lemma generate_direct_upstream_error_witness :
  generate_direct csv_parse to_json (fun _ => down_response) (fun _ => []) (fun _ => EmptyString)
    (fun _ => None) (fun _ => []) (fun _ => None) "sk-test" JNull [] =
  ([] ++ [Req "POST" "/v1/images/generations" (to_json JNull)],
   Ok (error_reply 500 ("OpenAI error (status " ++ z_to_dec (r_status down_response) ++
                        "): " ++ r_text down_response))).
Proof.
  destruct (generate_direct_upstream_error csv_parse to_json (fun _ => down_response)
              (fun _ => []) (fun _ => EmptyString) (fun _ => None) (fun _ => []) (fun _ => None)
              "sk-test" JNull [] eq_refl eq_refl) as [E S].
  rewrite E, S by (vm_compute; lia). reflexivity.
Defined.

(** Extra. In direct mode with the key set and a successful generation call
    (the only request made), the image is [data[0].b64_json] of the JSON
    answer: when it is missing or empty the reply is the 500 [No image data
    returned from API]; when it is a non-empty string it is post-processed
    and sent with status 200; an answer that is not JSON, or is [null], ends
    in the 500 [Unexpected server error in /api/generate]. *)
Theorem generate_direct_image (json_parse : string -> option jsval)
    (json_stringify : jsval -> string) (respond : request -> http_response)
    (buffer_from_b64 : string -> list Z) (buffer_to_b64 : list Z -> string)
    (png_read : list Z -> option png) (png_write : png -> list Z)
    (buffer_from_value : jsval -> option (list Z)) (key : string) (body : jsval)
    (log : list request) :
  String.eqb key "" = false ->
  let rq := Req "POST" "/v1/images/generations" (json_stringify body) in
  let run := generate_direct json_parse json_stringify respond buffer_from_b64 buffer_to_b64
               png_read png_write buffer_from_value key body log in
  r_ok (respond rq) = true ->
  (forall data, json_parse (r_text (respond rq)) = Some data -> data <> JNull -> data <> JUndef ->
     truthy (ochain (ochain (ochain data "data") "0") "b64_json") = false ->
     run = (log ++ [rq], Ok (error_reply 500 "No image data returned from API"))) /\
  (forall data s, json_parse (r_text (respond rq)) = Some data ->
     ochain (ochain (ochain data "data") "0") "b64_json" = JStr s -> s <> EmptyString ->
     run = (log ++ [rq], Ok (PngReply 200 (postProcess buffer_from_b64 buffer_to_b64
                                              png_read png_write s)))) /\
  ((json_parse (r_text (respond rq)) = None \/ json_parse (r_text (respond rq)) = Some JNull) ->
     run = (log ++ [rq], Ok (error_reply 500 "Unexpected server error in /api/generate"))).
Proof.
  intros Hk rq run Hr. unfold run.
  unfold generate_direct, try_catch, openaiFetch, mbind, M_bind, mret, M_ret.
  rewrite Hk. fold rq. rewrite Hr. cbn [negb].
  unfold res_json, of_option, throw. repeat split.
  - intros data Hp H1 H2 Ht. rewrite Hp. unfold get, of_option, mret, M_ret. cbv beta iota.
    rewrite (prop_ochain _ _ H1 H2). cbv beta iota zeta. rewrite Ht. reflexivity.
  - intros data s Hp Hs Hne. rewrite Hp.
    assert (H1 : data <> JNull) by (intros ->; discriminate Hs).
    assert (H2 : data <> JUndef) by (intros ->; discriminate Hs).
    unfold get, of_option, mret, M_ret. cbv beta iota.
    rewrite (prop_ochain _ _ H1 H2). cbv beta iota zeta. rewrite Hs.
    destruct s as [|c s]; [congruence|]. reflexivity.
  - intros [Hp|Hp]; rewrite Hp; reflexivity.
Qed.

Lemma generate_direct_image_witness :
  generate_direct (parse_of [direct_image_reply]) to_json direct_respond (fun _ => [])
    (fun _ => EmptyString) (fun _ => None) (fun _ => []) (fun _ => None) "sk-test" JNull [] =
  ([] ++ [Req "POST" "/v1/images/generations" (to_json JNull)],
   Ok (PngReply 200 (postProcess (fun _ => []) (fun _ => EmptyString) (fun _ => None)
                       (fun _ => []) "QUJD"))).
Proof.
  apply (proj1 (proj2 (generate_direct_image (parse_of [direct_image_reply]) to_json
                         direct_respond (fun _ => []) (fun _ => EmptyString) (fun _ => None)
                         (fun _ => []) (fun _ => None) "sk-test" JNull [] eq_refl eq_refl))
           direct_image_reply "QUJD"%string).
  - vm_compute. reflexivity.
  - reflexivity.
  - discriminate.
Defined.

(* ------------------------------------------------------------------ *)
(** ** The page's batch download *)

Lemma string_app_cancel_r (a b s : string) : (a ++ s)%string = (b ++ s)%string -> a = b.
Proof.
  intros H. apply (f_equal list_ascii_of_string) in H.
  rewrite !list_ascii_of_string_app in H. apply app_inv_tail in H.
  apply list_ascii_of_string_inj. exact H.
Qed.

Lemma padded_index_inj (n i j : nat) :
  padStart0 n (z_to_dec (Z.of_nat (i + 1))) = padStart0 n (z_to_dec (Z.of_nat (j + 1))) ->
  i = j.
Proof.
  intros H.
  assert (Pi : exists p, Z.of_nat (i + 1) = Z.pos p) by (exists (Pos.of_succ_nat i); lia).
  assert (Pj : exists p, Z.of_nat (j + 1) = Z.pos p) by (exists (Pos.of_succ_nat j); lia).
  destruct Pi as [p Hp], Pj as [q Hq]. rewrite Hp, Hq in H.
  destruct (z_to_dec_pos p) as (c & x & Ex & Hc & _).
  destruct (z_to_dec_pos q) as (d & y & Ey & Hd & _).
  apply (padStart0_inj n _ _ c d x y Ex Ey Hc Hd), z_to_dec_pos_inj in H. subst q. lia.
Qed.

Lemma download_name_inj (i j : nat) : download_name i = download_name j -> i = j.
Proof. unfold download_name. intros H. apply string_app_cancel_r, padded_index_inj in H. exact H. Qed.

Lemma NoDup_map_inj {A B} (f : A -> B) (l : list A) :
  (forall x y, f x = f y -> x = y) -> List.NoDup l -> List.NoDup (map f l).
Proof.
  intros Hf Hl. induction Hl as [|x l Hx Hl IH]; cbn; constructor; [|exact IH].
  intros (y & Hy & Hin)%in_map_iff. apply Hf in Hy. subst y. contradiction.
Qed.

Section DownloadProofs.
Variable fetch_batch : nat -> string -> string -> option http_response.
Variable batch_id : string.
Variable ids : list string.

Lemma download_loop_inv (fuel : nat) : forall k idx elapsed dl msg dl',
  idx = length dl -> (idx <= length ids)%nat ->
  map fst dl = map download_name (seq 0 idx) ->
  (forall i, (i < idx)%nat -> exists k' rr,
     fetch_batch k' batch_id (nth i ids EmptyString) = Some rr /\ r_ok rr = true /\
     r_status rr <> 202%Z /\ nth i dl (EmptyString, EmptyString) = (download_name i, r_text rr)) ->
  download_loop fetch_batch batch_id ids fuel k idx elapsed dl = Some (msg, dl') ->
  (length dl' <= length ids)%nat /\ map fst dl' = map download_name (seq 0 (length dl')) /\
  (forall i, (i < length dl')%nat -> exists k' rr,
     fetch_batch k' batch_id (nth i ids EmptyString) = Some rr /\ r_ok rr = true /\
     r_status rr <> 202%Z /\ nth i dl' (EmptyString, EmptyString) = (download_name i, r_text rr)) /\
  (msg = "全部ダウンロード完了"%string -> length dl' = length ids).
Proof.
  induction fuel as [|f IH]; intros k idx elapsed dl msg dl' Hlen Hle Hnames Hfrom Hrun;
    cbn [download_loop] in Hrun; [discriminate|].
  destruct (Nat.ltb_spec idx (length ids)) as [Hi|Hi].
  - destruct (DL_POLL_TIMEOUT_MS <? elapsed)%Z.
    { injection Hrun as <- <-. subst idx. split; [lia|]. split; [exact Hnames|].
      split; [exact Hfrom|]. intros E. discriminate E. }
    destruct (fetch_batch k batch_id (nth idx ids EmptyString)) as [rr|] eqn:Hf.
    2:{ injection Hrun as <- <-. subst idx. split; [lia|]. split; [exact Hnames|].
        split; [exact Hfrom|]. intros E. discriminate E. }
    destruct (Z.eqb_spec (r_status rr) 202) as [H202|H202].
    { exact (IH _ _ _ _ _ _ Hlen Hle Hnames Hfrom Hrun). }
    destruct (r_ok rr) eqn:Hok; cbn [negb] in Hrun.
    2:{ injection Hrun as <- <-. subst idx. split; [lia|]. split; [exact Hnames|].
        split; [exact Hfrom|]. intros E. discriminate E. }
    refine (IH _ _ _ _ _ _ _ _ _ _ Hrun).
    + rewrite length_app. cbn. lia.
    + lia.
    + rewrite map_app, seq_S, map_app, Hnames. reflexivity.
    + intros i Hi'. destruct (Nat.lt_ge_cases i idx) as [Hlt|Hge].
      * destruct (Hfrom i Hlt) as (k' & rr' & H1 & H2 & H3 & H4). exists k', rr'.
        repeat split; try assumption. rewrite app_nth1 by lia. exact H4.
      * assert (i = idx) by lia. subst i. exists k, rr. repeat split; try assumption.
        rewrite app_nth2 by lia. rewrite <- Hlen, Nat.sub_diag. reflexivity.
  - injection Hrun as <- <-. subst idx. split; [exact Hle|]. split; [exact Hnames|].
    split; [exact Hfrom|]. intros _. lia.
Qed.

Lemma download_loop_some (fuel : nat) : forall k idx elapsed dl,
  (length ids - idx +
   (if (elapsed <=? DL_POLL_TIMEOUT_MS)%Z
    then Z.to_nat ((DL_POLL_TIMEOUT_MS - elapsed) / DL_POLL_INTERVAL_MS) + 1 else 0) < fuel)%nat ->
  download_loop fetch_batch batch_id ids fuel k idx elapsed dl <> None.
Proof.
  induction fuel as [|f IH]; intros k idx elapsed dl Hm; [lia|].
  cbn [download_loop].
  destruct (Nat.ltb_spec idx (length ids)) as [Hi|Hi]; [|discriminate].
  destruct (Z.ltb_spec DL_POLL_TIMEOUT_MS elapsed) as [Ht|Ht]; [discriminate|].
  destruct (fetch_batch k batch_id (nth idx ids EmptyString)) as [rr|]; [|discriminate].
  apply Z.leb_le in Ht as Ht'. rewrite Ht' in Hm.
  destruct (Z.eqb (r_status rr) 202).
  - apply IH.
    destruct (Z.leb_spec (elapsed + DL_POLL_INTERVAL_MS) DL_POLL_TIMEOUT_MS) as [Hn|Hn];
      [|lia].
    replace (DL_POLL_TIMEOUT_MS - (elapsed + DL_POLL_INTERVAL_MS))%Z
      with ((DL_POLL_TIMEOUT_MS - elapsed) + (-1) * DL_POLL_INTERVAL_MS)%Z by lia.
    rewrite Z.div_add by (unfold DL_POLL_INTERVAL_MS; lia).
    assert (1 <= (DL_POLL_TIMEOUT_MS - elapsed) / DL_POLL_INTERVAL_MS)%Z.
    { apply Z.div_le_lower_bound; unfold DL_POLL_INTERVAL_MS in *; lia. }
    generalize dependent ((DL_POLL_TIMEOUT_MS - elapsed) / DL_POLL_INTERVAL_MS)%Z. intros X Hm HX.
    assert (E : Z.to_nat (X + -1) = (Z.to_nat X - 1)%nat).
    { replace (X + -1)%Z with (X - 1)%Z by lia. rewrite Z2Nat.inj_sub by lia. reflexivity. }
    assert (E1 : (1 <= Z.to_nat X)%nat).
    { change 1%nat with (Z.to_nat 1). apply Z2Nat.inj_le; lia. }
    rewrite E. lia.
  - destruct (negb (r_ok rr)); [discriminate|]. apply IH. rewrite Ht'. lia.
Qed.

End DownloadProofs.

(** Extra. Whatever the batch endpoint answers, the page's download-all
    loop saves files named [001.png], [002.png], ... in the order of the
    batch's items, all names distinct; the [i]-th file holds the body of an
    ok, non-[202] answer to a request for the [i]-th item's correlation id;
    it never saves more files than items, and it reports completion only
    when it saved one file per item. *)
Theorem download_all_in_order (fetch_batch : nat -> string -> string -> option http_response)
    (batch_id : string) (ids : list string) (fuel : nat) (msg : string)
    (dl : list (string * string)) :
  handleBatchDownloadAll fetch_batch batch_id ids fuel = Some (msg, dl) ->
  (length dl <= length ids)%nat /\ map fst dl = map download_name (seq 0 (length dl)) /\
  List.NoDup (map fst dl) /\
  (forall i, (i < length dl)%nat -> exists k rr,
     fetch_batch k batch_id (nth i ids EmptyString) = Some rr /\ r_ok rr = true /\
     r_status rr <> 202%Z /\ nth i dl (EmptyString, EmptyString) = (download_name i, r_text rr)) /\
  (msg = "全部ダウンロード完了"%string -> length dl = length ids).
Proof.
  intros H. unfold handleBatchDownloadAll in H.
  assert (Hnil : forall i, (i < 0)%nat -> exists k rr,
     fetch_batch k batch_id (nth i ids EmptyString) = Some rr /\ r_ok rr = true /\
     r_status rr <> 202%Z /\ nth i [] (EmptyString, EmptyString) = (download_name i, r_text rr))
    by (intros i Hi; lia).
  destruct (download_loop_inv fetch_batch batch_id ids fuel 0 0 0 [] msg dl eq_refl
              (Nat.le_0_l _) eq_refl Hnil H) as (H1 & H2 & H3 & H4).
  split; [exact H1|]. split; [exact H2|]. split; [|split; [exact H3|exact H4]].
  rewrite H2. apply NoDup_map_inj; [exact download_name_inj|apply seq_NoDup].
Qed.

Lemma download_all_in_order_witness :
  handleBatchDownloadAll dl_fetch "batch_9" ["c1"; "c2"]%string 10 =
    Some ("全部ダウンロード完了"%string, [("001.png", "c1"); ("002.png", "c2")]%string) /\
  (length [("001.png", "c1"); ("002.png", "c2")]%string <= length ["c1"; "c2"]%string)%nat.
Proof.
  assert (E : handleBatchDownloadAll dl_fetch "batch_9" ["c1"; "c2"]%string 10 =
    Some ("全部ダウンロード完了"%string, [("001.png", "c1"); ("002.png", "c2")]%string))
    by (vm_compute; reflexivity).
  split; [exact E|].
  exact (proj1 (download_all_in_order dl_fetch "batch_9" ["c1"; "c2"]%string 10 _ _ E)).
Defined.

(** Extra. The page's download-all loop always ends, after at most
    [n + 902] iterations for [n] items: each iteration either saves a file,
    ends the loop, or waits 2 s on a pending answer, and after 901 such
    waits the 30-minute timeout stops it. *)
Theorem download_all_terminates (fetch_batch : nat -> string -> string -> option http_response)
    (batch_id : string) (ids : list string) :
  handleBatchDownloadAll fetch_batch batch_id ids (length ids + 902) <> None.
Proof.
  unfold handleBatchDownloadAll. apply download_loop_some.
  replace (if (0 <=? DL_POLL_TIMEOUT_MS)%Z
           then Z.to_nat ((DL_POLL_TIMEOUT_MS - 0) / DL_POLL_INTERVAL_MS) + 1 else 0)%nat
    with 901%nat by (vm_compute; reflexivity).
  lia.
Qed.

(* ------------------------------------------------------------------ *)
(** ** The guards of [GET /api/batch] and the submission of [GET /api/generate] *)

(** Extra. [GET /api/batch] contacts the upstream API only when the key and
    both query parameters are set: without the key it answers 500, without
    [batch_id] or [custom_id] 400, making no request. With them, while the
    job is not completed it makes the status request only and answers 202
    with the [batch_id] and [custom_id] it was asked about. *)
Theorem batch_GET_guards_pending (json_parse : string -> option jsval)
    (respond : request -> http_response)
    (buffer_from_b64 : string -> list Z) (buffer_to_b64 : list Z -> string)
    (png_read : list Z -> option png) (png_write : png -> list Z)
    (key bid cid : string) (log : list request) :
  let run := batch_GET json_parse respond buffer_from_b64 buffer_to_b64 png_read png_write
               key bid cid log in
  (key = EmptyString ->
   run = (log, Ok (error_reply 500 "OPENAI_API_KEY is not set on the server."))) /\
  (key <> EmptyString -> bid = EmptyString \/ cid = EmptyString ->
   run = (log, Ok (error_reply 400 "batch_id and custom_id are required."))) /\
  (forall st, key <> EmptyString -> bid <> EmptyString -> cid <> EmptyString ->
   let rq := Req "GET" ("/v1/batches/" ++ bid) "" in
   r_ok (respond rq) = true -> json_parse (r_text (respond rq)) = Some st ->
   st <> JNull -> st <> JUndef -> is_str (ochain st "status") "completed" = false ->
   run = (log ++ [rq], Ok (pending_reply (JStr bid) cid))).
Proof.
  intros run. unfold run, batch_GET, try_catch. split; [|split].
  - intros ->. reflexivity.
  - intros Hk Hids. destruct (String.eqb_spec key "") as [|_]; [contradiction|].
    destruct Hids as [->| ->]; [reflexivity|].
    rewrite orb_true_r. reflexivity.
  - intros st Hk Hb Hc Hr Hp H1 H2 Hs.
    destruct (String.eqb_spec key "") as [|_]; [contradiction|].
    destruct (String.eqb_spec bid "") as [|_]; [contradiction|].
    destruct (String.eqb_spec cid "") as [|_]; [contradiction|]. cbn [orb].
    unfold tryGetBatchResultImageBase64, openaiFetch, res_json, get, of_option,
      mbind, M_bind, mret, M_ret.
    rewrite Hr. cbn [negb]. rewrite Hp. cbv beta iota.
    rewrite (prop_ochain _ _ H1 H2). cbv beta iota. rewrite Hs. reflexivity.
Qed.

Lemma batch_GET_guards_pending_witness :
  batch_GET (parse_of [pending_status]) pending_respond (fun _ => []) (fun _ => EmptyString)
    (fun _ => None) (fun _ => []) "sk-test" "batch_1" "c1" [] =
  ([] ++ [Req "GET" ("/v1/batches/" ++ "batch_1") ""],
   Ok (pending_reply (JStr "batch_1") "c1")).
Proof.
  apply (proj2 (proj2 (batch_GET_guards_pending (parse_of [pending_status]) pending_respond
                         (fun _ => []) (fun _ => EmptyString) (fun _ => None) (fun _ => [])
                         "sk-test" "batch_1" "c1" [])) pending_status).
  - discriminate.
  - discriminate.
  - discriminate.
  - reflexivity.
  - vm_compute. reflexivity.
  - discriminate.
  - discriminate.
  - reflexivity.
Defined.

(** Extra. The submission of [GET /api/generate] in batch mode uploads one
    JSONL line carrying the correlation id, and creates the batch only
    after the upload succeeded, from the uploaded file's id: a failed upload
    throws its diagnostic with no batch created; a failed creation throws
    after exactly the two requests; otherwise the job id of the creation
    answer and the correlation id of the uploaded line are returned. *)
Theorem createSingleImageBatch_protocol (json_parse : string -> option jsval)
    (json_stringify : jsval -> string) (respond : request -> http_response)
    (body : jsval) (customId : string) (log : list request) :
  let line := (json_stringify (JObj [("custom_id"%string, JStr customId);
                                     ("method"%string, JStr "POST");
                                     ("url"%string, JStr "/v1/images/generations");
                                     ("body"%string, body)]) ++ nl)%string in
  let upRq := Req "POST" "/v1/files" line in
  let run := createSingleImageBatch json_parse json_stringify respond body customId log in
  (r_ok (respond upRq) = false ->
   run = (log ++ [upRq], Exn (upstream_error "OpenAI file upload failed" (respond upRq)))) /\
  (forall up upId, r_ok (respond upRq) = true -> json_parse (r_text (respond upRq)) = Some up ->
   prop up "id" = Some upId ->
   let bRq := Req "POST" "/v1/batches"
                (json_stringify (JObj [("input_file_id"%string, upId);
                                       ("endpoint"%string, JStr "/v1/images/generations");
                                       ("completion_window"%string, JStr "24h")])) in
   (r_ok (respond bRq) = false ->
    run = (log ++ [upRq] ++ [bRq], Exn (upstream_error "OpenAI batch create failed" (respond bRq)))) /\
   (forall batch batchId, r_ok (respond bRq) = true ->
    json_parse (r_text (respond bRq)) = Some batch -> prop batch "id" = Some batchId ->
    run = (log ++ [upRq] ++ [bRq], Ok (batchId, customId)))).
Proof.
  intros line upRq run. unfold run, createSingleImageBatch, openaiFetch, res_json, get, of_option,
    throw, mbind, M_bind, mret, M_ret.
  fold line. fold upRq. split.
  - intros Hr. rewrite Hr. reflexivity.
  - intros up upId Hr Hp Hi. rewrite Hr. cbn [negb]. rewrite Hp. cbv beta iota.
    rewrite Hi. cbv beta iota. rewrite <- app_assoc. split.
    + intros Hb. rewrite Hb. reflexivity.
    + intros batch batchId Hb Hq Hid. rewrite Hb. cbn [negb]. rewrite Hq. cbv beta iota.
      rewrite Hid. reflexivity.
Qed.

Lemma createSingleImageBatch_protocol_witness :
  createSingleImageBatch csv_parse to_json csv_respond JNull "gen-1" [] =
  ([] ++ [Req "POST" "/v1/files"
            (to_json (JObj [("custom_id"%string, JStr "gen-1"); ("method"%string, JStr "POST");
                            ("url"%string, JStr "/v1/images/generations");
                            ("body"%string, JNull)]) ++ nl)%string] ++
         [Req "POST" "/v1/batches"
            (to_json (JObj [("input_file_id"%string, JStr "file_9");
                            ("endpoint"%string, JStr "/v1/images/generations");
                            ("completion_window"%string, JStr "24h")]))],
   Ok (JStr "batch_9", "gen-1"%string)).
Proof.
  apply (proj2 (proj2 (createSingleImageBatch_protocol csv_parse to_json csv_respond JNull
                         "gen-1" []) csv_upload_reply (JStr "file_9") eq_refl
                  ltac:(vm_compute; reflexivity) eq_refl) csv_batch_reply (JStr "batch_9")).
  - reflexivity.
  - vm_compute. reflexivity.
  - reflexivity.
Defined.

(* ------------------------------------------------------------------ *)
(** ** The page's generation: the pending answer and its poll *)

Lemma page_poll_loop_some (fetch_poll : nat -> string -> string -> option http_response) (bid cid : string) (fuel : nat) :
  forall k e, (1 <= fuel)%nat -> (GEN_POLL_TIMEOUT_MS - e <= 2000 * (Z.of_nat fuel - 1))%Z ->
  page_poll_loop fetch_poll fuel k e bid cid <> None.
Proof.
  induction fuel as [|f IH]; intros k e H1 H2; [lia|]. cbn [page_poll_loop].
  destruct (Z.ltb_spec e GEN_POLL_TIMEOUT_MS) as [Hl|Hl]; [|discriminate].
  destruct (fetch_poll k bid cid) as [rr|]; [|discriminate].
  destruct (Z.eqb (r_status rr) 202).
  - apply IH; unfold GEN_POLL_INTERVAL_MS; lia.
  - destruct (negb (r_ok rr)); discriminate.
Qed.

(** Extra. The page's handling of a generation always ends: when the
    answer is the 202 pending one, its poll of [/api/batch] stops after at
    most 151 iterations, the last ones being the 5-minute timeout. *)
Theorem handleGenerate_terminates (json_parse : string -> option jsval)
    (fetch_generate : option http_response)
    (fetch_poll : nat -> string -> string -> option http_response) :
  handleGenerate json_parse fetch_generate fetch_poll 151 <> None.
Proof.
  unfold handleGenerate. destruct fetch_generate as [res|]; [|discriminate].
  destruct (Z.eqb (r_status res) 202).
  - cbv zeta. destruct (_ || _); [discriminate|].
    apply page_poll_loop_some; [lia|vm_compute; discriminate].
  - destruct (negb (r_ok res)); discriminate.
Qed.

(** Extra. When [/api/generate] answers with its 202 pending reply for a
    job [bid] and correlation id [cid] (non-empty), and the page's
    [JSON.parse] reads back the text the server wrote, the page polls
    [/api/batch] with exactly [bid] and [cid], from a zero elapsed time. *)
Theorem handleGenerate_pending_ids (json_parse : string -> option jsval)
    (json_stringify : jsval -> string)
    (fetch_poll : nat -> string -> string -> option http_response)
    (res : http_response) (bid cid : string) (b : jsval) (fuel : nat) :
  pending_reply (JStr bid) cid = JsonReply (r_status res) b ->
  r_text res = json_stringify b -> json_parse (json_stringify b) = Some b ->
  bid <> EmptyString -> cid <> EmptyString ->
  handleGenerate json_parse (Some res) fetch_poll fuel = page_poll_loop fetch_poll fuel 0 0 bid cid.
Proof.
  intros Hrep Ht Hp Hb Hc. unfold pending_reply in Hrep. injection Hrep as Hs Hbody.
  unfold handleGenerate. rewrite <- Hs, Ht, Hp, <- Hbody.
  apply String.eqb_neq in Hb, Hc. cbn -[page_poll_loop]. rewrite Hb, Hc. reflexivity.
Qed.

Lemma handleGenerate_pending_ids_witness :
  handleGenerate (parse_of [JObj [("status"%string, JStr "pending");
                                  ("batch_id"%string, JStr "batch_9");
                                  ("custom_id"%string, JStr "gen-1")]])
    (Some {| r_ok := true; r_status := 202;
             r_text := to_json (JObj [("status"%string, JStr "pending");
                                      ("batch_id"%string, JStr "batch_9");
                                      ("custom_id"%string, JStr "gen-1")]) |})
    dl_fetch 3 = page_poll_loop dl_fetch 3 0 0 "batch_9" "gen-1".
Proof.
  apply (handleGenerate_pending_ids _ to_json dl_fetch _ "batch_9" "gen-1"
           (JObj [("status"%string, JStr "pending"); ("batch_id"%string, JStr "batch_9");
                  ("custom_id"%string, JStr "gen-1")]) 3).
  - reflexivity.
  - reflexivity.
  - vm_compute. reflexivity.
  - discriminate.
  - discriminate.
Defined.
